(** * Symmetries: scene state, crop geometry and undo engine of [app.js]

    A shallow embedding of the scene model of the image compositor
    ([src/app.js]) together with the properties its specification states.

    JavaScript numbers are modelled by exact rationals ([Q]): every finite
    double is a rational, and the arithmetic below is the exact one.  [NaN]
    and the infinities are not values of the model; the two places where the
    source starts a fold from [Infinity] are modelled with an explicit
    extended type. *)

From Stdlib Require Import QArith Qround Lqa.
From Stdlib Require Import ZArith List String DecimalString Bool Lia.
From Stdlib Require DecimalNat Permutation.
Import ListNotations.

Local Open Scope string_scope.
Local Open Scope list_scope.
Local Open Scope Q_scope.

(* ################################################################# *)
(** * Part I: the model *)

(* ================================================================= *)
(** ** JavaScript arithmetic on rationals *)

Module JS.

(** Truncation toward zero, the quotient that [%] is defined from. *)
Definition trunc (q : Q) : Z :=
  if Qle_bool 0 q then Qfloor q else Qceiling q.

(** [a % b]: the remainder has the sign of the dividend. *)
Definition rem (a b : Q) : Q := a - b * inject_Z (trunc (a / b)).

(** [Math.round(x)]: nearest integer, halves rounded up. *)
Definition round (x : Q) : Z := Qfloor (x + (1 # 2)).

(** [Math.abs], [Math.min], [Math.max]. *)
Definition abs (x : Q) : Q := if Qle_bool 0 x then x else - x.
Definition min (a b : Q) : Q := if Qle_bool a b then a else b.
Definition max (a b : Q) : Q := if Qle_bool a b then b else a.

(** [a < b] as a test. *)
Definition ltb (a b : Q) : bool := negb (Qle_bool b a).

End JS.

(* ================================================================= *)
(** ** Edge mapping ([getSourceEdge], and its inverse in [applyCropBounds]) *)

Module Edge.
(** The four handle / edge names ['top'], ['right'], ['bottom'], ['left']. *)
Inductive t : Type := top | right | bottom | left.

Definition eqb (a b : t) : bool :=
  match a, b with
  | top, top | right, right | bottom, bottom | left, left => true
  | _, _ => false
  end.

(** The [anchorSourceEdge] table of [applyCropBounds]. *)
Definition opposite (e : t) : t :=
  match e with
  | left => right
  | right => left
  | top => bottom
  | bottom => top
  end.
End Edge.
Abbreviation Edge := Edge.t.

(** Lines 731-732 (and 853-854):
    [rot = ((rotation % 360) + 360) % 360;
     rot = Math.round(rot / 90) * 90 % 360]. *)
Definition normalizeRotation (rotation : Q) : Q :=
  JS.rem (JS.rem rotation 360 + 360) 360.

Definition snapRotation (rotation : Q) : Q :=
  let rot := normalizeRotation rotation in
  JS.rem (inject_Z (JS.round (rot / 90)) * 90) 360.

(** An object literal keyed by [0], [90], [180], [270]: a lookup with any
    other key yields [undefined] (here [None]). *)
Definition lookupQuadrant {A : Type} (m0 m90 m180 m270 : A) (rot : Q)
  : option A :=
  if Qeq_bool rot 0 then Some m0
  else if Qeq_bool rot 90 then Some m90
  else if Qeq_bool rot 180 then Some m180
  else if Qeq_bool rot 270 then Some m270
  else None.

(** An edge-to-edge table [{ top: t, right: r, bottom: b, left: l }]. *)
Definition edgeTable (t r b l : Edge) (e : Edge) : Edge :=
  match e with
  | Edge.top => t
  | Edge.right => r
  | Edge.bottom => b
  | Edge.left => l
  end.

Definition rotationMaps : Q -> option (Edge -> Edge) :=
  lookupQuadrant
    (edgeTable Edge.top Edge.right Edge.bottom Edge.left)
    (edgeTable Edge.left Edge.top Edge.right Edge.bottom)
    (edgeTable Edge.bottom Edge.left Edge.top Edge.right)
    (edgeTable Edge.right Edge.bottom Edge.left Edge.top).

Definition visualMaps : Q -> option (Edge -> Edge) :=
  lookupQuadrant
    (edgeTable Edge.top Edge.right Edge.bottom Edge.left)
    (edgeTable Edge.right Edge.bottom Edge.left Edge.top)
    (edgeTable Edge.bottom Edge.left Edge.top Edge.right)
    (edgeTable Edge.left Edge.top Edge.right Edge.bottom).

(** [if (scaleX < 0) { left <-> right }]. *)
Definition flipLR (scaleX : Q) (e : Edge) : Edge :=
  if JS.ltb scaleX 0 then
    match e with Edge.left => Edge.right | Edge.right => Edge.left | _ => e end
  else e.

(** [if (scaleY < 0) { top <-> bottom }]. *)
Definition flipTB (scaleY : Q) (e : Edge) : Edge :=
  if JS.ltb scaleY 0 then
    match e with Edge.top => Edge.bottom | Edge.bottom => Edge.top | _ => e end
  else e.

(** [getSourceEdge(visualHandle, rotation, scaleX, scaleY)].  [None] stands
    for the [TypeError] of indexing [undefined] on a missed lookup. *)
Definition getSourceEdge (visualHandle : Edge) (rotation scaleX scaleY : Q)
  : option Edge :=
  let rot := snapRotation rotation in
  match rotationMaps rot with
  | Some m => Some (flipTB scaleY (flipLR scaleX (m visualHandle)))
  | None => None
  end.

(** The source-edge-to-visual-edge map of [applyCropBounds] (lines 849-873):
    flips first, then the [visualMaps] table. *)
Definition getVisualEdge (sourceEdge : Edge) (rotation scaleX scaleY : Q)
  : option Edge :=
  let rot := snapRotation rotation in
  let flippedEdge := flipTB scaleY (flipLR scaleX sourceEdge) in
  match visualMaps rot with
  | Some m => Some (m flippedEdge)
  | None => None
  end.

(* ================================================================= *)
(** ** Data model *)

(** [cropBounds]: margins in source pixels. *)
Module Crop.
Record t : Type := mk { top : Q; right : Q; bottom : Q; left : Q }.

(** [{ top: 0, right: 0, bottom: 0, left: 0 }]. *)
Definition zero : t := mk 0 0 0 0.

Definition get (e : Edge) (c : t) : Q :=
  match e with
  | Edge.top => top c
  | Edge.right => right c
  | Edge.bottom => bottom c
  | Edge.left => left c
  end.

(** [{ ...c, [e]: v }]. *)
Definition set (e : Edge) (v : Q) (c : t) : t :=
  match e with
  | Edge.top => mk v (right c) (bottom c) (left c)
  | Edge.right => mk (top c) v (bottom c) (left c)
  | Edge.bottom => mk (top c) (right c) v (left c)
  | Edge.left => mk (top c) (right c) (bottom c) v
  end.
End Crop.

(** A decoded [Image]: an opaque handle and its pixel dimensions. *)
Record Raster : Type := { rasterRef : nat; imgWidth : Q; imgHeight : Q }.

(** [{ x, y, width, height }], as returned by [getClientRect] and as taken
    by [node.crop]. *)
Module Rect.
Record t : Type := mk { x : Q; y : Q; width : Q; height : Q }.

(** The coordinate of one edge of the rectangle. *)
Definition edge (e : Edge) (r : t) : Q :=
  match e with
  | Edge.top => y r
  | Edge.bottom => y r + height r
  | Edge.left => x r
  | Edge.right => x r + width r
  end.
End Rect.

(** A [Konva.Image] of [imageLayer] with the attributes the program stores
    on it.  [_id] is Konva's own node identity; [width], [height] are what
    the getters return (the image's own size until a crop sets them). *)
Module Node.
Record t : Type := mk {
  _id : nat;
  imageId : string;
  originalImage : Raster;
  originalWidth : Q;
  originalHeight : Q;
  x : Q;
  y : Q;
  scaleX : Q;
  scaleY : Q;
  rotation : Q;
  cropBounds : Crop.t;
  blendMode : string;
  opacity : Q;
  name : string;
  crop : option Rect.t;
  width : Q;
  height : Q;
  offsetX : Q;
  offsetY : Q
}.

Definition set_id (v : nat) (n : t) : t :=
  mk v (imageId n) (originalImage n) (originalWidth n) (originalHeight n)
     (x n) (y n) (scaleX n) (scaleY n) (rotation n) (cropBounds n)
     (blendMode n) (opacity n) (name n) (crop n) (width n) (height n)
     (offsetX n) (offsetY n).

Definition set_imageId (v : string) (n : t) : t :=
  mk (_id n) v (originalImage n) (originalWidth n) (originalHeight n)
     (x n) (y n) (scaleX n) (scaleY n) (rotation n) (cropBounds n)
     (blendMode n) (opacity n) (name n) (crop n) (width n) (height n)
     (offsetX n) (offsetY n).

Definition set_x (v : Q) (n : t) : t :=
  mk (_id n) (imageId n) (originalImage n) (originalWidth n)
     (originalHeight n) v (y n) (scaleX n) (scaleY n) (rotation n)
     (cropBounds n) (blendMode n) (opacity n) (name n) (crop n) (width n)
     (height n) (offsetX n) (offsetY n).

Definition set_y (v : Q) (n : t) : t :=
  mk (_id n) (imageId n) (originalImage n) (originalWidth n)
     (originalHeight n) (x n) v (scaleX n) (scaleY n) (rotation n)
     (cropBounds n) (blendMode n) (opacity n) (name n) (crop n) (width n)
     (height n) (offsetX n) (offsetY n).

Definition set_scaleX (v : Q) (n : t) : t :=
  mk (_id n) (imageId n) (originalImage n) (originalWidth n)
     (originalHeight n) (x n) (y n) v (scaleY n) (rotation n)
     (cropBounds n) (blendMode n) (opacity n) (name n) (crop n) (width n)
     (height n) (offsetX n) (offsetY n).

Definition set_scaleY (v : Q) (n : t) : t :=
  mk (_id n) (imageId n) (originalImage n) (originalWidth n)
     (originalHeight n) (x n) (y n) (scaleX n) v (rotation n)
     (cropBounds n) (blendMode n) (opacity n) (name n) (crop n) (width n)
     (height n) (offsetX n) (offsetY n).

Definition set_rotation (v : Q) (n : t) : t :=
  mk (_id n) (imageId n) (originalImage n) (originalWidth n)
     (originalHeight n) (x n) (y n) (scaleX n) (scaleY n) v
     (cropBounds n) (blendMode n) (opacity n) (name n) (crop n) (width n)
     (height n) (offsetX n) (offsetY n).

Definition set_blendMode (v : string) (n : t) : t :=
  mk (_id n) (imageId n) (originalImage n) (originalWidth n)
     (originalHeight n) (x n) (y n) (scaleX n) (scaleY n) (rotation n)
     (cropBounds n) v (opacity n) (name n) (crop n) (width n)
     (height n) (offsetX n) (offsetY n).

Definition set_opacity (v : Q) (n : t) : t :=
  mk (_id n) (imageId n) (originalImage n) (originalWidth n)
     (originalHeight n) (x n) (y n) (scaleX n) (scaleY n) (rotation n)
     (cropBounds n) (blendMode n) v (name n) (crop n) (width n)
     (height n) (offsetX n) (offsetY n).

(** The five writes that follow a crop change:
    [setAttr('cropBounds', c); crop(r); width(w); height(h);
     offsetX(w / 2); offsetY(h / 2)]. *)
Definition set_cropGeometry (c : Crop.t) (r : Rect.t) (n : t) : t :=
  mk (_id n) (imageId n) (originalImage n) (originalWidth n)
     (originalHeight n) (x n) (y n) (scaleX n) (scaleY n) (rotation n)
     c (blendMode n) (opacity n) (name n) (Some r)
     (Rect.width r) (Rect.height r)
     (Rect.width r / 2) (Rect.height r / 2).
End Node.

(** One entry of the [images] array of a snapshot ([captureState]). *)
Module ImgState.
Record t : Type := mk {
  id : string;
  imageRef : Raster;
  originalWidth : Q;
  originalHeight : Q;
  x : Q;
  y : Q;
  scaleX : Q;
  scaleY : Q;
  rotation : Q;
  cropBounds : Crop.t;
  blendMode : string;
  opacity : Q;
  name : string;
  zIndex : Z
}.

Definition set_zIndex (v : Z) (s : t) : t :=
  mk (id s) (imageRef s) (originalWidth s) (originalHeight s) (x s) (y s)
     (scaleX s) (scaleY s) (rotation s) (cropBounds s) (blendMode s)
     (opacity s) (name s) v.

(** [imgState.x += dx; imgState.y += dy; imgState.id = newId]. *)
Definition moveAndRename (dx dy : Q) (newId : string) (s : t) : t :=
  mk newId (imageRef s) (originalWidth s) (originalHeight s)
     (x s + dx) (y s + dy)
     (scaleX s) (scaleY s) (rotation s) (cropBounds s) (blendMode s)
     (opacity s) (name s) (zIndex s).
End ImgState.

(** [{ version: 2, images: [...] }]. *)
Record Snapshot : Type := { version : nat; images : list ImgState.t }.

(** The part of the Konva stage the program reads. *)
Module Stage.
Record t : Type := mk {
  width : Q; height : Q; x : Q; y : Q; scaleX : Q; scaleY : Q
}.
End Stage.

(** The module-level state of [app.js]. *)
Record State : Type := mkState {
  (** the [Konva.Image] children of [imageLayer], back to front *)
  layer : list Node.t;
  (** [transformer.nodes()]: the [_id] of the attached image, if any *)
  selection : option nat;
  (** arrays: oldest entry first, [push] appends, [pop] takes the last *)
  undoStack : list Snapshot;
  redoStack : list Snapshot;
  imageCount : nat;
  nudgeUndoPushed : bool;
  stage : Stage.t;
  (** Konva's node counter *)
  nextNodeId : nat;
  (** [generateImageId] reads the clock and a random source: the k-th call
      returns [idSource k] *)
  idSource : nat -> string;
  idCalls : nat;
  (** messages shown with [alert] and [console.warn], oldest first *)
  alerts : list string;
  warnings : list string
}.

Definition set_layer (v : list Node.t) (s : State) : State :=
  mkState v (selection s) (undoStack s) (redoStack s) (imageCount s)
          (nudgeUndoPushed s) (stage s) (nextNodeId s) (idSource s)
          (idCalls s) (alerts s) (warnings s).

Definition set_selection (v : option nat) (s : State) : State :=
  mkState (layer s) v (undoStack s) (redoStack s) (imageCount s)
          (nudgeUndoPushed s) (stage s) (nextNodeId s) (idSource s)
          (idCalls s) (alerts s) (warnings s).

Definition set_stacks (u r : list Snapshot) (s : State) : State :=
  mkState (layer s) (selection s) u r (imageCount s)
          (nudgeUndoPushed s) (stage s) (nextNodeId s) (idSource s)
          (idCalls s) (alerts s) (warnings s).

Definition set_imageCount (v : nat) (s : State) : State :=
  mkState (layer s) (selection s) (undoStack s) (redoStack s) v
          (nudgeUndoPushed s) (stage s) (nextNodeId s) (idSource s)
          (idCalls s) (alerts s) (warnings s).

Definition set_nudgeUndoPushed (v : bool) (s : State) : State :=
  mkState (layer s) (selection s) (undoStack s) (redoStack s) (imageCount s)
          v (stage s) (nextNodeId s) (idSource s)
          (idCalls s) (alerts s) (warnings s).

Definition set_nextNodeId (v : nat) (s : State) : State :=
  mkState (layer s) (selection s) (undoStack s) (redoStack s) (imageCount s)
          (nudgeUndoPushed s) (stage s) v (idSource s)
          (idCalls s) (alerts s) (warnings s).

Definition set_idCalls (v : nat) (s : State) : State :=
  mkState (layer s) (selection s) (undoStack s) (redoStack s) (imageCount s)
          (nudgeUndoPushed s) (stage s) (nextNodeId s) (idSource s)
          v (alerts s) (warnings s).

Definition alert (msg : string) (s : State) : State :=
  mkState (layer s) (selection s) (undoStack s) (redoStack s) (imageCount s)
          (nudgeUndoPushed s) (stage s) (nextNodeId s) (idSource s)
          (idCalls s) (alerts s ++ [msg]) (warnings s).

Definition consoleWarn (msg : string) (s : State) : State :=
  mkState (layer s) (selection s) (undoStack s) (redoStack s) (imageCount s)
          (nudgeUndoPushed s) (stage s) (nextNodeId s) (idSource s)
          (idCalls s) (alerts s) (warnings s ++ [msg]).

(** The page as it starts: no image, empty stacks. *)
Definition initialState (st : Stage.t) (ids : nat -> string) : State :=
  mkState [] None [] [] 0 false st 0 ids 0 [] [].

(* ================================================================= *)
(** ** Utility functions *)

Definition MAX_UNDO_LEVELS : nat := 30.

(** [generateImageId()]. *)
Definition generateImageId (s : State) : string * State :=
  (idSource s (idCalls s), set_idCalls (S (idCalls s)) s).

(** [getSelectedImage()]: the node attached to the transformer. *)
Definition getSelectedImage (s : State) : option Node.t :=
  match selection s with
  | Some i => find (fun n => Nat.eqb (Node._id n) i) (layer s)
  | None => None
  end.

(** [findImageById(imageId)]: the first image carrying that id. *)
Definition findImageById (imageId : string) (s : State) : option Node.t :=
  find (fun n => String.eqb (Node.imageId n) imageId) (layer s).

(** [getViewportCenter()]. *)
Definition getViewportCenter (s : State) : Q * Q :=
  let st := stage s in
  ((Stage.width st / 2 - Stage.x st) / Stage.scaleX st,
   (Stage.height st / 2 - Stage.y st) / Stage.scaleY st).

(** A write through a node reference: the node with that [_id] is replaced
    in the layer. *)
Definition updateNode (i : nat) (f : Node.t -> Node.t) (s : State) : State :=
  set_layer
    (map (fun n => if Nat.eqb (Node._id n) i then f n else n) (layer s)) s.

(** [v || d] on strings: the empty string is falsy. *)
Definition orString (v d : string) : string :=
  if String.eqb v "" then d else v.

(** [Array.prototype.sort] with the comparator [(a, b) => key(a) - key(b)]:
    a stable sort by ascending key. *)
Fixpoint insertBy {A : Type} (key : A -> Z) (a : A) (l : list A) : list A :=
  match l with
  | [] => [a]
  | b :: l' => if (key a <=? key b)%Z then a :: l else b :: insertBy key a l'
  end.

Fixpoint sortBy {A : Type} (key : A -> Z) (l : list A) : list A :=
  match l with
  | [] => []
  | a :: l' => insertBy key a (sortBy key l')
  end.

(** [arr.map((v, index) => f(v, index))], counting from [i]. *)
Fixpoint mapiFrom {A B : Type} (f : A -> nat -> B) (i : nat) (l : list A)
  : list B :=
  match l with
  | [] => []
  | a :: l' => f a i :: mapiFrom f (S i) l'
  end.

Definition mapi {A B : Type} (f : A -> nat -> B) (l : list A) : list B :=
  mapiFrom f 0 l.

(** [arr.pop()]: the last element and the array without it. *)
Fixpoint pop {A : Type} (l : list A) : option (A * list A) :=
  match l with
  | [] => None
  | a :: l' =>
      match pop l' with
      | None => Some (a, [])
      | Some (z, rest) => Some (z, a :: rest)
      end
  end.

(* ================================================================= *)
(** ** State management: [captureState], [restoreState] *)

(** [captureState()].  Konva's [zIndex()] is the position of a node among
    the children of its layer; the children that are not images leave the
    relative order of the images as it is, so the images are sorted here by
    their position in [layer]. *)
Definition captureImage (img : Node.t) (index : nat) : ImgState.t :=
  ImgState.mk
    (Node.imageId img)
    (Node.originalImage img)
    (Node.originalWidth img)
    (Node.originalHeight img)
    (Node.x img)
    (Node.y img)
    (Node.scaleX img)
    (Node.scaleY img)
    (Node.rotation img)
    (Node.cropBounds img)
    (orString (Node.blendMode img) "source-over")
    (Node.opacity img)
    (Node.name img)
    (Z.of_nat index).

Definition captureState (s : State) : Snapshot :=
  let images := mapi (fun img i => (i, img)) (layer s) in
  let sortedImages :=
    map snd (sortBy (fun p => Z.of_nat (fst p)) images) in
  {| version := 2; images := mapi captureImage sortedImages |}.

(** [createKonvaImageFromState(imgState)]; [nodeId] is the [_id] Konva
    gives to the new node. *)
Definition createKonvaImageFromState (imgState : ImgState.t) (nodeId : nat)
  : Node.t :=
  let originalWidth := ImgState.originalWidth imgState in
  let originalHeight := ImgState.originalHeight imgState in
  let cropBounds := ImgState.cropBounds imgState in
  let cropX := Crop.left cropBounds in
  let cropY := Crop.top cropBounds in
  let cropWidth :=
    originalWidth - Crop.left cropBounds - Crop.right cropBounds in
  let cropHeight :=
    originalHeight - Crop.top cropBounds - Crop.bottom cropBounds in
  let konvaImage (crop : option Rect.t) (w h ox oy : Q) :=
    Node.mk nodeId
      (ImgState.id imgState)
      (ImgState.imageRef imgState)
      originalWidth originalHeight
      (ImgState.x imgState) (ImgState.y imgState)
      (ImgState.scaleX imgState) (ImgState.scaleY imgState)
      (ImgState.rotation imgState)
      cropBounds
      (ImgState.blendMode imgState)
      (ImgState.opacity imgState)
      (ImgState.name imgState)
      crop w h ox oy in
  if JS.ltb 0 cropWidth && JS.ltb 0 cropHeight then
    konvaImage (Some (Rect.mk cropX cropY cropWidth cropHeight))
      cropWidth cropHeight (cropWidth / 2) (cropHeight / 2)
  else
    konvaImage None
      (imgWidth (ImgState.imageRef imgState))
      (imgHeight (ImgState.imageRef imgState))
      (originalWidth / 2) (originalHeight / 2).

(** [restoreState(state)]: every image is destroyed and the images of the
    snapshot are created anew, in ascending [zIndex]; the selection is kept
    when an image with the selected id exists afterwards.  [selectedId] is
    [null] without a selection; [null] and the empty string are both falsy
    in [if (selectedId)] and are one value here. *)
Definition restoreState (state : Snapshot) (s : State) : State :=
  let selectedId :=
    match getSelectedImage s with
    | Some selectedNode => Node.imageId selectedNode
    | None => ""
    end in
  let sortedImages := sortBy ImgState.zIndex (images state) in
  let created :=
    mapi (fun imgState i =>
            createKonvaImageFromState imgState (nextNodeId s + i))
         sortedImages in
  let s1 :=
    set_nextNodeId (nextNodeId s + List.length sortedImages)
      (set_layer created s) in
  if String.eqb selectedId "" then set_selection None s1
  else
    match findImageById selectedId s1 with
    | Some restoredNode => set_selection (Some (Node._id restoredNode)) s1
    | None => set_selection None s1
    end.

(* ================================================================= *)
(** ** Undo / redo operations *)

(** [while (undoStack.length > MAX_UNDO_LEVELS) undoStack.shift()]. *)
Fixpoint limitStack (l : list Snapshot) : list Snapshot :=
  match l with
  | [] => []
  | _ :: rest =>
      if Nat.ltb MAX_UNDO_LEVELS (List.length l) then limitStack rest else l
  end.

Definition pushUndo (s : State) : State :=
  let state := captureState s in
  set_stacks (limitStack (undoStack s ++ [state])) [] s.

Definition undo (s : State) : State :=
  match pop (undoStack s) with
  | None => s
  | Some (previousState, rest) =>
      let currentState := captureState s in
      restoreState previousState
        (set_stacks rest (redoStack s ++ [currentState]) s)
  end.

Definition redo (s : State) : State :=
  match pop (redoStack s) with
  | None => s
  | Some (nextState, rest) =>
      let currentState := captureState s in
      restoreState nextState
        (set_stacks (undoStack s ++ [currentState]) rest s)
  end.

(* ================================================================= *)
(** ** Geometry of a node and the crop handles *)

(** The handle rectangle as [updateCropFromHandle] reads it:
    [handle.position()], [handle.width()], [handle.height()]. *)
Module Handle.
Record t : Type := mk { x : Q; y : Q; width : Q; height : Q }.
End Handle.

Section Geometry.

(** Cosine and sine of an angle given in degrees, as Konva's transform
    uses them ([Math.cos(rotation * Math.PI / 180)]).  They are not
    rational functions and stay parameters of the model. *)
Variables cosDeg sinDeg : Q -> Q.

(** Konva's node transform applied to a point of the node's own
    rectangle: translate by [-offset], scale, rotate, translate by
    [(x, y)]. *)
Definition transformPoint (n : Node.t) (px py : Q) : Q * Q :=
  let u := Node.scaleX n * (px - Node.offsetX n) in
  let v := Node.scaleY n * (py - Node.offsetY n) in
  let c := cosDeg (Node.rotation n) in
  let s := sinDeg (Node.rotation n) in
  (Node.x n + (u * c - v * s), Node.y n + (u * s + v * c)).

Definition min4 (a b c d : Q) : Q := JS.min (JS.min (JS.min a b) c) d.
Definition max4 (a b c d : Q) : Q := JS.max (JS.max (JS.max a b) c) d.

(** [node.getClientRect({ relativeTo: stage })]: the bounding box of the
    four transformed corners of [{0, 0, width, height}]. *)
Definition getClientRect (n : Node.t) : Rect.t :=
  let p1 := transformPoint n 0 0 in
  let p2 := transformPoint n (Node.width n) 0 in
  let p3 := transformPoint n (Node.width n) (Node.height n) in
  let p4 := transformPoint n 0 (Node.height n) in
  let minX := min4 (fst p1) (fst p2) (fst p3) (fst p4) in
  let minY := min4 (snd p1) (snd p2) (snd p3) (snd p4) in
  let maxX := max4 (fst p1) (fst p2) (fst p3) (fst p4) in
  let maxY := max4 (snd p1) (snd p2) (snd p3) (snd p4) in
  Rect.mk minX minY (maxX - minX) (maxY - minY).

(** The end of [applyCropBounds] (lines 875-892): the node is moved by
    the [(dx, dy)] that puts its [visualAnchor] edge back where it was
    before the crop changed. *)
Definition keepAnchor (visualAnchor : Edge) (rectBefore rectAfter : Rect.t)
           (node : Node.t) : Node.t :=
  let dx :=
    match visualAnchor with
    | Edge.left => Rect.x rectBefore - Rect.x rectAfter
    | Edge.right =>
        (Rect.x rectBefore + Rect.width rectBefore)
        - (Rect.x rectAfter + Rect.width rectAfter)
    | _ => 0
    end in
  let dy :=
    match visualAnchor with
    | Edge.top => Rect.y rectBefore - Rect.y rectAfter
    | Edge.bottom =>
        (Rect.y rectBefore + Rect.height rectBefore)
        - (Rect.y rectAfter + Rect.height rectAfter)
    | _ => 0
    end in
  Node.set_y (Node.y node + dy) (Node.set_x (Node.x node + dx) node).

(** [applyCropBounds(node, cropBounds, sourceEdgeBeingCropped)]. *)
Definition applyCropBounds (node : Node.t) (cropBounds : Crop.t)
           (sourceEdgeBeingCropped : Edge) : Node.t :=
  let originalWidth := Node.originalWidth node in
  let originalHeight := Node.originalHeight node in
  if Qeq_bool originalWidth 0 || Qeq_bool originalHeight 0 then node
  else
    let cropX := Crop.left cropBounds in
    let cropY := Crop.top cropBounds in
    let cropWidth :=
      originalWidth - Crop.left cropBounds - Crop.right cropBounds in
    let cropHeight :=
      originalHeight - Crop.top cropBounds - Crop.bottom cropBounds in
    if Qle_bool cropWidth 0 || Qle_bool cropHeight 0 then node
    else
      let anchorSourceEdge := Edge.opposite sourceEdgeBeingCropped in
      let rectBefore := getClientRect node in
      let node1 :=
        Node.set_cropGeometry cropBounds
          (Rect.mk cropX cropY cropWidth cropHeight) node in
      let rectAfter := getClientRect node1 in
      match getVisualEdge anchorSourceEdge (Node.rotation node1)
              (Node.scaleX node1) (Node.scaleY node1) with
      | None => node1
      | Some visualAnchor => keepAnchor visualAnchor rectBefore rectAfter node1
      end.

Definition minSize : Q := 20.

(** The clamp of one bound:
    [Math.max(0, Math.min(dimension - opposite - minSize,
                          current + sourceDelta))]. *)
Definition clampBound (dimension opposite current sourceDelta : Q) : Q :=
  JS.max 0 (JS.min (dimension - opposite - minSize) (current + sourceDelta)).

(** The [switch (sourceEdge)] of [updateCropFromHandle]. *)
Definition cropEdge (originalWidth originalHeight : Q) (currentCrop : Crop.t)
           (sourceEdge : Edge) (sourceDelta : Q) : Crop.t :=
  match sourceEdge with
  | Edge.top =>
      Crop.set Edge.top
        (clampBound originalHeight (Crop.bottom currentCrop)
           (Crop.top currentCrop) sourceDelta) currentCrop
  | Edge.bottom =>
      Crop.set Edge.bottom
        (clampBound originalHeight (Crop.top currentCrop)
           (Crop.bottom currentCrop) sourceDelta) currentCrop
  | Edge.left =>
      Crop.set Edge.left
        (clampBound originalWidth (Crop.right currentCrop)
           (Crop.left currentCrop) sourceDelta) currentCrop
  | Edge.right =>
      Crop.set Edge.right
        (clampBound originalWidth (Crop.left currentCrop)
           (Crop.right currentCrop) sourceDelta) currentCrop
  end.

(** [updateCropFromHandle(node, handle, visualPosition)]. *)
Definition updateCropFromHandle (node : Node.t) (handle : Handle.t)
           (visualPosition : Edge) : Node.t :=
  if Qeq_bool (Node.originalWidth node) 0 then node
  else
    let originalWidth := Node.originalWidth node in
    let originalHeight := Node.originalHeight node in
    let currentCrop := Node.cropBounds node in
    let rect := getClientRect node in
    let scaleX := Node.scaleX node in
    let scaleY := Node.scaleY node in
    let absScaleX := JS.abs scaleX in
    let absScaleY := JS.abs scaleY in
    let rotation := Node.rotation node in
    match getSourceEdge visualPosition rotation scaleX scaleY with
    | None => node
    | Some sourceEdge =>
        let hw := Handle.width handle in
        let hh := Handle.height handle in
        let visualDelta :=
          match visualPosition with
          | Edge.top => Handle.y handle + hh / 2 - Rect.y rect
          | Edge.bottom =>
              Rect.y rect + Rect.height rect - Handle.y handle - hh / 2
          | Edge.left => Handle.x handle + hw / 2 - Rect.x rect
          | Edge.right =>
              Rect.x rect + Rect.width rect - Handle.x handle - hw / 2
          end in
        let isVisualHorizontal :=
          Edge.eqb visualPosition Edge.left
          || Edge.eqb visualPosition Edge.right in
        let scale := if isVisualHorizontal then absScaleX else absScaleY in
        let sourceDelta := visualDelta / scale in
        let newCrop :=
          cropEdge originalWidth originalHeight currentCrop sourceEdge
            sourceDelta in
        applyCropBounds node newCrop sourceEdge
    end.


End Geometry.

(** [resetCrop] on a node. *)
Definition resetCropNode (node : Node.t) : Node.t :=
  Node.set_cropGeometry Crop.zero
    (Rect.mk 0 0 (Node.originalWidth node) (Node.originalHeight node)) node.

(* ================================================================= *)
(** ** Image loading and transform operations *)

(** The decimal text of a number in a template string. *)
Definition natToString (n : nat) : string :=
  NilEmpty.string_of_uint (Nat.to_uint n).

(** The [img.onload] handler of [addImage(src, fileName)]. *)
Definition addImage (img : Raster) (fileName : string) (s0 : State) : State :=
  let s := pushUndo s0 in
  let maxDim :=
    JS.min (Stage.width (stage s)) (Stage.height (stage s)) * (6 # 10) in
  let scale :=
    if JS.ltb maxDim (imgWidth img) || JS.ltb maxDim (imgHeight img)
    then maxDim / JS.max (imgWidth img) (imgHeight img)
    else 1 in
  let center := getViewportCenter s in
  let '(newId, s1) := generateImageId s in
  let konvaImage :=
    Node.mk (nextNodeId s1) newId img (imgWidth img) (imgHeight img)
      (fst center + inject_Z (Z.of_nat (imageCount s1)) * 30)
      (snd center + inject_Z (Z.of_nat (imageCount s1)) * 30)
      scale scale 0 Crop.zero "source-over" 1
      (orString fileName ("image-" ++ natToString (imageCount s1))%string)
      None (imgWidth img) (imgHeight img)
      (imgWidth img / 2) (imgHeight img / 2) in
  set_imageCount (S (imageCount s1))
    (set_selection (Some (Node._id konvaImage))
       (set_nextNodeId (S (nextNodeId s1))
          (set_layer (layer s1 ++ [konvaImage]) s1))).

(** [isRotatedSideways(node)]. *)
Definition isRotatedSideways (node : Node.t) : bool :=
  let rot := JS.abs (JS.rem (Node.rotation node) 180) in
  JS.ltb 45 rot && JS.ltb rot 135.

Definition flipHorizontal (s : State) : State :=
  match getSelectedImage s with
  | None => s
  | Some node =>
      let s1 := pushUndo s in
      if isRotatedSideways node then
        updateNode (Node._id node)
          (fun n => Node.set_scaleY (Node.scaleY n * (-1)) n) s1
      else
        updateNode (Node._id node)
          (fun n => Node.set_scaleX (Node.scaleX n * (-1)) n) s1
  end.

Definition flipVertical (s : State) : State :=
  match getSelectedImage s with
  | None => s
  | Some node =>
      let s1 := pushUndo s in
      if isRotatedSideways node then
        updateNode (Node._id node)
          (fun n => Node.set_scaleX (Node.scaleX n * (-1)) n) s1
      else
        updateNode (Node._id node)
          (fun n => Node.set_scaleY (Node.scaleY n * (-1)) n) s1
  end.

Definition rotateLeft (s : State) : State :=
  match getSelectedImage s with
  | None => s
  | Some node =>
      updateNode (Node._id node)
        (fun n => Node.set_rotation (Node.rotation n - 90) n) (pushUndo s)
  end.

Definition rotateRight (s : State) : State :=
  match getSelectedImage s with
  | None => s
  | Some node =>
      updateNode (Node._id node)
        (fun n => Node.set_rotation (Node.rotation n + 90) n) (pushUndo s)
  end.

Definition duplicateImage (s : State) : State :=
  match getSelectedImage s with
  | None => s
  | Some node =>
      let s1 := pushUndo s in
      let '(newId, s2) := generateImageId s1 in
      let clone :=
        Node.set_imageId newId
          (Node.set_id (nextNodeId s2)
             (Node.set_y (Node.y node + 30)
                (Node.set_x (Node.x node + 30) node))) in
      set_imageCount (S (imageCount s2))
        (set_selection (Some (Node._id clone))
           (set_nextNodeId (S (nextNodeId s2))
              (set_layer (layer s2 ++ [clone]) s2)))
  end.

(** [node.moveToTop()] / [node.moveToBottom()] among the images. *)
Definition isNode (i : nat) (n : Node.t) : bool := Nat.eqb (Node._id n) i.

Definition moveToTop (i : nat) (s : State) : State :=
  set_layer (filter (fun n => negb (isNode i n)) (layer s)
             ++ filter (isNode i) (layer s)) s.

Definition moveToBottom (i : nat) (s : State) : State :=
  set_layer (filter (isNode i) (layer s)
             ++ filter (fun n => negb (isNode i n)) (layer s)) s.

Definition bringToTop (s : State) : State :=
  match getSelectedImage s with
  | None => s
  | Some node => moveToTop (Node._id node) (pushUndo s)
  end.

Definition sendToBottom (s : State) : State :=
  match getSelectedImage s with
  | None => s
  | Some node => moveToBottom (Node._id node) (pushUndo s)
  end.

(** [node.destroy()]. *)
Definition destroyNode (i : nat) (s : State) : State :=
  set_layer (filter (fun n => negb (isNode i n)) (layer s)) s.

Definition deleteSelected (s : State) : State :=
  match getSelectedImage s with
  | None => s
  | Some node =>
      set_selection None (destroyNode (Node._id node) (pushUndo s))
  end.

Definition setBlendMode (mode : string) (s : State) : State :=
  match getSelectedImage s with
  | None => s
  | Some node =>
      updateNode (Node._id node) (Node.set_blendMode mode) (pushUndo s)
  end.

Definition setOpacity (percent : Q) (s : State) : State :=
  match getSelectedImage s with
  | None => s
  | Some node =>
      let opacity := JS.max 0 (JS.min 100 percent) / 100 in
      updateNode (Node._id node) (Node.set_opacity opacity) (pushUndo s)
  end.

Definition resetCrop (s : State) : State :=
  match getSelectedImage s with
  | None => s
  | Some node => updateNode (Node._id node) resetCropNode (pushUndo s)
  end.

(* ================================================================= *)
(** ** Gestures *)

(** [click] on an image attaches the transformer to it. *)
Definition selectImage (i : nat) (s : State) : State :=
  match find (isNode i) (layer s) with
  | None => s
  | Some node => set_selection (Some (Node._id node)) s
  end.

(** [dblclick] on an image: [pushUndo(); konvaImage.moveToTop()]. *)
Definition dblclickImage (i : nat) (s : State) : State :=
  match find (isNode i) (layer s) with
  | None => s
  | Some node => moveToTop (Node._id node) (pushUndo s)
  end.

(** Dragging an image: [dragstart] pushes the snapshot, Konva then moves
    the node to where it is dropped. *)
Definition dragImage (i : nat) (newX newY : Q) (s : State) : State :=
  match find (isNode i) (layer s) with
  | None => s
  | Some node =>
      updateNode (Node._id node)
        (fun n => Node.set_y newY (Node.set_x newX n)) (pushUndo s)
  end.

(** Resizing with the transformer: [transformstart] pushes the snapshot,
    Konva then writes the new position and scale of the attached node. *)
Definition transformSelected (newX newY newScaleX newScaleY : Q) (s : State)
  : State :=
  match getSelectedImage s with
  | None => s
  | Some node =>
      updateNode (Node._id node)
        (fun n =>
           Node.set_scaleY newScaleY
             (Node.set_scaleX newScaleX
                (Node.set_y newY (Node.set_x newX n))))
        (pushUndo s)
  end.

Inductive Axis : Type := AxisX | AxisY.

(** [handleNudge(axis, amount)] of the arrow keys; [shouldSnap] is
    [!e.shiftKey]. *)
Definition handleNudge (axis : Axis) (amount : Q) (shouldSnap : bool)
           (s : State) : State :=
  match getSelectedImage s with
  | None => s
  | Some node =>
      let s1 :=
        if nudgeUndoPushed s then s
        else set_nudgeUndoPushed true (pushUndo s) in
      let current :=
        match axis with AxisX => Node.x node | AxisY => Node.y node end in
      let newVal :=
        if shouldSnap then inject_Z (JS.round (current + amount))
        else current + amount in
      match axis with
      | AxisX => updateNode (Node._id node) (Node.set_x newVal) s1
      | AxisY => updateNode (Node._id node) (Node.set_y newVal) s1
      end
  end.

(** The idle timer of the nudge sequence fires (500 ms without a nudge). *)
Definition nudgeIdle (s : State) : State := set_nudgeUndoPushed false s.

Section Operations.

Variables cosDeg sinDeg : Q -> Q.

(** Dragging a crop handle of the selected image: [dragstart] pushes the
    snapshot, [dragmove] calls [updateCropFromHandle]. *)
Definition dragCropHandle (visualPosition : Edge) (handle : Handle.t)
           (s : State) : State :=
  match getSelectedImage s with
  | None => s
  | Some node =>
      updateNode (Node._id node)
        (fun n => updateCropFromHandle cosDeg sinDeg n handle visualPosition)
        (pushUndo s)
  end.

(** The editing operations that push an undo snapshot. *)
Inductive Op : Type :=
| OpAdd (img : Raster) (fileName : string)
| OpDrag (nodeId : nat) (newX newY : Q)
| OpNudge (axis : Axis) (amount : Q) (shouldSnap : bool)
| OpTransform (newX newY newScaleX newScaleY : Q)
| OpCrop (visualPosition : Edge) (handle : Handle.t)
| OpResetCrop
| OpFlipHorizontal
| OpFlipVertical
| OpRotateLeft
| OpRotateRight
| OpDuplicate
| OpBringToTop
| OpSendToBottom
| OpDblclick (nodeId : nat)
| OpDelete
| OpSetBlendMode (mode : string)
| OpSetOpacity (percent : Q).

Definition applyOp (op : Op) (s : State) : State :=
  match op with
  | OpAdd img fileName => addImage img fileName s
  | OpDrag i newX newY => dragImage i newX newY s
  | OpNudge axis amount shouldSnap => handleNudge axis amount shouldSnap s
  | OpTransform newX newY newScaleX newScaleY =>
      transformSelected newX newY newScaleX newScaleY s
  | OpCrop visualPosition handle => dragCropHandle visualPosition handle s
  | OpResetCrop => resetCrop s
  | OpFlipHorizontal => flipHorizontal s
  | OpFlipVertical => flipVertical s
  | OpRotateLeft => rotateLeft s
  | OpRotateRight => rotateRight s
  | OpDuplicate => duplicateImage s
  | OpBringToTop => bringToTop s
  | OpSendToBottom => sendToBottom s
  | OpDblclick i => dblclickImage i s
  | OpDelete => deleteSelected s
  | OpSetBlendMode mode => setBlendMode mode s
  | OpSetOpacity percent => setOpacity percent s
  end.

(** Whether the operation reaches its [pushUndo()] call in state [s]:
    the guards in front of the call, read off each handler. *)
Definition pushesUndo (op : Op) (s : State) : bool :=
  match op with
  | OpAdd _ _ => true
  | OpDrag i _ _ | OpDblclick i =>
      match find (isNode i) (layer s) with Some _ => true | None => false end
  | OpNudge _ _ _ =>
      match getSelectedImage s with
      | Some _ => negb (nudgeUndoPushed s)
      | None => false
      end
  | _ =>
      match getSelectedImage s with Some _ => true | None => false end
  end.

(** Everything a user can do to the undo history. *)
Inductive Action : Type :=
| Edit (op : Op)
| Select (nodeId : nat)
| NudgeIdle
| PushUndo
| Undo
| Redo.

Definition step (s : State) (a : Action) : State :=
  match a with
  | Edit op => applyOp op s
  | Select i => selectImage i s
  | NudgeIdle => nudgeIdle s
  | PushUndo => pushUndo s
  | Undo => undo s
  | Redo => redo s
  end.

Definition run (actions : list Action) (s : State) : State :=
  fold_left step actions s.

End Operations.

(* ================================================================= *)
(** ** Project load *)

(** One entry of [projectData.images] in [project.json]; the fields a
    version-1 file may lack are optional. *)
Module ImgData.
Record t : Type := mk {
  filename : string;
  id : option string;
  x : Q;
  y : Q;
  scaleX : Q;
  scaleY : Q;
  rotation : Q;
  cropBounds : option Crop.t;
  blendMode : option string;
  opacity : option Q;
  originalWidth : option Q;
  originalHeight : option Q;
  name : option string;
  zIndex : option Z
}.
End ImgData.

(** A file of the [images/] folder: it decodes to an image ([img.onload])
    or fails to ([img.onerror]). *)
Inductive ImageFile : Type :=
| Decodes (img : Raster)
| Corrupt.

(** An unpacked [.montage] archive: the parsed [project.json], when the
    archive has one, and the files of its [images/] folder by name. *)
Record Archive : Type := {
  projectJson : option (list ImgData.t);
  imagesFolder : string -> option ImageFile
}.

(** [v || d] for an optional string and for an optional number. *)
Definition orStringOpt (v : option string) (d : string) : string :=
  match v with Some w => orString w d | None => d end.

Definition orNumber (v : option Q) (d : Q) : Q :=
  match v with
  | Some w => if Qeq_bool w 0 then d else w
  | None => d
  end.

(** The [for] loop of [deserializeStateFromZip], from entry [i] on;
    [inl message] is a thrown [Error(message)]. *)
Fixpoint deserializeImages (archive : Archive) (i : nat)
         (entries : list ImgData.t) (loaded : list ImgState.t) (s : State)
  : State * (string + list ImgState.t) :=
  match entries with
  | [] => (s, inr loaded)
  | imgData :: rest =>
      match imagesFolder archive (ImgData.filename imgData) with
      | None =>
          deserializeImages archive (S i) rest loaded
            (consoleWarn ("Missing image: " ++ ImgData.filename imgData)%string
                         s)
      | Some Corrupt =>
          (s, inl ("Failed to load image: "
                     ++ ImgData.filename imgData)%string)
      | Some (Decodes imageRef) =>
          let '(id, s1) :=
            match ImgData.id imgData with
            | Some v => if String.eqb v "" then generateImageId s else (v, s)
            | None => generateImageId s
            end in
          let imgState :=
            ImgState.mk
              id
              imageRef
              (orNumber (ImgData.originalWidth imgData) (imgWidth imageRef))
              (orNumber (ImgData.originalHeight imgData) (imgHeight imageRef))
              (ImgData.x imgData)
              (ImgData.y imgData)
              (ImgData.scaleX imgData)
              (ImgData.scaleY imgData)
              (ImgData.rotation imgData)
              (match ImgData.cropBounds imgData with
               | Some c => c
               | None => Crop.zero
               end)
              (orStringOpt (ImgData.blendMode imgData) "source-over")
              (match ImgData.opacity imgData with
               | Some o => o
               | None => 1
               end)
              (orStringOpt (ImgData.name imgData)
                 ("image-" ++ natToString i)%string)
              (match ImgData.zIndex imgData with
               | Some z => z
               | None => Z.of_nat i
               end) in
          deserializeImages archive (S i) rest (loaded ++ [imgState]) s1
      end
  end.

Definition deserializeStateFromZip (archive : Archive) (s : State)
  : State * (string + list ImgState.t) :=
  match projectJson archive with
  | None => (s, inl "Invalid .montage file: missing project.json")
  | Some entries => deserializeImages archive 0 entries [] s
  end.

(** A number that may be [Infinity] or [-Infinity]: the accumulators
    [minX], [maxX], ... of [loadProject]. *)
Inductive Ext : Type :=
| NegInfinity
| Finite (q : Q)
| Infinity.

(** [Math.min(acc, v)] and [Math.max(acc, v)] for a finite [v]. *)
Definition extMin (acc : Ext) (v : Q) : Ext :=
  match acc with
  | Infinity => Finite v
  | Finite a => Finite (JS.min a v)
  | NegInfinity => NegInfinity
  end.

Definition extMax (acc : Ext) (v : Q) : Ext :=
  match acc with
  | NegInfinity => Finite v
  | Finite a => Finite (JS.max a v)
  | Infinity => Infinity
  end.

(** [(lo + hi) / 2]; [None] when the result is not a finite number
    ([Infinity + -Infinity] is [NaN]). *)
Definition midpoint (lo hi : Ext) : option Q :=
  match lo, hi with
  | Finite a, Finite b => Some ((a + b) / 2)
  | _, _ => None
  end.

(** The centre of the box spanned by the positions of the images. *)
Definition savedCenter (imgs : list ImgState.t) : option (Q * Q) :=
  let minX := fold_left extMin (map ImgState.x imgs) Infinity in
  let minY := fold_left extMin (map ImgState.y imgs) Infinity in
  let maxX := fold_left extMax (map ImgState.x imgs) NegInfinity in
  let maxY := fold_left extMax (map ImgState.y imgs) NegInfinity in
  match midpoint minX maxX, midpoint minY maxY with
  | Some cx, Some cy => Some (cx, cy)
  | _, _ => None
  end.

(** The first [forEach] of [loadProject]: every image is moved by the
    offset and gets a new id. *)
Fixpoint offsetAndRename (offsetX offsetY : Q) (imgs : list ImgState.t)
         (s : State) : list ImgState.t * State :=
  match imgs with
  | [] => ([], s)
  | imgState :: rest =>
      let '(newId, s1) := generateImageId s in
      let '(rest', s2) := offsetAndRename offsetX offsetY rest s1 in
      (ImgState.moveAndRename offsetX offsetY newId imgState :: rest', s2)
  end.

(** [Math.max(...zs)] when there is a current image, [-1] otherwise. *)
Definition maxZIndex (imgs : list ImgState.t) : Z :=
  match map ImgState.zIndex imgs with
  | [] => (-1)%Z
  | z :: zs => fold_left Z.max zs z
  end.

(** [offsetX = center.x - savedCenterX], [offsetY = center.y - savedCenterY].
    For an empty list the saved centre, hence the offset, is [NaN]; the
    loop that adds it then has no image to move, and the model takes 0. *)
Definition loadOffset (center : Q * Q) (imgs : list ImgState.t) : Q * Q :=
  match savedCenter imgs with
  | Some (savedCenterX, savedCenterY) =>
      (fst center - savedCenterX, snd center - savedCenterY)
  | None => (0, 0)
  end.

(** [loadProject(file)], [file] being unpacked to [archive]. *)
Definition loadProject (archive : Archive) (s : State) : State :=
  match deserializeStateFromZip archive s with
  | (s1, inl message) =>
      alert ("Failed to load project: " ++ message)%string s1
  | (s1, inr loadedImages) =>
      let center := getViewportCenter s1 in
      let '(offsetX, offsetY) := loadOffset center loadedImages in
      let '(moved, s2) := offsetAndRename offsetX offsetY loadedImages s1 in
      let s3 := pushUndo s2 in
      let currentState := captureState s3 in
      let maxCurrentZIndex := maxZIndex (images currentState) in
      let loaded :=
        mapi (fun imgState i =>
                ImgState.set_zIndex (maxCurrentZIndex + 1 + Z.of_nat i)
                  imgState) moved in
      let mergedState :=
        {| version := 2; images := images currentState ++ loaded |} in
      let s4 := restoreState mergedState s3 in
      set_imageCount (imageCount s4 + List.length loaded) s4
  end.

(* ================================================================= *)
(** ** The words of the specification *)

(** "r mod m" in the mathematical sense: the remainder in [[0, m)]. *)
Definition modulo (r m : Q) : Q := r - m * inject_Z (Qfloor (r / m)).

(** "the entity's rotation is within (45, 135) mod 180" ("sideways"). *)
Definition inSidewaysBand (rotation : Q) : Prop :=
  45 < modulo rotation 180 /\ modulo rotation 180 < 135.

(** The minimum-size invariant of crop bounds against source dimensions
    [w] x [h], as the testable properties state it (with [<=]). *)
Definition cropBoundsOk (w h : Q) (c : Crop.t) : Prop :=
  0 <= Crop.top c /\ 0 <= Crop.right c /\
  0 <= Crop.bottom c /\ 0 <= Crop.left c /\
  Crop.top c + Crop.bottom c <= h - 20 /\
  Crop.left c + Crop.right c <= w - 20.

Definition cropInvariant (n : Node.t) : Prop :=
  cropBoundsOk (Node.originalWidth n) (Node.originalHeight n)
    (Node.cropBounds n).


(** The invariant on a whole session: the images of the layer and the
    entries of every snapshot on the two stacks. *)
Definition snapshotCropInvariant (snap : Snapshot) : Prop :=
  Forall (fun i => cropBoundsOk (ImgState.originalWidth i)
                     (ImgState.originalHeight i) (ImgState.cropBounds i))
         (images snap).

Definition sessionCropInvariant (s : State) : Prop :=
  Forall cropInvariant (layer s) /\
  Forall snapshotCropInvariant (undoStack s) /\
  Forall snapshotCropInvariant (redoStack s).

(** An added image is at least [minSize] pixels wide and high. *)
Definition addsUsableImage (a : Action) : Prop :=
  match a with
  | Edit (OpAdd img _) => 20 <= imgWidth img /\ 20 <= imgHeight img
  | _ => True
  end.

(** Cosine and sine at the quarter turns, where they are rational: the
    instance of the geometry parameters used to run the model on nodes
    rotated by a multiple of 90 degrees. *)
Definition quarterCos (r : Q) : Q :=
  let rot := normalizeRotation r in
  if Qeq_bool rot 0 then 1 else if Qeq_bool rot 180 then -1 else 0.

Definition quarterSin (r : Q) : Q :=
  let rot := normalizeRotation r in
  if Qeq_bool rot 90 then 1 else if Qeq_bool rot 270 then -1 else 0.

(* ================================================================= *)
(** ** Sample data *)

Module Sample.

(** A 100 x 80 source image. *)
Definition raster : Raster :=
  {| rasterRef := 0; imgWidth := 100; imgHeight := 80 |}.

(** The image placed upright at (200, 150), unscaled and uncropped. *)
Definition node : Node.t :=
  Node.mk 0 "img_a" raster 100 80 200 150 1 1 0 Crop.zero "source-over" 1
    "a.png" None 100 80 50 40.

Definition stage : Stage.t := Stage.mk 800 600 0 0 1 1.

Definition ids (k : nat) : string := ("img_gen" ++ natToString k)%string.

(** A session with that one image, selected, and empty stacks. *)
Definition state : State :=
  mkState [node] (Some 0%nat) [] [] 1 false stage 1 ids 0 [] [].

(** The top crop handle dragged far below the image. *)
Definition topHandleFarDown : Handle.t := Handle.mk 188 1000 24 12.

(** The left crop handle dragged 30 pixels into the image. *)
Definition leftHandleIn30 : Handle.t := Handle.mk 174 138 12 24.

End Sample.

(** The geometry every node is created with and every crop change keeps:
    the node is as large as the cropped region and its origin is the
    centre of that region. *)
Definition geometryOk (n : Node.t) : Prop :=
  Node.width n
  == Node.originalWidth n - Crop.left (Node.cropBounds n)
     - Crop.right (Node.cropBounds n) /\
  Node.height n
  == Node.originalHeight n - Crop.top (Node.cropBounds n)
     - Crop.bottom (Node.cropBounds n) /\
  Node.offsetX n == Node.width n / 2 /\
  Node.offsetY n == Node.height n / 2.

(** [m] is the smaller / the larger of [a] and [b], up to [==]. *)
Definition isMinOf (m a b : Q) : Prop := m <= a /\ m <= b /\ (m == a \/ m == b).
Definition isMaxOf (m a b : Q) : Prop := a <= m /\ b <= m /\ (m == a \/ m == b).

(** What an exact cosine and sine do at 0 degrees. *)
Definition exactAtZero (cosDeg sinDeg : Q -> Q) : Prop :=
  (forall r, r == 0 -> cosDeg r == 1) /\ (forall r, r == 0 -> sinDeg r == 0).

(* ================================================================= *)
(** ** Predicates about project load *)




(** What [deserializeStateFromZip] leaves alone: everything but the count
    of generated ids and the console. *)
Definition sameSession (s s' : State) : Prop :=
  layer s' = layer s /\ selection s' = selection s /\
  undoStack s' = undoStack s /\ redoStack s' = redoStack s /\
  imageCount s' = imageCount s /\ nudgeUndoPushed s' = nudgeUndoPushed s /\
  stage s' = stage s /\ nextNodeId s' = nextNodeId s /\
  idSource s' = idSource s /\ alerts s' = alerts s.



Module SampleArchive.

Definition entry (file : string) (x y : Q) : ImgData.t :=
  ImgData.mk file (Some "img_saved") x y 1 1 0 (Some Crop.zero)
    (Some "source-over") (Some 1) (Some 100) (Some 80) (Some file)
    (Some 0%Z).



End SampleArchive.

(* ================================================================= *)
(** ** Predicates used by the proofs *)

(** What an operation does to the stacks: nothing, or what [pushUndo] does. *)
Definition stacksKept (s s' : State) : Prop :=
  undoStack s' = undoStack s /\ redoStack s' = redoStack s.

Definition stacksPushed (s s' : State) : Prop :=
  undoStack s' = undoStack (pushUndo s) /\ redoStack s' = [].

(** The two stacks together never hold more than [MAX_UNDO_LEVELS]
    snapshots: [undo] and [redo] move one snapshot from one to the other. *)
Definition stacksBounded (s : State) : Prop :=
  (List.length (undoStack s) + List.length (redoStack s)
   <= MAX_UNDO_LEVELS)%nat.

(** The keys of consecutive elements ascend. *)
Fixpoint ascendingBy {A : Type} (key : A -> Z) (l : list A) : Prop :=
  match l with
  | [] => True
  | a :: l' =>
      match l' with
      | [] => True
      | b :: _ => (key a <= key b)%Z
      end /\ ascendingBy key l'
  end.

(** The snapshots that restore to a scene capturing back to them. *)
Definition canonical (snap : Snapshot) : Prop :=
  version snap = 2%nat /\
  Forall (fun i => orString (ImgState.blendMode i) "source-over"
                   = ImgState.blendMode i) (images snap) /\
  map ImgState.zIndex (images snap)
  = map Z.of_nat (seq 0 (List.length (images snap))).


(* ================================================================= *)
(** ** Sequences of editing operations *)

Section EditSequences.

Variables cosDeg sinDeg : Q -> Q.

(** The operations of a list applied one after the other. *)
Definition applyOps (ops : list Op) (s : State) : State :=
  fold_left (fun st op => applyOp cosDeg sinDeg op st) ops s.


End EditSequences.


Section EditSnapshots.

Variables cosDeg sinDeg : Q -> Q.


End EditSnapshots.

(* ================================================================= *)
(** ** Quarter turns *)

(** The four rotations at which cosine and sine are rational. *)
Inductive Turn : Type := Turn0 | Turn90 | Turn180 | Turn270.

Definition turnAngle (q : Turn) : Q :=
  match q with Turn0 => 0 | Turn90 => 90 | Turn180 => 180 | Turn270 => 270 end.

Definition turnCos (q : Turn) : Q :=
  match q with Turn0 => 1 | Turn90 => 0 | Turn180 => -1 | Turn270 => 0 end.

Definition turnSin (q : Turn) : Q :=
  match q with Turn0 => 0 | Turn90 => 1 | Turn180 => 0 | Turn270 => -1 end.

(** The rotation, normalised as the program normalises it, is that quarter
    turn: 90, 450 and -270 are all at [Turn90]. *)
Definition atTurn (q : Turn) (rotation : Q) : Prop :=
  normalizeRotation rotation == turnAngle q.

(** What an exact cosine and sine do at the quarter turns. *)
Definition exactAtQuarterTurns (cosDeg sinDeg : Q -> Q) : Prop :=
  forall q r, atTurn q r -> cosDeg r == turnCos q /\ sinDeg r == turnSin q.

(** Whether an edge is a left or a right edge. *)
Definition isHorizontalEdge (e : Edge) : bool :=
  match e with
  | Edge.left | Edge.right => true
  | Edge.top | Edge.bottom => false
  end.

(** At 0 and 180 degrees the source x axis is drawn along the visual x
    axis; at 90 and 270 degrees along the visual y axis. *)
Definition swapsAxes (q : Turn) : bool :=
  match q with Turn0 | Turn180 => false | Turn90 | Turn270 => true end.

(** The two visual x coordinates (resp. y coordinates) that the corners of
    a node at a quarter turn take. *)
Definition spanX (q : Turn) (n : Node.t) : Q * Q :=
  let u0 := Node.scaleX n * (0 - Node.offsetX n) in
  let u1 := Node.scaleX n * (Node.width n - Node.offsetX n) in
  let v0 := Node.scaleY n * (0 - Node.offsetY n) in
  let v1 := Node.scaleY n * (Node.height n - Node.offsetY n) in
  match q with
  | Turn0 => (Node.x n + u0, Node.x n + u1)
  | Turn90 => (Node.x n - v0, Node.x n - v1)
  | Turn180 => (Node.x n - u0, Node.x n - u1)
  | Turn270 => (Node.x n + v0, Node.x n + v1)
  end.

Definition spanY (q : Turn) (n : Node.t) : Q * Q :=
  let u0 := Node.scaleX n * (0 - Node.offsetX n) in
  let u1 := Node.scaleX n * (Node.width n - Node.offsetX n) in
  let v0 := Node.scaleY n * (0 - Node.offsetY n) in
  let v1 := Node.scaleY n * (Node.height n - Node.offsetY n) in
  match q with
  | Turn0 => (Node.y n + v0, Node.y n + v1)
  | Turn90 => (Node.y n + u0, Node.y n + u1)
  | Turn180 => (Node.y n - v0, Node.y n - v1)
  | Turn270 => (Node.y n - u0, Node.y n - u1)
  end.

(** A point of the node's own rectangle on one of its edges: the left edge
    is [x = 0], the right edge [x = width], the top edge [y = 0], the
    bottom edge [y = height]; [t] runs along the edge. *)
Definition pointOnEdge (e : Edge) (n : Node.t) (t : Q) : Q * Q :=
  match e with
  | Edge.left => (0, t)
  | Edge.right => (Node.width n, t)
  | Edge.top => (t, 0)
  | Edge.bottom => (t, Node.height n)
  end.

(** The coordinate of a point that an edge of the client rectangle is
    compared with: x for the left and right edges, y for top and bottom. *)
Definition coordinateFor (e : Edge) (p : Q * Q) : Q :=
  if isHorizontalEdge e then fst p else snd p.


(** The sample image turned by 90 degrees and mirrored. *)
Module SampleTurned.

Definition node : Node.t :=
  Node.set_scaleX (-1) (Node.set_rotation 90 Sample.node).

(** Its top crop handle dragged 30 pixels into the image. *)
Definition topHandleIn30 : Handle.t := Handle.mk 188 124 24 12.

End SampleTurned.


(* ================================================================= *)
(** ** The parts of a crop drag *)

(** The [scale] of [updateCropFromHandle]: picked by the handle's visual
    axis. *)
Definition dragScale (visualPosition : Edge) (n : Node.t) : Q :=
  if Edge.eqb visualPosition Edge.left || Edge.eqb visualPosition Edge.right
  then JS.abs (Node.scaleX n)
  else JS.abs (Node.scaleY n).

(** The scale by which the node's transform stretches the source axis on
    which a source edge moves. *)
Definition sourceScale (sourceEdge : Edge) (n : Node.t) : Q :=
  if isHorizontalEdge sourceEdge then JS.abs (Node.scaleX n)
  else JS.abs (Node.scaleY n).

(** The centre of a crop handle on its own axis ([handle.x() + hw / 2] or
    [handle.y() + hh / 2]). *)
Definition handleCentre (visualPosition : Edge) (handle : Handle.t) : Q :=
  if isHorizontalEdge visualPosition
  then Handle.x handle + Handle.width handle / 2
  else Handle.y handle + Handle.height handle / 2.

(** The largest value the clamp allows for the bound of a source edge. *)
Definition cropLimit (sourceEdge : Edge) (n : Node.t) : Q :=
  (if isHorizontalEdge sourceEdge then Node.originalWidth n
   else Node.originalHeight n)
  - Crop.get (Edge.opposite sourceEdge) (Node.cropBounds n) - minSize.

Section DragGeometry.

Variables cosDeg sinDeg : Q -> Q.

(** The [visualDelta] of [updateCropFromHandle]: how far the handle's
    centre is inside the client rectangle, measured from the handle's
    edge. *)
Definition visualDelta (n : Node.t) (handle : Handle.t)
           (visualPosition : Edge) : Q :=
  let rect := getClientRect cosDeg sinDeg n in
  let hw := Handle.width handle in
  let hh := Handle.height handle in
  match visualPosition with
  | Edge.top => Handle.y handle + hh / 2 - Rect.y rect
  | Edge.bottom => Rect.y rect + Rect.height rect - Handle.y handle - hh / 2
  | Edge.left => Handle.x handle + hw / 2 - Rect.x rect
  | Edge.right => Rect.x rect + Rect.width rect - Handle.x handle - hw / 2
  end.

(** The [sourceDelta] of [updateCropFromHandle]. *)
Definition sourceDelta (n : Node.t) (handle : Handle.t)
           (visualPosition : Edge) : Q :=
  visualDelta n handle visualPosition / dragScale visualPosition n.

End DragGeometry.


(** The sample image turned by 90 degrees, mirrored, and stretched to
    twice its height. *)
Module SampleStretched.

Definition node : Node.t := Node.set_scaleY 2 SampleTurned.node.

End SampleStretched.


(* ================================================================= *)
(** ** Crop handles at rest *)

(** The body of the [forEach] of [positionCropHandles(node)] for one
    handle: the handle is centred on its edge of the client rectangle. *)
Definition positionCropHandle (rect : Rect.t) (pos : Edge)
           (handle : Handle.t) : Handle.t :=
  let hw := Handle.width handle in
  let hh := Handle.height handle in
  match pos with
  | Edge.top =>
      Handle.mk (Rect.x rect + Rect.width rect / 2 - hw / 2)
        (Rect.y rect - hh / 2) hw hh
  | Edge.bottom =>
      Handle.mk (Rect.x rect + Rect.width rect / 2 - hw / 2)
        (Rect.y rect + Rect.height rect - hh / 2) hw hh
  | Edge.left =>
      Handle.mk (Rect.x rect - hw / 2)
        (Rect.y rect + Rect.height rect / 2 - hh / 2) hw hh
  | Edge.right =>
      Handle.mk (Rect.x rect + Rect.width rect - hw / 2)
        (Rect.y rect + Rect.height rect / 2 - hh / 2) hw hh
  end.

(* ================================================================= *)
(** ** Blend mode and opacity keys *)

(** The [blendModes] table: value and label. *)
Definition blendModes : list (string * string) :=
  [ ("source-over", "Normal");
    ("screen", "Screen");
    ("multiply", "Multiply");
    ("lighten", "Lighten");
    ("darken", "Darken");
    ("overlay", "Overlay");
    ("soft-light", "Soft Light");
    ("difference", "Difference") ].

(** [Array.prototype.findIndex]: the first index at which the test holds,
    [-1] when there is none. *)
Fixpoint findIndexFrom {A : Type} (p : A -> bool) (l : list A) (i : Z) : Z :=
  match l with
  | [] => (-1)%Z
  | a :: rest => if p a then i else findIndexFrom p rest (i + 1)%Z
  end.

Definition findIndex {A : Type} (p : A -> bool) (l : list A) : Z :=
  findIndexFrom p l 0%Z.

(** [blendModes[(currentIndex + 1) % blendModes.length]] for the mode
    [currentMode]; [None] stands for an index outside of the table. *)
Definition nextBlendMode (currentMode : string) : option (string * string) :=
  let currentIndex :=
    findIndex (fun m => String.eqb (fst m) currentMode) blendModes in
  let nextIndex :=
    Z.rem (currentIndex + 1) (Z.of_nat (List.length blendModes)) in
  if (nextIndex <? 0)%Z then None
  else nth_error blendModes (Z.to_nat nextIndex).

(** [cycleBlendMode()].  An index outside of the table would make
    [nextMode.value] throw; the state is then left as it is. *)
Definition cycleBlendMode (s : State) : State :=
  match getSelectedImage s with
  | None => s
  | Some node =>
      let currentMode := orString (Node.blendMode node) "source-over" in
      match nextBlendMode currentMode with
      | Some nextMode => setBlendMode (fst nextMode) s
      | None => s
      end
  end.

(** [handleOpacityKey(digit)]; [firstDigit] is [opacityInput.firstDigit],
    and the timer of [opacityInput.timeout] is pending exactly when it is
    not [null]. *)
Definition handleOpacityKey (digit : Z) (firstDigit : option Z) (s : State)
  : option Z * State :=
  match getSelectedImage s with
  | None => (firstDigit, s)
  | Some _ =>
      match firstDigit with
      | Some first =>
          let percent := (first * 10 + digit)%Z in
          (None, setOpacity (inject_Z percent) s)
      | None => (Some digit, s)
      end
  end.

(** The callback of that timer, 300 ms after a first digit. *)
Definition opacityTimeout (firstDigit : option Z) (s : State)
  : option Z * State :=
  match firstDigit with
  | Some first =>
      let percent := if (first =? 0)%Z then 100%Z else (first * 10)%Z in
      (None, setOpacity (inject_Z percent) s)
  | None => (None, s)
  end.


(* ================================================================= *)
(** ** Zoom *)

(** The [wheel] handler of the stage, on the stage's attributes;
    [pointerX], [pointerY] is [stage.getPointerPosition()]. *)
Definition wheel (pointerX pointerY deltaY : Q) (st : Stage.t) : Stage.t :=
  let oldScale := Stage.scaleX st in
  let mousePointToX := (pointerX - Stage.x st) / oldScale in
  let mousePointToY := (pointerY - Stage.y st) / oldScale in
  let direction := if JS.ltb 0 deltaY then (-1) else 1 in
  let scaleBy := 11 # 10 in
  let newScale :=
    if JS.ltb 0 direction then oldScale * scaleBy else oldScale / scaleBy in
  let newScale := JS.max (1 # 10) (JS.min 10 newScale) in
  Stage.mk (Stage.width st) (Stage.height st)
    (pointerX - mousePointToX * newScale)
    (pointerY - mousePointToY * newScale)
    newScale newScale.

(** The point of the scene that is drawn at a point of the screen. *)
Definition sceneX (st : Stage.t) (screenX : Q) : Q :=
  (screenX - Stage.x st) / Stage.scaleX st.

Definition sceneY (st : Stage.t) (screenY : Q) : Q :=
  (screenY - Stage.y st) / Stage.scaleY st.

(* ================================================================= *)
(** ** Further words used in the statements *)


(** The crop invariant on the whole session, and on every image of the
    layer the geometry that the crop code relies on. *)
Definition sessionGeometryOk (s : State) : Prop :=
  sessionCropInvariant s /\ Forall geometryOk (layer s).


(** The mode that the [b] key selects after [currentMode]. *)
Definition cycleMode (currentMode : string) : string :=
  match nextBlendMode currentMode with
  | Some nextMode => fst nextMode
  | None => currentMode
  end.

(** [node.getAttr('blendMode') || 'source-over'] of the selected image. *)
Definition selectedBlendMode (s : State) : option string :=
  match getSelectedImage s with
  | Some node => Some (orString (Node.blendMode node) "source-over")
  | None => None
  end.

(** The opacity of the selected image. *)
Definition selectedOpacity (s : State) : option Q :=
  match getSelectedImage s with
  | Some node => Some (Node.opacity node)
  | None => None
  end.


(** The rotation is a whole number of quarter turns. *)
Definition isQuarterTurn (rotation : Q) : Prop :=
  exists k : Z, rotation == 90 * inject_Z k.

(** Whole quarter turns everywhere in a session: on the images of the
    layer and in the snapshots of the two stacks. *)
Definition snapshotQuarterTurns (snap : Snapshot) : Prop :=
  Forall (fun i => isQuarterTurn (ImgState.rotation i)) (images snap).

Definition sessionQuarterTurns (s : State) : Prop :=
  Forall (fun n => isQuarterTurn (Node.rotation n)) (layer s) /\
  Forall snapshotQuarterTurns (undoStack s) /\
  Forall snapshotQuarterTurns (redoStack s).


(* ================================================================= *)
(** ** Project save *)

(** [folder.file(name, blob)]: the file is added to the folder, in the
    place of an earlier file of that name. *)
Definition insertFile (name : string) (file : ImageFile)
           (folder : string -> option ImageFile) : string -> option ImageFile :=
  fun n => if String.eqb n name then Some file else folder n.

(** The file name [`${i}.png`]. *)
Definition pngName (i : nat) : string := (natToString i ++ ".png")%string.

(** The entry of [projectData.images] written for an image: every field
    is present. *)
Definition serializeImage (imgState : ImgState.t) (i : nat) : ImgData.t :=
  ImgData.mk (pngName i)
    (Some (ImgState.id imgState))
    (ImgState.x imgState) (ImgState.y imgState)
    (ImgState.scaleX imgState) (ImgState.scaleY imgState)
    (ImgState.rotation imgState)
    (Some (ImgState.cropBounds imgState))
    (Some (ImgState.blendMode imgState))
    (Some (ImgState.opacity imgState))
    (Some (ImgState.originalWidth imgState))
    (Some (ImgState.originalHeight imgState))
    (Some (ImgState.name imgState))
    (Some (ImgState.zIndex imgState)).

(** The image state with another decoded image. *)
Definition withImageRef (r : Raster) (i : ImgState.t) : ImgState.t :=
  ImgState.mk (ImgState.id i) r (ImgState.originalWidth i)
    (ImgState.originalHeight i) (ImgState.x i) (ImgState.y i)
    (ImgState.scaleX i) (ImgState.scaleY i) (ImgState.rotation i)
    (ImgState.cropBounds i) (ImgState.blendMode i) (ImgState.opacity i)
    (ImgState.name i) (ImgState.zIndex i).

Section ProjectSave.

(** The image that the browser decodes from the PNG file that
    [canvas.toBlob] writes for an image. *)
Variable decodePng : Raster -> Raster.

(** The [for] loop of [serializeStateToZip], from image [i] on. *)
Fixpoint serializeImages (imgs : list ImgState.t) (i : nat)
         (folder : string -> option ImageFile) (entries : list ImgData.t)
  : (string -> option ImageFile) * list ImgData.t :=
  match imgs with
  | [] => (folder, entries)
  | imgState :: rest =>
      let filename := pngName i in
      let blob := Decodes (decodePng (ImgState.imageRef imgState)) in
      serializeImages rest (S i) (insertFile filename blob folder)
        (entries ++ [serializeImage imgState i])
  end.

(** [serializeStateToZip(state)], unpacked. *)
Definition serializeStateToZip (state : Snapshot) : Archive :=
  let '(folder, entries) :=
    serializeImages (images state) 0 (fun _ => None) [] in
  {| projectJson := Some entries; imagesFolder := folder |}.

(** [saveProject()]: the archive offered for download, if any. *)
Definition saveProject (s : State) : State * option Archive :=
  let state := captureState s in
  if Nat.eqb (List.length (images state)) 0
  then (alert "No images to save" s, None)
  else (s, Some (serializeStateToZip state)).

(** What a load reads back for a saved image. *)
Definition reload (i : ImgState.t) : ImgState.t :=
  withImageRef (decodePng (ImgState.imageRef i)) i.

End ProjectSave.

(** An image for which no default of [deserializeStateFromZip] applies:
    its id and name are not empty and its source size is not 0. *)
Definition hasNoFalsyField (n : Node.t) : Prop :=
  Node.imageId n <> "" /\ Node.name n <> "" /\
  ~ Node.originalWidth n == 0 /\ ~ Node.originalHeight n == 0.


(** Image ids that are pairwise distinct and were all returned by one of
    the first [calls] calls of the id generator [ids]. *)
Definition idsOk (ids : nat -> string) (calls : nat) (l : list string)
  : Prop :=
  NoDup l /\ Forall (fun id => exists k, (k < calls)%nat /\ id = ids k) l.

(** The same on a whole session, for a generator that never returns an id
    twice. *)
Definition sessionIdsOk (s : State) : Prop :=
  (forall a b, idSource s a = idSource s b -> a = b) /\
  idsOk (idSource s) (idCalls s) (map Node.imageId (layer s)) /\
  Forall (fun snap =>
            idsOk (idSource s) (idCalls s) (map ImgState.id (images snap)))
         (undoStack s) /\
  Forall (fun snap =>
            idsOk (idSource s) (idCalls s) (map ImgState.id (images snap)))
         (redoStack s).

(* ################################################################# *)
(** * Part II: lemmas and theorems *)

(* ================================================================= *)
(** ** Facts about the arithmetic *)

Lemma trunc_nonneg (q : Q) :
  0 <= q -> inject_Z (JS.trunc q) <= q /\ q < inject_Z (JS.trunc q) + 1.
Proof.
  intros Hq. unfold JS.trunc.
  destruct (Qle_bool 0 q) eqn:E.
  - split; [apply Qfloor_le|].
    pose proof (Qlt_floor q) as H.
    rewrite inject_Z_plus in H. exact H.
  - rewrite <- Qle_bool_iff in Hq. congruence.
Qed.

Lemma trunc_neg (q : Q) :
  q < 0 -> q <= inject_Z (JS.trunc q) /\ inject_Z (JS.trunc q) < q + 1.
Proof.
  intros Hq. unfold JS.trunc.
  destruct (Qle_bool 0 q) eqn:E.
  - apply Qle_bool_iff in E. lra.
  - split; [apply Qle_ceiling|].
    pose proof (Qceiling_lt q) as H.
    unfold Z.sub in H. rewrite inject_Z_plus, inject_Z_opp in H.
    change (inject_Z 1) with 1 in H. lra.
Qed.

(** For a positive modulus the remainder lies strictly between [-b] and [b],
    on the side of the dividend. *)
Lemma rem_as_fraction (a b : Q) :
  0 < b -> JS.rem a b == b * (a / b - inject_Z (JS.trunc (a / b))).
Proof. intros Hb. unfold JS.rem. field. lra. Qed.

Lemma quotient_sign (a b : Q) :
  0 < b -> (0 <= a -> 0 <= a / b) /\ (a <= 0 -> a / b <= 0).
Proof.
  intros Hb.
  assert (Ha : a == b * (a / b)) by (field; lra).
  split; intros H; rewrite Ha in H; nra.
Qed.

Lemma scale_unit (b d : Q) :
  0 < b -> 0 <= d -> d < 1 -> 0 <= b * d /\ b * d < b.
Proof.
  intros Hb H0 H1. split.
  - apply Qmult_le_0_compat; lra.
  - assert (H : b * d < b * 1) by (apply Qmult_lt_l; assumption).
    lra.
Qed.

Lemma rem_range (a b : Q) :
  0 < b ->
  (0 <= a -> 0 <= JS.rem a b /\ JS.rem a b < b) /\
  (a <= 0 -> - b < JS.rem a b /\ JS.rem a b <= 0).
Proof.
  intros Hb.
  destruct (quotient_sign a b Hb) as [Hpos Hneg].
  rewrite (rem_as_fraction a b Hb).
  remember (a / b) as q eqn:Eq. clear Eq.
  split; intros Ha.
  - specialize (Hpos Ha).
    destruct (trunc_nonneg q Hpos) as [H1 H2].
    apply scale_unit; lra.
  - specialize (Hneg Ha).
    destruct (Qlt_le_dec q 0) as [Hq | Hq].
    + destruct (trunc_neg q Hq) as [H1 H2].
      destruct (scale_unit b (inject_Z (JS.trunc q) - q)); lra.
    + destruct (trunc_nonneg q Hq) as [H1 H2].
      assert (Hz : JS.trunc q = 0%Z).
      { assert (L : inject_Z (JS.trunc q) <= inject_Z 0) 
          by (change (inject_Z 0) with 0; lra).
        assert (U : inject_Z 0 < inject_Z (JS.trunc q + 1))
          by (rewrite inject_Z_plus; change (inject_Z 0) with 0;
              change (inject_Z 1) with 1; lra).
        rewrite <- Zle_Qle in L. rewrite <- Zlt_Qlt in U. lia. }
      rewrite Hz. assert (q == 0) by lra.
      assert (E : b * (q - inject_Z 0) == 0) by (rewrite H; ring).
      rewrite E. lra.
Qed.

Lemma normalizeRotation_range (r : Q) :
  0 <= normalizeRotation r /\ normalizeRotation r < 360.
Proof.
  unfold normalizeRotation.
  assert (H360 : 0 < 360) by lra.
  destruct (rem_range r 360 H360) as [Hp Hn].
  assert (0 <= JS.rem r 360 + 360).
  { destruct (Qlt_le_dec r 0); [destruct Hn | destruct Hp]; lra. }
  destruct (rem_range (JS.rem r 360 + 360) 360 H360) as [Hp' _].
  auto.
Qed.

(** [Math.round(rot / 90)] of a normalized rotation is one of 0..4. *)
Lemma round_quarter_range (r : Q) :
  (0 <= JS.round (normalizeRotation r / 90) <= 4)%Z.
Proof.
  destruct (normalizeRotation_range r) as [H0 H360].
  unfold JS.round.
  set (y := normalizeRotation r / 90 + (1 # 2)).
  assert (Hy : (1 # 2) <= y /\ y < (9 # 2)).
  { unfold y, Qdiv. change (/ 90) with (1 # 90). lra. }
  pose proof (Qfloor_le y) as L.
  pose proof (Qlt_floor y) as U.
  rewrite inject_Z_plus in U. change (inject_Z 1) with 1 in U.
  assert (L' : inject_Z (Qfloor y) < inject_Z 5)
    by (change (inject_Z 5) with 5; lra).
  assert (U' : inject_Z (-1) < inject_Z (Qfloor y))
    by (change (inject_Z (-1)) with (-1 # 1); lra).
  rewrite <- Zlt_Qlt in L', U'. lia.
Qed.

(** The snapped rotation always hits one of the four keys of the tables:
    the same key for every table. *)
Lemma snapRotation_cases (r : Q) :
  (forall A (m0 m90 m180 m270 : A),
      lookupQuadrant m0 m90 m180 m270 (snapRotation r) = Some m0) \/
  (forall A (m0 m90 m180 m270 : A),
      lookupQuadrant m0 m90 m180 m270 (snapRotation r) = Some m90) \/
  (forall A (m0 m90 m180 m270 : A),
      lookupQuadrant m0 m90 m180 m270 (snapRotation r) = Some m180) \/
  (forall A (m0 m90 m180 m270 : A),
      lookupQuadrant m0 m90 m180 m270 (snapRotation r) = Some m270).
Proof.
  pose proof (round_quarter_range r) as H.
  unfold snapRotation.
  assert (C : JS.round (normalizeRotation r / 90) = 0%Z \/
              JS.round (normalizeRotation r / 90) = 1%Z \/
              JS.round (normalizeRotation r / 90) = 2%Z \/
              JS.round (normalizeRotation r / 90) = 3%Z \/
              JS.round (normalizeRotation r / 90) = 4%Z) by lia.
  destruct C as [E | [E | [E | [E | E]]]]; rewrite E.
  - left; intros; vm_compute; reflexivity.
  - right; left; intros; vm_compute; reflexivity.
  - right; right; left; intros; vm_compute; reflexivity.
  - right; right; right; intros; vm_compute; reflexivity.
  - left; intros; vm_compute; reflexivity.
Qed.

Lemma lookupQuadrant_hit {A : Type} (m0 m90 m180 m270 x : A) (rot : Q) :
  lookupQuadrant m0 m90 m180 m270 rot = Some x ->
  rot == 0 \/ rot == 90 \/ rot == 180 \/ rot == 270.
Proof.
  unfold lookupQuadrant. intros H.
  destruct (Qeq_bool rot 0) eqn:E0; [apply Qeq_bool_iff in E0; auto |].
  destruct (Qeq_bool rot 90) eqn:E1; [apply Qeq_bool_iff in E1; auto |].
  destruct (Qeq_bool rot 180) eqn:E2; [apply Qeq_bool_iff in E2; auto |].
  destruct (Qeq_bool rot 270) eqn:E3; [apply Qeq_bool_iff in E3; auto |].
  discriminate.
Qed.

Lemma snapRotation_values (r : Q) :
  snapRotation r == 0 \/ snapRotation r == 90 \/
  snapRotation r == 180 \/ snapRotation r == 270.
Proof.
  destruct (snapRotation_cases r) as [H | [H | [H | H]]];
    exact (lookupQuadrant_hit _ _ _ _ _ _ (H nat 0%nat 1%nat 2%nat 3%nat)).
Qed.

Lemma flipLR_involutive (sx : Q) (e : Edge) : flipLR sx (flipLR sx e) = e.
Proof. unfold flipLR. destruct (JS.ltb sx 0), e; reflexivity. Qed.

Lemma flipTB_involutive (sy : Q) (e : Edge) : flipTB sy (flipTB sy e) = e.
Proof. unfold flipTB. destruct (JS.ltb sy 0), e; reflexivity. Qed.

Lemma flips_commute (sx sy : Q) (e : Edge) :
  flipTB sy (flipLR sx e) = flipLR sx (flipTB sy e).
Proof.
  unfold flipTB, flipLR.
  destruct (JS.ltb sx 0), (JS.ltb sy 0), e; reflexivity.
Qed.

(* ================================================================= *)
(** ** Properties of the edge mapping *)

(** C1. For every rotation (which the code snaps to one of 0, 90, 180, 270)
    and every pair of scale signs, [getSourceEdge] and the
    source-to-visual map of [applyCropBounds] are mutually inverse on the
    four edge names: visual -> source -> visual and
    source -> visual -> source are both the identity. *)
Theorem edge_maps_mutually_inverse (rotation scaleX scaleY : Q) (e : Edge) :
  (exists s, getSourceEdge e rotation scaleX scaleY = Some s /\
             getVisualEdge s rotation scaleX scaleY = Some e) /\
  (exists v, getVisualEdge e rotation scaleX scaleY = Some v /\
             getSourceEdge v rotation scaleX scaleY = Some e).
Proof.
  unfold getSourceEdge, getVisualEdge, rotationMaps, visualMaps.
  destruct (snapRotation_cases rotation) as [H | [H | [H | H]]];
    rewrite !H; split; eexists; (split; [reflexivity |]); f_equal.
  all: try rewrite (flips_commute scaleX scaleY),
         flipTB_involutive, flipLR_involutive.
  all: try (destruct e; reflexivity).
  all: unfold flipTB, flipLR;
    destruct (JS.ltb scaleX 0), (JS.ltb scaleY 0), e; reflexivity.
Qed.

(** C10. [getSourceEdge] is total: for every rotation value and every pair
    of scales the normalised, snapped rotation is one of 0, 90, 180, 270, the
    table lookup never misses, and the result is an edge name. *)
Theorem getSourceEdge_total (visualHandle : Edge) (rotation scaleX scaleY : Q) :
  (snapRotation rotation == 0 \/ snapRotation rotation == 90 \/
   snapRotation rotation == 180 \/ snapRotation rotation == 270) /\
  (exists m, rotationMaps (snapRotation rotation) = Some m) /\
  (exists e, getSourceEdge visualHandle rotation scaleX scaleY = Some e).
Proof.
  split; [apply snapRotation_values |].
  unfold getSourceEdge, rotationMaps.
  destruct (snapRotation_cases rotation) as [H | [H | [H | H]]];
    rewrite !H; split; eexists; reflexivity.
Qed.

(** Sample values: 359 snaps up to 360 and wraps to 0; -90 is 270. *)
Example getSourceEdge_359 : getSourceEdge Edge.top 359 1 1 = Some Edge.top.
Proof. reflexivity. Qed.

Example getSourceEdge_neg90 : getSourceEdge Edge.top (-90) 1 1 = Some Edge.right.
Proof. reflexivity. Qed.

Example getSourceEdge_90_flipped : getSourceEdge Edge.top 90 (-1) 1 = Some Edge.right.
Proof. reflexivity. Qed.

(* ================================================================= *)
(** ** The undo and redo stacks *)

Lemma restoreState_stacks (snap : Snapshot) (s : State) :
  undoStack (restoreState snap s) = undoStack s /\
  redoStack (restoreState snap s) = redoStack s.
Proof.
  unfold restoreState.
  destruct (String.eqb _ ""); [split; reflexivity |].
  destruct (findImageById _ _); split; reflexivity.
Qed.

Lemma limitStack_cons (a : Snapshot) (l : list Snapshot) :
  limitStack (a :: l) =
  if Nat.ltb MAX_UNDO_LEVELS (List.length (a :: l))
  then limitStack l else a :: l.
Proof. reflexivity. Qed.

Lemma limitStack_length (l : list Snapshot) :
  (List.length (limitStack l) <= MAX_UNDO_LEVELS)%nat.
Proof.
  induction l as [| a l IH].
  - unfold MAX_UNDO_LEVELS. simpl. lia.
  - rewrite limitStack_cons.
    destruct (Nat.ltb MAX_UNDO_LEVELS (List.length (a :: l))) eqn:E.
    + exact IH.
    + apply Nat.ltb_ge in E. exact E.
Qed.

Lemma limitStack_small (l : list Snapshot) :
  (List.length l <= MAX_UNDO_LEVELS)%nat -> limitStack l = l.
Proof.
  destruct l as [| a l]; [reflexivity |]. intros H.
  rewrite limitStack_cons.
  apply Nat.ltb_ge in H. rewrite H. reflexivity.
Qed.

Lemma limitStack_one_over (a : Snapshot) (l : list Snapshot) :
  List.length l = MAX_UNDO_LEVELS -> limitStack (a :: l) = l.
Proof.
  intros H. rewrite limitStack_cons.
  assert (E : Nat.ltb MAX_UNDO_LEVELS (List.length (a :: l)) = true)
    by (apply Nat.ltb_lt; simpl; lia).
  rewrite E. apply limitStack_small. lia.
Qed.

Lemma pop_length {A : Type} (l rest : list A) (z : A) :
  pop l = Some (z, rest) -> List.length l = S (List.length rest).
Proof.
  revert rest z. induction l as [| a l IH]; intros rest z H; [discriminate |].
  simpl in H. destruct (pop l) as [[z' rest'] |] eqn:E.
  - injection H as <- <-. simpl. f_equal. eapply IH. reflexivity.
  - injection H as <- <-. destruct l; [reflexivity | simpl in E].
    destruct (pop l) as [[? ?] |]; discriminate.
Qed.

Lemma pop_app {A : Type} (l : list A) (z : A) : pop (l ++ [z]) = Some (z, l).
Proof.
  induction l as [| a l IH]; [reflexivity |].
  simpl. rewrite IH. reflexivity.
Qed.

Ltac stacks_done :=
  first [ left; split; reflexivity | right; split; reflexivity ].

Lemma applyOp_stacks (cosDeg sinDeg : Q -> Q) (op : Op) (s : State) :
  stacksKept s (applyOp cosDeg sinDeg op s) \/
  stacksPushed s (applyOp cosDeg sinDeg op s).
Proof.
  unfold stacksKept, stacksPushed.
  destruct op; cbn [applyOp];
    unfold addImage, dragImage, handleNudge, transformSelected,
      dragCropHandle, resetCrop, flipHorizontal, flipVertical, rotateLeft,
      rotateRight, duplicateImage, bringToTop, sendToBottom, dblclickImage,
      deleteSelected, setBlendMode, setOpacity;
    try stacks_done;
    try (destruct (getSelectedImage s); [| stacks_done]);
    try (destruct (find (isNode nodeId) (layer s)); [| stacks_done]);
    try stacks_done.
  - destruct (nudgeUndoPushed s), axis; stacks_done.
  - destruct (isRotatedSideways t); stacks_done.
  - destruct (isRotatedSideways t); stacks_done.
Qed.

Lemma pushesUndo_stacks (cosDeg sinDeg : Q -> Q) (op : Op) (s : State) :
  pushesUndo op s = true -> stacksPushed s (applyOp cosDeg sinDeg op s).
Proof.
  unfold stacksPushed.
  destruct op; cbn [applyOp pushesUndo];
    unfold addImage, dragImage, handleNudge, transformSelected,
      dragCropHandle, resetCrop, flipHorizontal, flipVertical, rotateLeft,
      rotateRight, duplicateImage, bringToTop, sendToBottom, dblclickImage,
      deleteSelected, setBlendMode, setOpacity;
    intros H;
    try (destruct (getSelectedImage s); [| discriminate]);
    try (destruct (find (isNode nodeId) (layer s)); [| discriminate]);
    try (split; reflexivity).
  - destruct (nudgeUndoPushed s); [discriminate |].
    destruct axis; split; reflexivity.
  - destruct (isRotatedSideways t); split; reflexivity.
  - destruct (isRotatedSideways t); split; reflexivity.
Qed.

Lemma pushUndo_bounded (s : State) : stacksBounded (pushUndo s).
Proof.
  unfold stacksBounded, pushUndo. simpl.
  pose proof (limitStack_length (undoStack s ++ [captureState s])). lia.
Qed.

Lemma step_bounded (cosDeg sinDeg : Q -> Q) (s : State) (a : Action) :
  stacksBounded s -> stacksBounded (step cosDeg sinDeg s a).
Proof.
  intros H. destruct a; cbn [step].
  - destruct (applyOp_stacks cosDeg sinDeg op s) as [[U R] | [U R]];
      unfold stacksBounded; rewrite U, R.
    + exact H.
    + pose proof (limitStack_length (undoStack s ++ [captureState s])) as B.
      unfold pushUndo. cbn [undoStack set_stacks List.length]. lia.
  - unfold selectImage. destruct (find _ _); exact H.
  - exact H.
  - apply pushUndo_bounded.
  - unfold undo. destruct (pop (undoStack s)) as [[z rest] |] eqn:E; [| exact H].
    unfold stacksBounded.
    destruct (restoreState_stacks z
                (set_stacks rest (redoStack s ++ [captureState s]) s))
      as [U R].
    rewrite U, R. simpl. rewrite length_app. simpl.
    apply pop_length in E. unfold stacksBounded in H. lia.
  - unfold redo. destruct (pop (redoStack s)) as [[z rest] |] eqn:E; [| exact H].
    unfold stacksBounded.
    destruct (restoreState_stacks z
                (set_stacks (undoStack s ++ [captureState s]) rest s))
      as [U R].
    rewrite U, R. simpl. rewrite length_app. simpl.
    apply pop_length in E. unfold stacksBounded in H. lia.
Qed.

Lemma run_bounded (cosDeg sinDeg : Q -> Q) (actions : list Action) (s : State) :
  stacksBounded s -> stacksBounded (run cosDeg sinDeg actions s).
Proof.
  revert s. induction actions as [| a actions IH]; intros s H; [exact H |].
  simpl. apply IH. apply step_bounded. exact H.
Qed.

(** C6. Whatever sequence of edits, [pushUndo], [undo] and [redo] is run
    from the initial page, the undo stack holds at most 30 snapshots
    (although [redo] pushes without truncating), and a further [pushUndo]
    appends the current snapshot, dropping the oldest entry first when the
    stack is full. *)
Theorem undo_stack_never_exceeds_30
        (cosDeg sinDeg : Q -> Q) (st : Stage.t) (ids : nat -> string)
        (actions : list Action) :
  let s := run cosDeg sinDeg actions (initialState st ids) in
  (List.length (undoStack s) <= 30)%nat /\
  redoStack (pushUndo s) = [] /\
  undoStack (pushUndo s) =
    (if Nat.eqb (List.length (undoStack s)) 30
     then tl (undoStack s) else undoStack s) ++ [captureState s].
Proof.
  intros s.
  assert (B : stacksBounded s).
  { apply run_bounded. unfold stacksBounded, initialState. simpl.
    unfold MAX_UNDO_LEVELS. lia. }
  unfold stacksBounded, MAX_UNDO_LEVELS in B.
  split; [lia |]. split; [reflexivity |].
  unfold pushUndo. cbn [undoStack set_stacks].
  destruct (Nat.eqb (List.length (undoStack s)) 30) eqn:E.
  - apply Nat.eqb_eq in E.
    destruct (undoStack s) as [| a l]; [discriminate |].
    simpl tl. change ((a :: l) ++ [captureState s])
      with (a :: (l ++ [captureState s])).
    apply limitStack_one_over. rewrite length_app. simpl in *.
    unfold MAX_UNDO_LEVELS. lia.
  - apply Nat.eqb_neq in E. apply limitStack_small.
    rewrite length_app. simpl. unfold MAX_UNDO_LEVELS. lia.
Qed.

(* ================================================================= *)
(** ** Flips *)

Lemma ltb_spec (a b : Q) : JS.ltb a b = true <-> a < b.
Proof.
  unfold JS.ltb. rewrite negb_true_iff.
  destruct (Qle_bool b a) eqn:E.
  - apply Qle_bool_iff in E. split; [discriminate | lra].
  - split; [| reflexivity]. intros _.
    destruct (Qlt_le_dec a b) as [H | H]; [exact H |].
    apply Qle_bool_iff in H. congruence.
Qed.

Lemma abs_cases (x : Q) :
  (0 <= x /\ JS.abs x = x) \/ (x < 0 /\ JS.abs x = - x).
Proof.
  unfold JS.abs. destruct (Qle_bool 0 x) eqn:E.
  - left. apply Qle_bool_iff in E. auto.
  - right. split; [| reflexivity].
    destruct (Qlt_le_dec x 0) as [H | H]; [exact H |].
    apply Qle_bool_iff in H. congruence.
Qed.

Lemma modulo_range (r m : Q) : 0 < m -> 0 <= modulo r m /\ modulo r m < m.
Proof.
  intros Hm.
  assert (E : modulo r m == m * (r / m - inject_Z (Qfloor (r / m))))
    by (unfold modulo; field; lra).
  rewrite E.
  pose proof (Qfloor_le (r / m)) as L.
  pose proof (Qlt_floor (r / m)) as U.
  rewrite inject_Z_plus in U. change (inject_Z 1) with 1 in U.
  apply scale_unit; lra.
Qed.

(** The code's test, written with the truncating [%] and [Math.abs], selects
    the same rotations as the band "(45, 135) mod 180". *)
Lemma abs_rem_180 (r : Q) :
  JS.abs (JS.rem r 180) == modulo r 180 \/
  JS.abs (JS.rem r 180) == 180 - modulo r 180.
Proof.
  assert (H180 : 0 < 180) by lra.
  pose proof (modulo_range r 180 H180) as [M0 M1].
  assert (EM : modulo r 180 == 180 * (r / 180) - 180 * inject_Z (Qfloor (r / 180)))
    by (unfold modulo; field).
  assert (ER : JS.rem r 180
               == 180 * (r / 180) - 180 * inject_Z (JS.trunc (r / 180)))
    by (unfold JS.rem; field).
  pose proof (Qfloor_le (r / 180)) as FL.
  pose proof (Qlt_floor (r / 180)) as FU.
  rewrite inject_Z_plus in FU. change (inject_Z 1) with 1 in FU.
  remember (r / 180) as q eqn:Eq. clear Eq.
  destruct (Qlt_le_dec q 0) as [Hq | Hq].
  - (* negative quotient: truncation is the ceiling *)
    destruct (trunc_neg q Hq) as [T1 T2].
    assert (C : JS.trunc q = Qfloor q \/ JS.trunc q = (Qfloor q + 1)%Z).
    { assert (L : inject_Z (Qfloor q) <= inject_Z (JS.trunc q)) by lra.
      assert (U : inject_Z (JS.trunc q) < inject_Z (Qfloor q + 2)).
      { rewrite inject_Z_plus. change (inject_Z 2) with 2. lra. }
      rewrite <- Zle_Qle in L. rewrite <- Zlt_Qlt in U. lia. }
    destruct C as [C | C]; rewrite C in ER.
    + destruct (abs_cases (JS.rem r 180)) as [[S A] | [S A]]; rewrite A;
        left; lra.
    + rewrite inject_Z_plus in ER. change (inject_Z 1) with 1 in ER.
      destruct (abs_cases (JS.rem r 180)) as [[S A] | [S A]]; rewrite A;
        right; lra.
  - (* truncation is the floor *)
    unfold JS.trunc in ER.
    assert (B : Qle_bool 0 q = true) by (apply Qle_bool_iff; exact Hq).
    rewrite B in ER.
    destruct (abs_cases (JS.rem r 180)) as [[S A] | [S A]]; rewrite A;
      left; lra.
Qed.

Lemma isRotatedSideways_spec (node : Node.t) :
  isRotatedSideways node = true <-> inSidewaysBand (Node.rotation node).
Proof.
  unfold isRotatedSideways, inSidewaysBand.
  rewrite andb_true_iff, !ltb_spec.
  destruct (abs_rem_180 (Node.rotation node)) as [E | E]; rewrite E;
    split; intros [? ?]; split; lra.
Qed.

Lemma find_updated (i : nat) (f : Node.t -> Node.t) (l : list Node.t)
      (node : Node.t) :
  (forall n, Node._id (f n) = Node._id n) ->
  find (isNode i) l = Some node ->
  find (isNode i) (map (fun n => if Nat.eqb (Node._id n) i then f n else n) l)
  = Some (f node).
Proof.
  intros Hf. induction l as [| a l IH]; intros H; [discriminate |].
  simpl in *. unfold isNode in *.
  destruct (Nat.eqb (Node._id a) i) eqn:E.
  - injection H as <-. rewrite Hf, E. reflexivity.
  - rewrite E. apply IH. exact H.
Qed.

Lemma getSelectedImage_id (s : State) (node : Node.t) :
  getSelectedImage s = Some node ->
  selection s = Some (Node._id node) /\
  find (isNode (Node._id node)) (layer s) = Some node.
Proof.
  unfold getSelectedImage. destruct (selection s) as [i |]; [| discriminate].
  intros H. pose proof (find_some _ _ H) as [_ E].
  apply Nat.eqb_eq in E. subst i. auto.
Qed.

(** A write to the selected node after [pushUndo()] is seen through the
    selection. *)
Lemma getSelectedImage_updated (s : State) (node : Node.t)
      (f : Node.t -> Node.t) :
  (forall n, Node._id (f n) = Node._id n) ->
  getSelectedImage s = Some node ->
  getSelectedImage (updateNode (Node._id node) f (pushUndo s)) = Some (f node).
Proof.
  intros Hf H. apply getSelectedImage_id in H. destruct H as [Hs Hl].
  unfold getSelectedImage. cbn. rewrite Hs.
  apply (find_updated _ f _ _ Hf Hl).
Qed.

Lemma modulo_quarter (r : Q) :
  r == 90 \/ r == -90 -> modulo r 180 == 90.
Proof.
  intros [H | H]; unfold modulo.
  - assert (E : r / 180 == 1 # 2) by (rewrite H; reflexivity).
    rewrite (Qfloor_comp _ _ E), H. reflexivity.
  - assert (E : r / 180 == - (1 # 2)) by (rewrite H; reflexivity).
    rewrite (Qfloor_comp _ _ E), H. reflexivity.
Qed.

(** C7. With an image selected: when its rotation is within (45, 135)
    mod 180, [flipHorizontal] multiplies [scaleY] by -1 and [flipVertical]
    multiplies [scaleX] by -1; otherwise [flipHorizontal] negates [scaleX]
    and [flipVertical] negates [scaleY].  At rotation 90 and at rotation -90
    [flipHorizontal] negates [scaleY].  The selected node is otherwise the
    same node, and the other images of the layer are untouched. *)
Theorem flip_negates_visual_axis (s : State) (node : Node.t) :
  getSelectedImage s = Some node ->
  let negX := fun n => Node.set_scaleX (Node.scaleX n * (-1)) n in
  let negY := fun n => Node.set_scaleY (Node.scaleY n * (-1)) n in
  let others := fun f =>
    map (fun n => if isNode (Node._id node) n then f n else n) (layer s) in
  (inSidewaysBand (Node.rotation node) ->
     getSelectedImage (flipHorizontal s) = Some (negY node) /\
     layer (flipHorizontal s) = others negY /\
     getSelectedImage (flipVertical s) = Some (negX node) /\
     layer (flipVertical s) = others negX) /\
  (~ inSidewaysBand (Node.rotation node) ->
     getSelectedImage (flipHorizontal s) = Some (negX node) /\
     layer (flipHorizontal s) = others negX /\
     getSelectedImage (flipVertical s) = Some (negY node) /\
     layer (flipVertical s) = others negY) /\
  (Node.rotation node == 90 \/ Node.rotation node == -90 ->
     getSelectedImage (flipHorizontal s) = Some (negY node)) /\
  Node.scaleX (negX node) == - Node.scaleX node /\
  Node.scaleY (negY node) == - Node.scaleY node.
Proof.
  intros Hsel negX negY others.
  assert (SX : getSelectedImage (updateNode (Node._id node) negX (pushUndo s))
               = Some (negX node))
    by (apply getSelectedImage_updated; [reflexivity | exact Hsel]).
  assert (SY : getSelectedImage (updateNode (Node._id node) negY (pushUndo s))
               = Some (negY node))
    by (apply getSelectedImage_updated; [reflexivity | exact Hsel]).
  assert (Side : inSidewaysBand (Node.rotation node) ->
                 getSelectedImage (flipHorizontal s) = Some (negY node) /\
                 layer (flipHorizontal s) = others negY /\
                 getSelectedImage (flipVertical s) = Some (negX node) /\
                 layer (flipVertical s) = others negX).
  { intros B. apply isRotatedSideways_spec in B.
    unfold flipHorizontal, flipVertical. rewrite Hsel, B.
    repeat split; assumption || reflexivity. }
  split; [exact Side |]. split; [| split; [| split]].
  - intros B.
    assert (B' : isRotatedSideways node = false).
    { destruct (isRotatedSideways node) eqn:E; [| reflexivity].
      apply isRotatedSideways_spec in E. contradiction. }
    unfold flipHorizontal, flipVertical. rewrite Hsel, B'.
    repeat split; assumption || reflexivity.
  - intros Hq. apply Side. unfold inSidewaysBand.
    rewrite (modulo_quarter _ Hq). lra.
  - unfold negX. cbn. ring.
  - unfold negY. cbn. ring.
Qed.

Lemma flip_negates_visual_axis_witness :
  let node :=
    Node.mk 0 "img_a" (Build_Raster 0 100 80) 100 80 10 10 1 1 90 Crop.zero
      "source-over" 1 "a.png" None 100 80 50 40 in
  let s :=
    mkState [node] (Some 0%nat) [] [] 1 false (Stage.mk 800 600 0 0 1 1) 1
      (fun _ => "img_b") 1 [] [] in
  exists flipped,
    getSelectedImage (flipHorizontal s) = Some flipped /\
    Node.scaleX flipped = 1 /\ Node.scaleY flipped = 1 * (-1).
Proof.
  intros node s.
  destruct (flip_negates_visual_axis s node eq_refl)
    as (_ & _ & H90 & _ & _).
  eexists. split.
  - apply H90. left. reflexivity.
  - split; reflexivity.
Defined.

(* ================================================================= *)
(** ** Snapshots: capture and restore *)

(** A list whose keys already ascend is left as it is by the stable sort. *)
Lemma sortBy_ascending {A : Type} (key : A -> Z) (l : list A) :
  ascendingBy key l -> sortBy key l = l.
Proof.
  induction l as [| a l IH]; [reflexivity |].
  intros [Hhd Htl]. simpl. rewrite (IH Htl).
  destruct l as [| b l]; [reflexivity |].
  simpl. apply Z.leb_le in Hhd. rewrite Hhd. reflexivity.
Qed.

Lemma mapiFrom_length {A B : Type} (f : A -> nat -> B) (i : nat) (l : list A) :
  List.length (mapiFrom f i l) = List.length l.
Proof.
  revert i. induction l as [| a l IH]; intros i; [reflexivity |].
  simpl. rewrite IH. reflexivity.
Qed.

Lemma mapiFrom_ascending {A B : Type} (f : A -> nat -> B) (key : B -> Z)
      (i : nat) (l : list A) :
  (forall a k, key (f a k) = Z.of_nat k) ->
  ascendingBy key (mapiFrom f i l).
Proof.
  intros Hk. revert i. induction l as [| a l IH]; intros i; [exact I |].
  simpl. split; [| apply IH].
  destruct l as [| b l]; [exact I |]. simpl. rewrite !Hk. lia.
Qed.

Lemma mapiFrom_snd_pair {A : Type} (i : nat) (l : list A) :
  map snd (mapiFrom (fun a k => (k, a)) i l) = l.
Proof.
  revert i. induction l as [| a l IH]; intros i; [reflexivity |].
  simpl. rewrite IH. reflexivity.
Qed.


(** [captureState] lists the images of the layer, back to front, with
    their position as [zIndex]. *)
Lemma captureState_images (s : State) :
  images (captureState s) = mapi captureImage (layer s).
Proof.
  unfold captureState, mapi. cbn [images].
  rewrite sortBy_ascending.
  - rewrite mapiFrom_snd_pair. reflexivity.
  - apply mapiFrom_ascending. reflexivity.
Qed.

Lemma captureState_eq (s : State) :
  captureState s = {| version := 2; images := mapi captureImage (layer s) |}.
Proof.
  rewrite <- captureState_images. reflexivity.
Qed.


Lemma restoreState_layer (snap : Snapshot) (s : State) :
  layer (restoreState snap s)
  = mapi (fun imgState i =>
            createKonvaImageFromState imgState (nextNodeId s + i))
         (sortBy ImgState.zIndex (images snap)).
Proof.
  unfold restoreState.
  destruct (String.eqb _ ""); [reflexivity |].
  destruct (findImageById _ _); reflexivity.
Qed.

Lemma orString_idem (v d : string) :
  d <> "" -> orString (orString v d) d = orString v d.
Proof.
  intros Hd. unfold orString.
  destruct (String.eqb v "") eqn:E.
  - destruct (String.eqb d "") eqn:E'; [| reflexivity].
    apply String.eqb_eq in E'. contradiction.
  - rewrite E. reflexivity.
Qed.

(** An entry whose blend mode went through [|| 'source-over'] and whose
    [zIndex] is its position is captured again as itself once restored. *)
Lemma capture_created (imgState : ImgState.t) (nodeId index : nat) :
  orString (ImgState.blendMode imgState) "source-over"
  = ImgState.blendMode imgState ->
  ImgState.zIndex imgState = Z.of_nat index ->
  captureImage (createKonvaImageFromState imgState nodeId) index = imgState.
Proof.
  intros Hb Hz. unfold createKonvaImageFromState.
  destruct (JS.ltb 0 _ && JS.ltb 0 _); destruct imgState;
    unfold captureImage; cbn in *; rewrite Hb, <- Hz; reflexivity.
Qed.

Lemma ascending_of_positions (l : list ImgState.t) (i : nat) :
  map ImgState.zIndex l = map Z.of_nat (seq i (List.length l)) ->
  ascendingBy ImgState.zIndex l.
Proof.
  revert i. induction l as [| a l IH]; intros i H; [exact I |].
  simpl in H. injection H as Ha Hl. split; [| exact (IH _ Hl)].
  destruct l as [| b l]; [exact I |].
  simpl in Hl. injection Hl as Hb _. lia.
Qed.

Lemma capture_created_list (g : nat -> nat) (l : list ImgState.t) (i j : nat) :
  Forall (fun s => orString (ImgState.blendMode s) "source-over"
                   = ImgState.blendMode s) l ->
  map ImgState.zIndex l = map Z.of_nat (seq i (List.length l)) ->
  mapiFrom captureImage i
    (mapiFrom (fun imgState k => createKonvaImageFromState imgState (g k)) j l)
  = l.
Proof.
  revert i j. induction l as [| a l IH]; intros i j HB HZ; [reflexivity |].
  inversion HB as [| ? ? Ha Hl]; subst.
  simpl in HZ. injection HZ as Hza Hzl.
  simpl. f_equal.
  - apply capture_created; assumption.
  - apply IH; assumption.
Qed.

Lemma capture_restore (snap : Snapshot) (s : State) :
  canonical snap -> captureState (restoreState snap s) = snap.
Proof.
  intros (Hv & Hb & Hz).
  rewrite captureState_eq, restoreState_layer.
  rewrite (sortBy_ascending _ _ (ascending_of_positions _ _ Hz)).
  unfold mapi. rewrite capture_created_list by assumption.
  destruct snap as [v imgs]. simpl in Hv. subst v. reflexivity.
Qed.

Lemma mapiFrom_positions (l : list Node.t) (i : nat) :
  map ImgState.zIndex (mapiFrom captureImage i l)
  = map Z.of_nat (seq i (List.length l)).
Proof.
  revert i. induction l as [| a l IH]; intros i; [reflexivity |].
  simpl. f_equal. apply IH.
Qed.

Lemma captureState_canonical (s : State) : canonical (captureState s).
Proof.
  unfold canonical. rewrite captureState_images. split; [reflexivity |].
  unfold mapi. split.
  - generalize 0%nat. induction (layer s) as [| a l IH]; intros i;
      constructor; [| apply IH].
    simpl. apply orString_idem. discriminate.
  - rewrite mapiFrom_length. apply mapiFrom_positions.
Qed.




(* ================================================================= *)
(** ** Crop bounds *)

Lemma min_cases (a b : Q) :
  (a <= b /\ JS.min a b = a) \/ (b < a /\ JS.min a b = b).
Proof.
  unfold JS.min. destruct (Qle_bool a b) eqn:E.
  - left. apply Qle_bool_iff in E. auto.
  - right. split; [| reflexivity].
    destruct (Qlt_le_dec b a) as [H | H]; [exact H |].
    apply Qle_bool_iff in H. congruence.
Qed.

Lemma max_cases (a b : Q) :
  (a <= b /\ JS.max a b = b) \/ (b < a /\ JS.max a b = a).
Proof.
  unfold JS.max. destruct (Qle_bool a b) eqn:E.
  - left. apply Qle_bool_iff in E. auto.
  - right. split; [| reflexivity].
    destruct (Qlt_le_dec b a) as [H | H]; [exact H |].
    apply Qle_bool_iff in H. congruence.
Qed.

(** The clamp keeps a bound within [[0, dimension - opposite - 20]] as
    soon as that interval is not empty. *)
Lemma clampBound_range (dimension opposite current delta : Q) :
  0 <= dimension - opposite - 20 ->
  0 <= clampBound dimension opposite current delta /\
  clampBound dimension opposite current delta <= dimension - opposite - 20.
Proof.
  intros H. unfold clampBound, minSize.
  destruct (min_cases (dimension - opposite - 20) (current + delta))
    as [[? E] | [? E]]; rewrite E;
    match goal with
    | |- context [JS.max 0 ?v] =>
        destruct (max_cases 0 v) as [[? E'] | [? E']]; rewrite E'
    end; split; lra.
Qed.

Lemma cropEdge_ok (w h : Q) (c : Crop.t) (e : Edge) (delta : Q) :
  cropBoundsOk w h c -> cropBoundsOk w h (cropEdge w h c e delta).
Proof.
  unfold cropBoundsOk. intros (Ht & Hr & Hb & Hl & Hv & Hh).
  destruct e; cbn [cropEdge Crop.set Crop.top Crop.right Crop.bottom Crop.left].
  - destruct (clampBound_range h (Crop.bottom c) (Crop.top c) delta); [lra |].
    repeat split; lra.
  - destruct (clampBound_range w (Crop.left c) (Crop.right c) delta); [lra |].
    repeat split; lra.
  - destruct (clampBound_range h (Crop.top c) (Crop.bottom c) delta); [lra |].
    repeat split; lra.
  - destruct (clampBound_range w (Crop.right c) (Crop.left c) delta); [lra |].
    repeat split; lra.
Qed.

(** [applyCropBounds] either leaves the node alone or stores the bounds it
    was given; the source dimensions never change. *)
Lemma applyCropBounds_cases (cosDeg sinDeg : Q -> Q) (n : Node.t) (c : Crop.t)
      (e : Edge) :
  let n' := applyCropBounds cosDeg sinDeg n c e in
  Node.originalWidth n' = Node.originalWidth n /\
  Node.originalHeight n' = Node.originalHeight n /\
  Node._id n' = Node._id n /\
  (Node.cropBounds n' = Node.cropBounds n \/ Node.cropBounds n' = c).
Proof.
  unfold applyCropBounds.
  destruct (Qeq_bool _ 0 || Qeq_bool _ 0); [cbn; auto |].
  destruct (Qle_bool _ 0 || Qle_bool _ 0); [cbn; auto |].
  destruct (getVisualEdge _ _ _ _); cbn; auto.
Qed.

Lemma updateCropFromHandle_cases (cosDeg sinDeg : Q -> Q) (n : Node.t)
      (handle : Handle.t) (e : Edge) :
  let n' := updateCropFromHandle cosDeg sinDeg n handle e in
  Node.originalWidth n' = Node.originalWidth n /\
  Node.originalHeight n' = Node.originalHeight n /\
  Node._id n' = Node._id n /\
  (Node.cropBounds n' = Node.cropBounds n \/
   exists sourceEdge delta,
     Node.cropBounds n'
     = cropEdge (Node.originalWidth n) (Node.originalHeight n)
         (Node.cropBounds n) sourceEdge delta).
Proof.
  unfold updateCropFromHandle.
  destruct (Qeq_bool _ 0); [cbn; auto |].
  destruct (getSourceEdge _ _ _ _) as [sourceEdge |]; [| cbn; auto].
  match goal with
  | |- context [applyCropBounds _ _ _ ?c ?e] =>
      destruct (applyCropBounds_cases cosDeg sinDeg n c e)
        as (W & H & I & [C | C])
  end; cbn zeta; rewrite W, H, I, C; repeat split; eauto.
Qed.

Lemma updateCropFromHandle_invariant (cosDeg sinDeg : Q -> Q) (n : Node.t)
      (handle : Handle.t) (e : Edge) :
  cropInvariant n ->
  cropInvariant (updateCropFromHandle cosDeg sinDeg n handle e).
Proof.
  unfold cropInvariant. intros H.
  destruct (updateCropFromHandle_cases cosDeg sinDeg n handle e)
    as (W & Hh & _ & [C | (se & d & C)]); rewrite W, Hh, C.
  - exact H.
  - apply cropEdge_ok. exact H.
Qed.



(* ----------------------------------------------------------------- *)
(** *** The invariant over a whole session *)

Lemma insertBy_Forall {A : Type} (P : A -> Prop) (key : A -> Z) (a : A)
      (l : list A) :
  P a -> Forall P l -> Forall P (insertBy key a l).
Proof.
  intros Ha. induction l as [| b l IH]; intros Hl; simpl.
  - constructor; [exact Ha | constructor].
  - inversion Hl; subst. destruct (key a <=? key b)%Z.
    + constructor; assumption.
    + constructor; [assumption | apply IH; assumption].
Qed.

Lemma sortBy_Forall {A : Type} (P : A -> Prop) (key : A -> Z) (l : list A) :
  Forall P l -> Forall P (sortBy key l).
Proof.
  induction l as [| a l IH]; intros H; simpl; [constructor |].
  inversion H; subst. apply insertBy_Forall; auto.
Qed.

Lemma mapiFrom_Forall {A B : Type} (P : A -> Prop) (R : B -> Prop)
      (f : A -> nat -> B) (i : nat) (l : list A) :
  (forall a k, P a -> R (f a k)) -> Forall P l -> Forall R (mapiFrom f i l).
Proof.
  intros Hf. revert i. induction l as [| a l IH]; intros i H; simpl;
    [constructor |].
  inversion H; subst. constructor; [apply Hf; assumption | apply IH; assumption].
Qed.

Lemma pop_Forall {A : Type} (P : A -> Prop) (l rest : list A) (z : A) :
  pop l = Some (z, rest) -> Forall P l -> P z /\ Forall P rest.
Proof.
  revert rest z. induction l as [| a l IH]; intros rest z H HP; [discriminate |].
  inversion HP; subst. simpl in H.
  destruct (pop l) as [[z' rest'] |] eqn:E.
  - injection H as <- <-. destruct (IH _ _ eq_refl) as [Hz Hr]; [assumption |].
    split; [exact Hz | constructor; assumption].
  - injection H as <- <-. split; [assumption | constructor].
Qed.

Lemma limitStack_Forall (P : Snapshot -> Prop) (l : list Snapshot) :
  Forall P l -> Forall P (limitStack l).
Proof.
  induction l as [| a l IH]; intros H; [constructor |].
  rewrite limitStack_cons. inversion H; subst.
  destruct (Nat.ltb _ _); [apply IH; assumption | exact H].
Qed.

Lemma captureState_invariant (s : State) :
  Forall cropInvariant (layer s) -> snapshotCropInvariant (captureState s).
Proof.
  intros H. unfold snapshotCropInvariant. rewrite captureState_images.
  unfold mapi. eapply mapiFrom_Forall; [| exact H].
  intros a k Ha. exact Ha.
Qed.

Lemma createKonvaImageFromState_invariant (i : ImgState.t) (nodeId : nat) :
  cropBoundsOk (ImgState.originalWidth i) (ImgState.originalHeight i)
    (ImgState.cropBounds i) ->
  cropInvariant (createKonvaImageFromState i nodeId).
Proof.
  intros H. unfold createKonvaImageFromState, cropInvariant.
  destruct (JS.ltb 0 _ && JS.ltb 0 _); exact H.
Qed.

Lemma restoreState_invariant (snap : Snapshot) (s : State) :
  snapshotCropInvariant snap ->
  Forall cropInvariant (layer (restoreState snap s)).
Proof.
  intros H. rewrite restoreState_layer. unfold mapi.
  eapply mapiFrom_Forall; [| apply sortBy_Forall; exact H].
  intros a k Ha. apply createKonvaImageFromState_invariant. exact Ha.
Qed.

Lemma pushUndo_invariant (s : State) :
  sessionCropInvariant s -> sessionCropInvariant (pushUndo s).
Proof.
  intros (L & U & R). unfold sessionCropInvariant, pushUndo.
  cbn [layer undoStack redoStack set_stacks].
  repeat split; [exact L | | constructor].
  apply limitStack_Forall, Forall_app. split; [exact U |].
  constructor; [apply captureState_invariant; exact L | constructor].
Qed.

Lemma updateNode_invariant (i : nat) (f : Node.t -> Node.t) (s : State) :
  (forall n, cropInvariant n -> cropInvariant (f n)) ->
  sessionCropInvariant s -> sessionCropInvariant (updateNode i f s).
Proof.
  intros Hf (L & U & R). unfold sessionCropInvariant, updateNode.
  cbn [layer undoStack redoStack set_layer].
  repeat split; [| exact U | exact R].
  apply Forall_map. eapply Forall_impl; [| exact L].
  intros n Hn. cbn beta. destruct (Nat.eqb _ _); auto.
Qed.

Lemma filter_Forall {A : Type} (P : A -> Prop) (f : A -> bool) (l : list A) :
  Forall P l -> Forall P (filter f l).
Proof.
  intros H. apply Forall_forall. intros x Hx.
  apply filter_In in Hx. destruct Hx as [Hx _].
  rewrite Forall_forall in H. auto.
Qed.

Lemma resetCropNode_invariant (n : Node.t) :
  cropInvariant n -> cropInvariant (resetCropNode n).
Proof.
  unfold cropInvariant, cropBoundsOk, resetCropNode. cbn.
  intros (? & ? & ? & ? & ? & ?). repeat split; lra.
Qed.

Lemma selected_in_layer (s : State) (node : Node.t) :
  getSelectedImage s = Some node -> In node (layer s).
Proof.
  unfold getSelectedImage. destruct (selection s); [| discriminate].
  intros H. apply find_some in H. tauto.
Qed.

(** The writes of the transform operations do not touch the crop bounds. *)
Ltac keeps_crop :=
  let n := fresh "n" in
  let H := fresh "H" in
  intros n H; exact H.

Ltac invariant_update :=
  apply updateNode_invariant;
  [ first [ keeps_crop
          | apply resetCropNode_invariant
          | intros ? ?; apply updateCropFromHandle_invariant; assumption ]
  | apply pushUndo_invariant; assumption ].

Lemma applyOp_invariant (cosDeg sinDeg : Q -> Q) (op : Op) (s : State) :
  addsUsableImage (Edit op) ->
  sessionCropInvariant s ->
  sessionCropInvariant (applyOp cosDeg sinDeg op s).
Proof.
  intros Hadd Inv.
  pose proof (pushUndo_invariant s Inv) as (PL & PU & PR).
  destruct op; cbn [applyOp];
    unfold addImage, dragImage, handleNudge, transformSelected,
      dragCropHandle, resetCrop, flipHorizontal, flipVertical, rotateLeft,
      rotateRight, duplicateImage, bringToTop, sendToBottom, dblclickImage,
      deleteSelected, setBlendMode, setOpacity, moveToTop, moveToBottom,
      destroyNode;
    try (destruct (getSelectedImage s) as [node |] eqn:Sel; [| exact Inv]);
    try (destruct (find (isNode nodeId) (layer s)) as [node |] eqn:Fnd;
         [| exact Inv]);
    try invariant_update.
  - (* add *)
    cbn in Hadd. destruct Hadd as [Hw Hh].
    repeat split; [| exact PU | exact PR].
    cbn. apply Forall_app. split; [exact PL |].
    constructor; [| constructor].
    unfold cropInvariant, cropBoundsOk. cbn. repeat split; lra.
  - (* nudge *)
    destruct (nudgeUndoPushed s), axis;
      apply updateNode_invariant; try keeps_crop;
      first [ exact Inv | repeat split; assumption ].
  - (* flip horizontal *)
    destruct (isRotatedSideways node); invariant_update.
  - (* flip vertical *)
    destruct (isRotatedSideways node); invariant_update.
  - (* duplicate *)
    repeat split; [| exact PU | exact PR].
    cbn. apply Forall_app. split; [exact PL |].
    constructor; [| constructor].
    destruct Inv as (L & _ & _). rewrite Forall_forall in L.
    exact (L node (selected_in_layer s node Sel)).
  - (* bring to top *)
    repeat split; [| exact PU | exact PR]. cbn.
    apply Forall_app. split; apply filter_Forall; exact PL.
  - (* send to bottom *)
    repeat split; [| exact PU | exact PR]. cbn.
    apply Forall_app. split; apply filter_Forall; exact PL.
  - (* double click *)
    repeat split; [| exact PU | exact PR]. cbn.
    apply Forall_app. split; apply filter_Forall; exact PL.
  - (* delete *)
    repeat split; [| exact PU | exact PR]. cbn.
    apply filter_Forall; exact PL.
Qed.

Lemma restore_session_invariant (snap : Snapshot) (u r : list Snapshot)
      (s : State) :
  snapshotCropInvariant snap ->
  Forall snapshotCropInvariant u -> Forall snapshotCropInvariant r ->
  sessionCropInvariant (restoreState snap (set_stacks u r s)).
Proof.
  intros Hs Hu Hr.
  destruct (restoreState_stacks snap (set_stacks u r s)) as [U R].
  unfold sessionCropInvariant. rewrite U, R.
  repeat split; [apply restoreState_invariant; exact Hs | exact Hu | exact Hr].
Qed.


(* ================================================================= *)
(** ** Anchoring: the edges that are not cropped stay where they are *)

Lemma trunc_compat (a b : Q) : a == b -> JS.trunc a = JS.trunc b.
Proof.
  intros H. unfold JS.trunc.
  rewrite (Qleb_comp 0 0 (Qeq_refl 0) a b H).
  rewrite (Qfloor_comp a b H), (Qceiling_comp a b H). reflexivity.
Qed.

Lemma rem_compat (a b m : Q) : a == b -> JS.rem a m == JS.rem b m.
Proof.
  intros H. unfold JS.rem.
  assert (E : a / m == b / m) by (rewrite H; reflexivity).
  rewrite (trunc_compat _ _ E), H. reflexivity.
Qed.

Lemma snapRotation_compat (a b : Q) : a == b -> snapRotation a == snapRotation b.
Proof.
  intros H. unfold snapRotation, normalizeRotation.
  assert (E1 : JS.rem a 360 + 360 == JS.rem b 360 + 360)
    by (rewrite (rem_compat a b 360 H); reflexivity).
  pose proof (rem_compat _ _ 360 E1) as E2.
  assert (E3 : JS.round (JS.rem (JS.rem a 360 + 360) 360 / 90)
               = JS.round (JS.rem (JS.rem b 360 + 360) 360 / 90)).
  { unfold JS.round. apply Qfloor_comp. rewrite E2. reflexivity. }
  rewrite E3. reflexivity.
Qed.

Lemma lookupQuadrant_upright {A : Type} (m0 m90 m180 m270 : A) (r : Q) :
  r == 0 -> lookupQuadrant m0 m90 m180 m270 (snapRotation r) = Some m0.
Proof.
  intros H. unfold lookupQuadrant.
  assert (E : Qeq_bool (snapRotation r) 0 = true).
  { apply Qeq_bool_iff. rewrite (snapRotation_compat r 0 H). reflexivity. }
  rewrite E. reflexivity.
Qed.

Lemma ltb_false (a b : Q) : b <= a -> JS.ltb a b = false.
Proof.
  intros H. destruct (JS.ltb a b) eqn:E; [| reflexivity].
  apply ltb_spec in E. lra.
Qed.

(** Upright and not flipped, each visual edge is the source edge of the
    same name. *)
Lemma getSourceEdge_upright (e : Edge) (r sx sy : Q) :
  r == 0 -> 0 < sx -> 0 < sy -> getSourceEdge e r sx sy = Some e.
Proof.
  intros Hr Hx Hy. unfold getSourceEdge, rotationMaps.
  rewrite (lookupQuadrant_upright _ _ _ _ r Hr).
  unfold flipTB, flipLR. rewrite !ltb_false by lra.
  destruct e; reflexivity.
Qed.

Lemma getVisualEdge_upright (e : Edge) (r sx sy : Q) :
  r == 0 -> 0 < sx -> 0 < sy -> getVisualEdge e r sx sy = Some e.
Proof.
  intros Hr Hx Hy. unfold getVisualEdge, visualMaps.
  rewrite (lookupQuadrant_upright _ _ _ _ r Hr).
  unfold flipTB, flipLR. rewrite !ltb_false by lra.
  destruct e; reflexivity.
Qed.

Lemma min_isMinOf (a b : Q) : isMinOf (JS.min a b) a b.
Proof.
  unfold isMinOf. destruct (min_cases a b) as [[? E] | [? E]]; rewrite E.
  - repeat split; lra.
  - repeat split; lra.
Qed.

Lemma max_isMaxOf (a b : Q) : isMaxOf (JS.max a b) a b.
Proof.
  unfold isMaxOf. destruct (max_cases a b) as [[? E] | [? E]]; rewrite E.
  - repeat split; lra.
  - repeat split; lra.
Qed.

(** The smallest and the largest of four corner coordinates. *)
Lemma min4_spec (a b c d : Q) :
  let m := min4 a b c d in
  m <= a /\ m <= b /\ m <= c /\ m <= d /\
  (m == a \/ m == b \/ m == c \/ m == d).
Proof.
  unfold min4.
  pose proof (min_isMinOf a b) as (? & ? & ?).
  pose proof (min_isMinOf (JS.min a b) c) as (? & ? & ?).
  pose proof (min_isMinOf (JS.min (JS.min a b) c) d) as (? & ? & ?).
  cbv zeta. repeat split; lra.
Qed.

Lemma max4_spec (a b c d : Q) :
  let m := max4 a b c d in
  a <= m /\ b <= m /\ c <= m /\ d <= m /\
  (m == a \/ m == b \/ m == c \/ m == d).
Proof.
  unfold max4.
  pose proof (max_isMaxOf a b) as (? & ? & ?).
  pose proof (max_isMaxOf (JS.max a b) c) as (? & ? & ?).
  pose proof (max_isMaxOf (JS.max (JS.max a b) c) d) as (? & ? & ?).
  cbv zeta. repeat split; lra.
Qed.

Section Anchoring.

Variables cosDeg sinDeg : Q -> Q.
Hypothesis trig : exactAtZero cosDeg sinDeg.

(** The client rectangle of an upright node: its edges are the smaller
    and the larger of the two transformed corner coordinates per axis. *)
Lemma upright_edges (n : Node.t) :
  Node.rotation n == 0 ->
  let r := getClientRect cosDeg sinDeg n in
  let xa := Node.x n - Node.scaleX n * Node.offsetX n in
  let xb := Node.x n + Node.scaleX n * (Node.width n - Node.offsetX n) in
  let ya := Node.y n - Node.scaleY n * Node.offsetY n in
  let yb := Node.y n + Node.scaleY n * (Node.height n - Node.offsetY n) in
  isMinOf (Rect.edge Edge.left r) xa xb /\
  isMaxOf (Rect.edge Edge.right r) xa xb /\
  isMinOf (Rect.edge Edge.top r) ya yb /\
  isMaxOf (Rect.edge Edge.bottom r) ya yb.
Proof.
  intros Hr r xa xb ya yb.
  destruct trig as [Hcos Hsin].
  pose proof (Hcos _ Hr) as Hc. pose proof (Hsin _ Hr) as Hs.
  assert (P : forall px py,
             fst (transformPoint cosDeg sinDeg n px py)
             == Node.x n + Node.scaleX n * (px - Node.offsetX n) /\
             snd (transformPoint cosDeg sinDeg n px py)
             == Node.y n + Node.scaleY n * (py - Node.offsetY n)).
  { intros px py. unfold transformPoint. cbn [fst snd].
    rewrite Hc, Hs. split; ring. }
  destruct (P 0 0) as [X1 Y1].
  destruct (P (Node.width n) 0) as [X2 Y2].
  destruct (P (Node.width n) (Node.height n)) as [X3 Y3].
  destruct (P 0 (Node.height n)) as [X4 Y4].
  unfold r, getClientRect.
  cbn [Rect.edge Rect.x Rect.y Rect.width Rect.height].
  set (p1 := transformPoint cosDeg sinDeg n 0 0) in *.
  set (p2 := transformPoint cosDeg sinDeg n (Node.width n) 0) in *.
  set (p3 := transformPoint cosDeg sinDeg n (Node.width n) (Node.height n))
    in *.
  set (p4 := transformPoint cosDeg sinDeg n 0 (Node.height n)) in *.
  pose proof (min4_spec (fst p1) (fst p2) (fst p3) (fst p4))
    as (? & ? & ? & ? & ?).
  pose proof (max4_spec (fst p1) (fst p2) (fst p3) (fst p4))
    as (? & ? & ? & ? & ?).
  pose proof (min4_spec (snd p1) (snd p2) (snd p3) (snd p4))
    as (? & ? & ? & ? & ?).
  pose proof (max4_spec (snd p1) (snd p2) (snd p3) (snd p4))
    as (? & ? & ? & ? & ?).
  unfold xa, xb, ya, yb.
  unfold isMinOf, isMaxOf. repeat split; lra.
Qed.

(** On an upright, unflipped node [applyCropBounds] returns early or
    anchors the edge opposite to the cropped one. *)
Lemma applyCropBounds_upright (n : Node.t) (c : Crop.t) (se : Edge) :
  Node.rotation n == 0 -> 0 < Node.scaleX n -> 0 < Node.scaleY n ->
  let n1 :=
    Node.set_cropGeometry c
      (Rect.mk (Crop.left c) (Crop.top c)
         (Node.originalWidth n - Crop.left c - Crop.right c)
         (Node.originalHeight n - Crop.top c - Crop.bottom c)) n in
  applyCropBounds cosDeg sinDeg n c se = n \/
  applyCropBounds cosDeg sinDeg n c se
  = keepAnchor (Edge.opposite se) (getClientRect cosDeg sinDeg n)
      (getClientRect cosDeg sinDeg n1) n1.
Proof.
  intros Hr Hsx Hsy n1. unfold applyCropBounds.
  destruct (Qeq_bool _ 0 || Qeq_bool _ 0); [left; reflexivity |].
  destruct (Qle_bool _ 0 || Qle_bool _ 0); [left; reflexivity |].
  right. fold n1.
  rewrite (getVisualEdge_upright (Edge.opposite se) (Node.rotation n1)
             (Node.scaleX n1) (Node.scaleY n1) Hr Hsx Hsy).
  reflexivity.
Qed.

(** Writing new bounds that differ on one source edge only, on an
    upright, unflipped node: every other edge of the client rectangle
    stays where it was. *)
Lemma applyCropBounds_keeps_edges (n : Node.t) (se : Edge) (v : Q) (e : Edge) :
  Node.rotation n == 0 -> 0 < Node.scaleX n -> 0 < Node.scaleY n ->
  geometryOk n ->
  e <> se ->
  let n' :=
    applyCropBounds cosDeg sinDeg n (Crop.set se v (Node.cropBounds n)) se in
  Rect.edge e (getClientRect cosDeg sinDeg n')
  == Rect.edge e (getClientRect cosDeg sinDeg n).
Proof.
  intros Hr Hsx Hsy G Hne n'. unfold n'. clear n'.
  destruct (applyCropBounds_upright n (Crop.set se v (Node.cropBounds n)) se
              Hr Hsx Hsy) as [E | E]; rewrite E; [reflexivity |].
  clear E.
  match goal with
  | |- context [keepAnchor _ _ (getClientRect _ _ ?m) _] => set (n1 := m)
  end.
  pose proof (upright_edges n Hr) as E0.
  pose proof (upright_edges n1 Hr) as E1.
  cbv zeta in E0, E1.
  remember (getClientRect cosDeg sinDeg n) as r0 eqn:Er0. clear Er0.
  remember (getClientRect cosDeg sinDeg n1) as r1 eqn:Er1. clear Er1.
  pose proof (upright_edges (keepAnchor (Edge.opposite se) r0 r1 n1) Hr)
    as E2.
  cbv zeta in E2.
  remember (getClientRect cosDeg sinDeg
              (keepAnchor (Edge.opposite se) r0 r1 n1)) as r2 eqn:Er2.
  clear Er2.
  unfold n1 in E1, E2. clear n1.
  destruct G as (Gw & Gh & Gox & Goy).
  assert (PX1 : Node.scaleX n * Node.offsetX n
                == Node.scaleX n
                   * ((Node.originalWidth n - Crop.left (Node.cropBounds n)
                       - Crop.right (Node.cropBounds n)) / 2))
    by (rewrite Gox, Gw; reflexivity).
  assert (PX2 : Node.scaleX n * Node.width n
                == Node.scaleX n
                   * (Node.originalWidth n - Crop.left (Node.cropBounds n)
                      - Crop.right (Node.cropBounds n)))
    by (rewrite Gw; reflexivity).
  assert (PY1 : Node.scaleY n * Node.offsetY n
                == Node.scaleY n
                   * ((Node.originalHeight n - Crop.top (Node.cropBounds n)
                       - Crop.bottom (Node.cropBounds n)) / 2))
    by (rewrite Goy, Gh; reflexivity).
  assert (PY2 : Node.scaleY n * Node.height n
                == Node.scaleY n
                   * (Node.originalHeight n - Crop.top (Node.cropBounds n)
                      - Crop.bottom (Node.cropBounds n)))
    by (rewrite Gh; reflexivity).
  clear Gw Gh Gox Goy.
  destruct E0 as (L0 & R0 & T0 & B0).
  destruct E1 as (L1 & R1 & T1 & B1).
  destruct E2 as (L2 & R2 & T2 & B2).
  destruct se, e; try congruence;
    match goal with
    | |- Rect.edge Edge.left _ == _ =>
        clear R0 R1 R2 T0 T1 T2 B0 B1 B2;
        rename L0 into A0, L1 into A1, L2 into A2
    | |- Rect.edge Edge.right _ == _ =>
        clear L0 L1 L2 T0 T1 T2 B0 B1 B2;
        rename R0 into A0, R1 into A1, R2 into A2
    | |- Rect.edge Edge.top _ == _ =>
        clear L0 L1 L2 R0 R1 R2 B0 B1 B2;
        rename T0 into A0, T1 into A1, T2 into A2
    | |- Rect.edge Edge.bottom _ == _ =>
        clear L0 L1 L2 R0 R1 R2 T0 T1 T2;
        rename B0 into A0, B1 into A1, B2 into A2
    end;
    unfold isMinOf, isMaxOf, keepAnchor in A0, A1, A2;
    cbn [Edge.opposite Node.x Node.y Node.scaleX Node.scaleY Node.width
         Node.height Node.offsetX Node.offsetY Node.set_x Node.set_y
         Node.set_cropGeometry Rect.width Rect.height Rect.x Rect.y
         Rect.edge Crop.set Crop.top Crop.right Crop.bottom Crop.left]
      in A0, A1, A2 |- *;
    destruct A0 as (? & ? & ?), A1 as (? & ? & ?), A2 as (? & ? & ?);
    lra.
Qed.

Lemma cropEdge_as_set (w h : Q) (c : Crop.t) (e : Edge) (delta : Q) :
  exists v, cropEdge w h c e delta = Crop.set e v c.
Proof. destruct e; eexists; reflexivity. Qed.

Lemma crop_set_other (c : Crop.t) (se e : Edge) (v : Q) :
  e <> se -> Crop.get e (Crop.set se v c) = Crop.get e c.
Proof. destruct se, e; intros H; try reflexivity; congruence. Qed.

(** The perpendicular coordinate of the position is not moved. *)
Lemma applyCropBounds_perpendicular (n : Node.t) (c : Crop.t) (se : Edge) :
  Node.rotation n == 0 -> 0 < Node.scaleX n -> 0 < Node.scaleY n ->
  let n' := applyCropBounds cosDeg sinDeg n c se in
  match se with
  | Edge.left | Edge.right => Node.y n' == Node.y n
  | Edge.top | Edge.bottom => Node.x n' == Node.x n
  end.
Proof.
  intros Hr Hsx Hsy n'. unfold n'. clear n'.
  destruct (applyCropBounds_upright n c se Hr Hsx Hsy) as [E | E];
    rewrite E; [destruct se; reflexivity |].
  destruct se; cbn; ring.
Qed.

(** The geometry assumed of a node is the one the program gives it: a crop
    change and a crop reset establish it. *)
Lemma set_cropGeometry_geometryOk (n : Node.t) (c : Crop.t) :
  geometryOk
    (Node.set_cropGeometry c
       (Rect.mk (Crop.left c) (Crop.top c)
          (Node.originalWidth n - Crop.left c - Crop.right c)
          (Node.originalHeight n - Crop.top c - Crop.bottom c)) n).
Proof. unfold geometryOk. cbn. repeat split; reflexivity. Qed.

Lemma resetCropNode_geometryOk (n : Node.t) : geometryOk (resetCropNode n).
Proof. unfold geometryOk, resetCropNode. cbn. repeat split; ring. Qed.

(** C4. When the rotation is 0 and both scales are positive, a crop
    update from one handle changes the bound of that edge only, and the
    other three edges of the node's client rectangle stay exactly where
    they were: the edge opposite to the handle is put back by the anchor
    correction, and the perpendicular axis (position, size and origin)
    is not touched. *)
Theorem crop_keeps_other_edges
        (node : Node.t) (handle : Handle.t) (visualPosition e : Edge) :
  Node.rotation node == 0 ->
  0 < Node.scaleX node -> 0 < Node.scaleY node ->
  geometryOk node ->
  e <> visualPosition ->
  let node' := updateCropFromHandle cosDeg sinDeg node handle visualPosition in
  Rect.edge e (getClientRect cosDeg sinDeg node')
  == Rect.edge e (getClientRect cosDeg sinDeg node) /\
  Crop.get e (Node.cropBounds node') = Crop.get e (Node.cropBounds node) /\
  match visualPosition with
  | Edge.left | Edge.right => Node.y node' == Node.y node
  | Edge.top | Edge.bottom => Node.x node' == Node.x node
  end.
Proof.
  intros Hr Hsx Hsy G Hne node'. unfold node', updateCropFromHandle.
  clear node'.
  destruct (Qeq_bool (Node.originalWidth node) 0).
  { repeat split; try reflexivity. destruct visualPosition; reflexivity. }
  rewrite (getSourceEdge_upright visualPosition _ _ _ Hr Hsx Hsy).
  cbv zeta.
  match goal with
  | |- context [cropEdge ?w ?h ?c ?se ?d] =>
      destruct (cropEdge_as_set w h c se d) as [v Ev]; rewrite Ev
  end.
  split; [| split].
  - apply applyCropBounds_keeps_edges; assumption.
  - destruct (applyCropBounds_cases cosDeg sinDeg node
                (Crop.set visualPosition v (Node.cropBounds node))
                visualPosition) as (_ & _ & _ & [C | C]); rewrite C.
    + reflexivity.
    + apply crop_set_other. exact Hne.
  - apply applyCropBounds_perpendicular; assumption.
Qed.

End Anchoring.

(* ================================================================= *)
(** ** Project load *)

Lemma sameSession_refl (s : State) : sameSession s s.
Proof. repeat split. Qed.

Lemma sameSession_trans (a b c : State) :
  sameSession a b -> sameSession b c -> sameSession a c.
Proof.
  unfold sameSession.
  intros (A1 & A2 & A3 & A4 & A5 & A6 & A7 & A8 & A9 & A10)
         (B1 & B2 & B3 & B4 & B5 & B6 & B7 & B8 & B9 & B10).
  repeat split; congruence.
Qed.

Lemma generateImageId_sameSession (s : State) :
  sameSession s (snd (generateImageId s)).
Proof. repeat split. Qed.

Lemma deserializeImages_sameSession (archive : Archive)
      (entries : list ImgData.t) :
  forall i loaded s s1 r,
    deserializeImages archive i entries loaded s = (s1, r) ->
    sameSession s s1.
Proof.
  induction entries as [| d entries IH]; intros i loaded s s1 r H; simpl in H.
  - injection H as <- _. apply sameSession_refl.
  - destruct (imagesFolder archive (ImgData.filename d)) as [[img |] |].
    + destruct (ImgData.id d) as [v |]; [destruct (String.eqb v "") |];
        cbn in H; apply IH in H;
        first [ exact H
              | eapply sameSession_trans; [| exact H];
                apply generateImageId_sameSession ].
    + injection H as <- _. apply sameSession_refl.
    + apply IH in H. eapply sameSession_trans; [| exact H]. repeat split.
Qed.

Lemma deserialize_sameSession (archive : Archive) (s s1 : State)
      (r : string + list ImgState.t) :
  deserializeStateFromZip archive s = (s1, r) -> sameSession s s1.
Proof.
  unfold deserializeStateFromZip.
  destruct (projectJson archive) as [entries |].
  - apply deserializeImages_sameSession.
  - intros H. injection H as <- _. apply sameSession_refl.
Qed.















(* ----------------------------------------------------------------- *)
(** *** The centre of the loaded images *)













(* ================================================================= *)
(** ** The properties on the sample session *)

Lemma normalizeRotation_compat (a b : Q) :
  a == b -> normalizeRotation a == normalizeRotation b.
Proof.
  intros H. unfold normalizeRotation.
  apply rem_compat. rewrite (rem_compat a b 360 H). reflexivity.
Qed.

Lemma quarter_exactAtZero : exactAtZero quarterCos quarterSin.
Proof.
  split; intros r H; unfold quarterCos, quarterSin;
    pose proof (normalizeRotation_compat r 0 H) as E;
    change (normalizeRotation 0) with (0 - 360 * inject_Z 0 + 360
                                       - 360 * inject_Z 1) in E.
  - assert (B : Qeq_bool (normalizeRotation r) 0 = true)
      by (apply Qeq_bool_iff; rewrite E; reflexivity).
    rewrite B. reflexivity.
  - assert (B1 : Qeq_bool (normalizeRotation r) 90 = false).
    { destruct (Qeq_bool (normalizeRotation r) 90) eqn:B; [| reflexivity].
      apply Qeq_bool_iff in B. rewrite E in B. discriminate. }
    assert (B2 : Qeq_bool (normalizeRotation r) 270 = false).
    { destruct (Qeq_bool (normalizeRotation r) 270) eqn:B; [| reflexivity].
      apply Qeq_bool_iff in B. rewrite E in B. discriminate. }
    rewrite B1, B2. reflexivity.
Qed.





Lemma crop_keeps_other_edges_witness :
  let cropped :=
    updateCropFromHandle quarterCos quarterSin Sample.node
      Sample.leftHandleIn30 Edge.left in
  Rect.edge Edge.right (getClientRect quarterCos quarterSin cropped)
  == Rect.edge Edge.right (getClientRect quarterCos quarterSin Sample.node) /\
  Crop.left (Node.cropBounds cropped) == 30.
Proof.
  intros cropped. split.
  - apply (crop_keeps_other_edges quarterCos quarterSin quarter_exactAtZero
             Sample.node Sample.leftHandleIn30 Edge.left Edge.right).
    + reflexivity.
    + reflexivity.
    + reflexivity.
    + unfold geometryOk. cbn. repeat split; reflexivity.
    + discriminate.
  - vm_compute. reflexivity.
Defined.



(** Thirty-one images added one after the other: the snapshot of the empty
    scene, the oldest, is gone and thirty remain. *)
Example thirty_one_adds :
  map (fun snap => List.length (images snap))
      (undoStack
         (run quarterCos quarterSin
            (repeat (Edit (OpAdd Sample.raster "b.png")) 31)
            (initialState Sample.stage Sample.ids)))
  = seq 1 30.
Proof. vm_compute. reflexivity. Qed.

(* ################################################################# *)
(** * Part III: further properties of the program *)

(* ================================================================= *)
(** ** Undo history *)

(** X1. An operation that pushes a snapshot empties the redo stack, so a
    [redo()] right after it does nothing, whatever was undone before. *)
Theorem redo_after_new_action_is_noop
        (cosDeg sinDeg : Q -> Q) (op : Op) (s : State) :
  pushesUndo op s = true ->
  redoStack (applyOp cosDeg sinDeg op s) = [] /\
  redo (applyOp cosDeg sinDeg op s) = applyOp cosDeg sinDeg op s.
Proof.
  intros H. destruct (pushesUndo_stacks cosDeg sinDeg op s H) as [_ R].
  split; [exact R |]. unfold redo. rewrite R. reflexivity.
Qed.

Lemma redo_after_new_action_is_noop_witness :
  let undone :=
    undo (applyOp quarterCos quarterSin OpFlipHorizontal Sample.state) in
  List.length (redoStack undone) = 1%nat /\
  redo (applyOp quarterCos quarterSin OpRotateRight undone)
  = applyOp quarterCos quarterSin OpRotateRight undone.
Proof.
  intros undone. split; [reflexivity |].
  apply (redo_after_new_action_is_noop quarterCos quarterSin OpRotateRight
           undone).
  vm_compute. reflexivity.
Defined.

Lemma pop_last {A : Type} (l rest : list A) (z : A) :
  pop l = Some (z, rest) -> l = rest ++ [z].
Proof.
  revert rest z. induction l as [| a l IH]; intros rest z H; [discriminate |].
  simpl in H. destruct (pop l) as [[z' rest'] |] eqn:E.
  - injection H as <- <-. rewrite (IH _ _ eq_refl). reflexivity.
  - injection H as <- <-. destruct l as [| b l]; [reflexivity |].
    simpl in E. destruct (pop l) as [[? ?] |]; discriminate.
Qed.

Lemma pop_nonempty {A : Type} (l : list A) :
  l <> [] -> exists z rest, pop l = Some (z, rest).
Proof.
  destruct l as [| a l]; [congruence |]. intros _. simpl.
  destruct (pop l) as [[z rest] |]; eauto.
Qed.

(** X2. [undo()] right after a [redo()] that had something to redo gives
    back the scene the [redo()] started from, and the undo stack it
    started with. *)
Theorem undo_after_redo (s : State) :
  redoStack s <> [] ->
  captureState (undo (redo s)) = captureState s /\
  undoStack (undo (redo s)) = undoStack s.
Proof.
  intros H. destruct (pop_nonempty _ H) as (next & rest & E).
  unfold redo. rewrite E.
  set (r := restoreState next
              (set_stacks (undoStack s ++ [captureState s]) rest s)).
  destruct (restoreState_stacks next
              (set_stacks (undoStack s ++ [captureState s]) rest s))
    as [U R].
  fold r in U, R. cbn [undoStack redoStack set_stacks] in U, R.
  unfold undo. rewrite U, pop_app.
  destruct (restoreState_stacks (captureState s)
              (set_stacks (undoStack s) (redoStack r ++ [captureState r]) r))
    as [U' _].
  split; [apply capture_restore, captureState_canonical | exact U'].
Qed.

Lemma undo_after_redo_witness :
  let undone :=
    undo (applyOp quarterCos quarterSin OpRotateRight Sample.state) in
  captureState (undo (redo undone)) = captureState undone.
Proof.
  intros undone.
  apply (undo_after_redo undone). vm_compute. discriminate.
Defined.




Lemma applyOps_app (cosDeg sinDeg : Q -> Q) (a b : list Op) (s : State) :
  applyOps cosDeg sinDeg (a ++ b) s
  = applyOps cosDeg sinDeg b (applyOps cosDeg sinDeg a s).
Proof. unfold applyOps. apply fold_left_app. Qed.







(** X4. Whatever its length, the array that the [while] loop of [pushUndo]
    leaves is the last 30 entries of the one it was given, in order. *)
Theorem limitStack_keeps_newest (l : list Snapshot) :
  limitStack l = skipn (List.length l - 30) l /\
  List.length (limitStack l) = Nat.min (List.length l) 30.
Proof.
  assert (E : limitStack l = skipn (List.length l - 30) l).
  { induction l as [| a l IH]; [reflexivity |].
    rewrite limitStack_cons. unfold MAX_UNDO_LEVELS.
    destruct (Nat.ltb 30 (List.length (a :: l))) eqn:B.
    - apply Nat.ltb_lt in B. rewrite IH. simpl in B.
      replace (List.length (a :: l) - 30)%nat
        with (S (List.length l - 30)) by (simpl; lia).
      reflexivity.
    - apply Nat.ltb_ge in B.
      replace (List.length (a :: l) - 30)%nat with 0%nat by lia.
      reflexivity. }
  split; [exact E |]. rewrite E, length_skipn. lia.
Qed.

(* ================================================================= *)
(** ** Project load: failure and undo *)

Lemma loadProject_failure (archive : Archive) (s s1 : State) (msg : string) :
  deserializeStateFromZip archive s = (s1, inl msg) ->
  let s' := loadProject archive s in
  layer s' = layer s /\ selection s' = selection s /\
  undoStack s' = undoStack s /\ redoStack s' = redoStack s /\
  imageCount s' = imageCount s /\
  alerts s' = alerts s ++ [("Failed to load project: " ++ msg)%string].
Proof.
  intros H s'. unfold s', loadProject. rewrite H.
  destruct (deserialize_sameSession _ _ _ _ H)
    as (L & S & U & R & C & _ & _ & _ & _ & A).
  cbn [layer selection undoStack redoStack imageCount alerts alert].
  rewrite A. repeat split; assumption.
Qed.

Lemma deserializeImages_corrupt (archive : Archive) (entries : list ImgData.t) :
  (exists d, In d entries /\
             imagesFolder archive (ImgData.filename d) = Some Corrupt) ->
  forall i loaded s,
  exists s1 d,
    In d entries /\
    imagesFolder archive (ImgData.filename d) = Some Corrupt /\
    deserializeImages archive i entries loaded s
    = (s1, inl ("Failed to load image: " ++ ImgData.filename d)%string).
Proof.
  induction entries as [| e entries IH]; intros (d & Hin & Hc) i loaded s.
  - destruct Hin.
  - cbn [deserializeImages].
    destruct (imagesFolder archive (ImgData.filename e)) as [[img |] |] eqn:F.
    + destruct Hin as [-> | Hin]; [congruence |].
      destruct (match ImgData.id e with
                | Some v =>
                    if String.eqb v "" then generateImageId s else (v, s)
                | None => generateImageId s
                end) as [newId s0].
      match goal with
      | |- context [deserializeImages archive (S i) entries ?l s0] =>
          destruct (IH (ex_intro _ d (conj Hin Hc)) (S i) l s0)
            as (s1 & d' & In' & C' & E')
      end.
      exists s1, d'. repeat split; [right; exact In' | exact C' | exact E'].
    + exists s, e. repeat split; [left; reflexivity | exact F].
    + destruct Hin as [-> | Hin]; [congruence |].
      match goal with
      | |- context [deserializeImages archive (S i) entries loaded ?s0] =>
          destruct (IH (ex_intro _ d (conj Hin Hc)) (S i) loaded s0)
            as (s1 & d' & In' & C' & E')
      end.
      exists s1, d'. repeat split; [right; exact In' | exact C' | exact E'].
Qed.

(** X5. An image file that does not decode aborts the whole load, whatever
    the other entries are: the user gets an alert naming a file that failed,
    no image of the archive is merged, the selection stays and no snapshot
    is pushed. *)
Theorem undecodable_image_aborts_load
        (archive : Archive) (entries : list ImgData.t) (s : State) :
  projectJson archive = Some entries ->
  (exists d, In d entries /\
             imagesFolder archive (ImgData.filename d) = Some Corrupt) ->
  let s' := loadProject archive s in
  layer s' = layer s /\ selection s' = selection s /\
  undoStack s' = undoStack s /\ redoStack s' = redoStack s /\
  exists d,
    In d entries /\
    imagesFolder archive (ImgData.filename d) = Some Corrupt /\
    alerts s'
    = alerts s
      ++ [("Failed to load project: Failed to load image: "
             ++ ImgData.filename d)%string].
Proof.
  intros H Hc s'.
  destruct (deserializeImages_corrupt archive entries Hc 0 [] s)
    as (s1 & d & Hin & Hd & E).
  assert (D : deserializeStateFromZip archive s
              = (s1, inl ("Failed to load image: "
                            ++ ImgData.filename d)%string))
    by (unfold deserializeStateFromZip; rewrite H; exact E).
  destruct (loadProject_failure archive s s1 _ D) as (L & S & U & R & _ & A).
  fold s' in L, S, U, R, A.
  repeat split; try assumption.
  exists d. repeat split; assumption.
Qed.

Lemma undecodable_image_aborts_load_witness :
  let archive :=
    {| projectJson :=
         Some [SampleArchive.entry "0.png" 10 20;
               SampleArchive.entry "1.png" 50 60];
       imagesFolder := fun file =>
         if String.eqb file "0.png" then Some (Decodes Sample.raster)
         else Some Corrupt |} in
  layer (loadProject archive Sample.state) = layer Sample.state /\
  undoStack (loadProject archive Sample.state) = [].
Proof.
  intros archive.
  destruct (undecodable_image_aborts_load archive _ Sample.state eq_refl)
    as (L & _ & U & _).
  - exists (SampleArchive.entry "1.png" 50 60).
    split; [right; left; reflexivity | reflexivity].
  - split; [exact L | exact U].
Defined.



(* ================================================================= *)
(** ** Geometry at every quarter turn and flip *)

Lemma round_compat (a b : Q) : a == b -> JS.round a = JS.round b.
Proof.
  intros H. unfold JS.round. apply Qfloor_comp. rewrite H. reflexivity.
Qed.

(** At a quarter turn every table lookup hits the entry of that turn. *)
Lemma lookupQuadrant_atTurn {A : Type} (m0 m90 m180 m270 : A) (q : Turn)
      (r : Q) :
  atTurn q r ->
  lookupQuadrant m0 m90 m180 m270 (snapRotation r)
  = Some match q with
         | Turn0 => m0 | Turn90 => m90 | Turn180 => m180 | Turn270 => m270
         end.
Proof.
  unfold atTurn, snapRotation. intros H.
  assert (E : JS.round (normalizeRotation r / 90)
              = JS.round (turnAngle q / 90))
    by (apply round_compat; rewrite H; reflexivity).
  rewrite E. destruct q; vm_compute; reflexivity.
Qed.

Lemma quarter_exactAtQuarterTurns : exactAtQuarterTurns quarterCos quarterSin.
Proof.
  intros q r H. unfold atTurn in H. unfold quarterCos, quarterSin.
  assert (B : forall c, Qeq_bool (normalizeRotation r) c
                        = Qeq_bool (turnAngle q) c).
  { intros c. destruct (Qeq_bool (turnAngle q) c) eqn:E.
    - apply Qeq_bool_iff. apply Qeq_bool_iff in E. rewrite H. exact E.
    - destruct (Qeq_bool (normalizeRotation r) c) eqn:E'; [| reflexivity].
      apply Qeq_bool_iff in E'. rewrite H in E'.
      apply Qeq_bool_iff in E'. congruence. }
  rewrite !B. destruct q; split; reflexivity.
Qed.

Section QuarterTurns.

Variables cosDeg sinDeg : Q -> Q.
Hypothesis trig : exactAtQuarterTurns cosDeg sinDeg.

Lemma corner_atTurn (q : Turn) (n : Node.t) (px py : Q) :
  atTurn q (Node.rotation n) ->
  fst (transformPoint cosDeg sinDeg n px py)
  == Node.x n
     + (Node.scaleX n * (px - Node.offsetX n) * turnCos q
        - Node.scaleY n * (py - Node.offsetY n) * turnSin q) /\
  snd (transformPoint cosDeg sinDeg n px py)
  == Node.y n
     + (Node.scaleX n * (px - Node.offsetX n) * turnSin q
        + Node.scaleY n * (py - Node.offsetY n) * turnCos q).
Proof.
  intros H. destruct (trig q _ H) as [Hc Hs].
  unfold transformPoint. cbn [fst snd]. rewrite Hc, Hs. split; reflexivity.
Qed.

(** The client rectangle of a node at a quarter turn. *)
Lemma quarter_edges (q : Turn) (n : Node.t) :
  atTurn q (Node.rotation n) ->
  let r := getClientRect cosDeg sinDeg n in
  isMinOf (Rect.edge Edge.left r) (fst (spanX q n)) (snd (spanX q n)) /\
  isMaxOf (Rect.edge Edge.right r) (fst (spanX q n)) (snd (spanX q n)) /\
  isMinOf (Rect.edge Edge.top r) (fst (spanY q n)) (snd (spanY q n)) /\
  isMaxOf (Rect.edge Edge.bottom r) (fst (spanY q n)) (snd (spanY q n)).
Proof.
  intros H r.
  destruct (corner_atTurn q n 0 0 H) as [X1 Y1].
  destruct (corner_atTurn q n (Node.width n) 0 H) as [X2 Y2].
  destruct (corner_atTurn q n (Node.width n) (Node.height n) H) as [X3 Y3].
  destruct (corner_atTurn q n 0 (Node.height n) H) as [X4 Y4].
  unfold r, getClientRect.
  cbn [Rect.edge Rect.x Rect.y Rect.width Rect.height].
  set (p1 := transformPoint cosDeg sinDeg n 0 0) in *.
  set (p2 := transformPoint cosDeg sinDeg n (Node.width n) 0) in *.
  set (p3 := transformPoint cosDeg sinDeg n (Node.width n) (Node.height n))
    in *.
  set (p4 := transformPoint cosDeg sinDeg n 0 (Node.height n)) in *.
  pose proof (min4_spec (fst p1) (fst p2) (fst p3) (fst p4))
    as (? & ? & ? & ? & ?).
  pose proof (max4_spec (fst p1) (fst p2) (fst p3) (fst p4))
    as (? & ? & ? & ? & ?).
  pose proof (min4_spec (snd p1) (snd p2) (snd p3) (snd p4))
    as (? & ? & ? & ? & ?).
  pose proof (max4_spec (snd p1) (snd p2) (snd p3) (snd p4))
    as (? & ? & ? & ? & ?).
  clear H. unfold isMinOf, isMaxOf.
  destruct q; cbn [spanX spanY fst snd turnCos turnSin] in *;
    repeat split; lra.
Qed.

End QuarterTurns.

(** The edge tables at a quarter turn: the handle's source edge exists,
    the anchor that [applyCropBounds] computes for it is the visual edge
    opposite to the handle, and the source edge lies on the source axis
    that is drawn along the handle's visual axis. *)
Lemma edge_tables_atTurn (q : Turn) (vp : Edge) (r sx sy : Q) :
  atTurn q r ->
  exists se,
    getSourceEdge vp r sx sy = Some se /\
    getVisualEdge (Edge.opposite se) r sx sy = Some (Edge.opposite vp) /\
    isHorizontalEdge se = xorb (swapsAxes q) (isHorizontalEdge vp).
Proof.
  intros H. unfold getSourceEdge, getVisualEdge, rotationMaps, visualMaps.
  cbv zeta. rewrite !(lookupQuadrant_atTurn _ _ _ _ q r H).
  unfold flipLR, flipTB.
  destruct (JS.ltb sx 0), (JS.ltb sy 0), q, vp;
    eexists; repeat split; reflexivity.
Qed.

Section QuarterTurnAnchoring.

Variables cosDeg sinDeg : Q -> Q.
Hypothesis trig : exactAtQuarterTurns cosDeg sinDeg.

Lemma applyCropBounds_anchored (n : Node.t) (c : Crop.t) (se va : Edge) :
  getVisualEdge (Edge.opposite se) (Node.rotation n) (Node.scaleX n)
    (Node.scaleY n) = Some va ->
  let n1 :=
    Node.set_cropGeometry c
      (Rect.mk (Crop.left c) (Crop.top c)
         (Node.originalWidth n - Crop.left c - Crop.right c)
         (Node.originalHeight n - Crop.top c - Crop.bottom c)) n in
  applyCropBounds cosDeg sinDeg n c se = n \/
  applyCropBounds cosDeg sinDeg n c se
  = keepAnchor va (getClientRect cosDeg sinDeg n)
      (getClientRect cosDeg sinDeg n1) n1.
Proof.
  intros Hv n1. unfold applyCropBounds.
  destruct (Qeq_bool _ 0 || Qeq_bool _ 0); [left; reflexivity |].
  destruct (Qle_bool _ 0 || Qle_bool _ 0); [left; reflexivity |].
  right. fold n1.
  change (Node.rotation n1) with (Node.rotation n).
  change (Node.scaleX n1) with (Node.scaleX n).
  change (Node.scaleY n1) with (Node.scaleY n).
  rewrite Hv. reflexivity.
Qed.

(** New bounds that differ on one source edge, with the anchor on the
    visual axis along which that source edge is drawn: every visual edge
    but the one opposite to the anchor stays where it was. *)
Lemma keepAnchor_keeps_edges (q : Turn) (n : Node.t) (se va : Edge) (v : Q)
      (e : Edge) :
  atTurn q (Node.rotation n) ->
  geometryOk n ->
  isHorizontalEdge se = xorb (swapsAxes q) (isHorizontalEdge va) ->
  e <> Edge.opposite va ->
  let c := Crop.set se v (Node.cropBounds n) in
  let n1 :=
    Node.set_cropGeometry c
      (Rect.mk (Crop.left c) (Crop.top c)
         (Node.originalWidth n - Crop.left c - Crop.right c)
         (Node.originalHeight n - Crop.top c - Crop.bottom c)) n in
  Rect.edge e
    (getClientRect cosDeg sinDeg
       (keepAnchor va (getClientRect cosDeg sinDeg n)
          (getClientRect cosDeg sinDeg n1) n1))
  == Rect.edge e (getClientRect cosDeg sinDeg n).
Proof.
  intros Hq G Hax Hne c n1.
  pose proof (quarter_edges cosDeg sinDeg trig q n Hq) as E0.
  pose proof (quarter_edges cosDeg sinDeg trig q n1 Hq) as E1.
  cbv zeta in E0, E1.
  remember (getClientRect cosDeg sinDeg n) as r0 eqn:Er0. clear Er0.
  remember (getClientRect cosDeg sinDeg n1) as r1 eqn:Er1. clear Er1.
  pose proof (quarter_edges cosDeg sinDeg trig q (keepAnchor va r0 r1 n1) Hq)
    as E2.
  cbv zeta in E2.
  remember (getClientRect cosDeg sinDeg (keepAnchor va r0 r1 n1)) as r2
    eqn:Er2.
  clear Er2.
  unfold n1, c in E1, E2. clear n1 c. clear Hq.
  destruct G as (Gw & Gh & Gox & Goy).
  assert (PX1 : Node.scaleX n * Node.offsetX n
                == Node.scaleX n
                   * ((Node.originalWidth n - Crop.left (Node.cropBounds n)
                       - Crop.right (Node.cropBounds n)) / 2))
    by (rewrite Gox, Gw; reflexivity).
  assert (PX2 : Node.scaleX n * Node.width n
                == Node.scaleX n
                   * (Node.originalWidth n - Crop.left (Node.cropBounds n)
                      - Crop.right (Node.cropBounds n)))
    by (rewrite Gw; reflexivity).
  assert (PY1 : Node.scaleY n * Node.offsetY n
                == Node.scaleY n
                   * ((Node.originalHeight n - Crop.top (Node.cropBounds n)
                       - Crop.bottom (Node.cropBounds n)) / 2))
    by (rewrite Goy, Gh; reflexivity).
  assert (PY2 : Node.scaleY n * Node.height n
                == Node.scaleY n
                   * (Node.originalHeight n - Crop.top (Node.cropBounds n)
                      - Crop.bottom (Node.cropBounds n)))
    by (rewrite Gh; reflexivity).
  clear Gw Gh Gox Goy.
  destruct E0 as (L0 & R0 & T0 & B0).
  destruct E1 as (L1 & R1 & T1 & B1).
  destruct E2 as (L2 & R2 & T2 & B2).
  destruct q, se, va; try discriminate Hax; clear Hax;
    destruct e; cbn [Edge.opposite] in Hne; try congruence; clear Hne;
    match goal with
    | |- Rect.edge Edge.left _ == _ =>
        clear R0 R1 R2 T0 T1 T2 B0 B1 B2;
        rename L0 into A0, L1 into A1, L2 into A2
    | |- Rect.edge Edge.right _ == _ =>
        clear L0 L1 L2 T0 T1 T2 B0 B1 B2;
        rename R0 into A0, R1 into A1, R2 into A2
    | |- Rect.edge Edge.top _ == _ =>
        clear L0 L1 L2 R0 R1 R2 B0 B1 B2;
        rename T0 into A0, T1 into A1, T2 into A2
    | |- Rect.edge Edge.bottom _ == _ =>
        clear L0 L1 L2 R0 R1 R2 T0 T1 T2;
        rename B0 into A0, B1 into A1, B2 into A2
    end;
    unfold isMinOf, isMaxOf, keepAnchor in A0, A1, A2;
    cbn [spanX spanY fst snd
         Edge.opposite Node.x Node.y Node.scaleX Node.scaleY Node.width
         Node.height Node.offsetX Node.offsetY Node.set_x Node.set_y
         Node.set_cropGeometry Rect.width Rect.height Rect.x Rect.y
         Rect.edge Crop.set Crop.top Crop.right Crop.bottom Crop.left]
      in A0, A1, A2 |- *;
    destruct A0 as (? & ? & ?), A1 as (? & ? & ?), A2 as (? & ? & ?);
    lra.
Qed.

End QuarterTurnAnchoring.

Lemma isHorizontalEdge_opposite (e : Edge) :
  isHorizontalEdge (Edge.opposite e) = isHorizontalEdge e.
Proof. destruct e; reflexivity. Qed.

Lemma opposite_involutive (e : Edge) : Edge.opposite (Edge.opposite e) = e.
Proof. destruct e; reflexivity. Qed.

Lemma ltb_cases (a b : Q) :
  (JS.ltb a b = true /\ a < b) \/ (JS.ltb a b = false /\ b <= a).
Proof.
  destruct (JS.ltb a b) eqn:E.
  - left. split; [reflexivity | apply ltb_spec; exact E].
  - right. split; [reflexivity |].
    destruct (Qlt_le_dec a b) as [H | H]; [| exact H].
    apply ltb_spec in H. congruence.
Qed.

Lemma mult_nonneg_nonneg (a b : Q) : 0 <= a -> 0 <= b -> 0 <= a * b.
Proof. intros. apply Qmult_le_0_compat; assumption. Qed.

Lemma mult_nonpos_nonneg (a b : Q) : a <= 0 -> 0 <= b -> a * b <= 0.
Proof.
  intros Ha Hb.
  assert (H : 0 <= (- a) * b) by (apply Qmult_le_0_compat; lra).
  lra.
Qed.

Lemma getSourceEdge_atTurn (q : Turn) (vp : Edge) (r sx sy : Q) :
  atTurn q r ->
  getSourceEdge vp r sx sy
  = Some (flipTB sy (flipLR sx
            (match q with
             | Turn0 => edgeTable Edge.top Edge.right Edge.bottom Edge.left
             | Turn90 => edgeTable Edge.left Edge.top Edge.right Edge.bottom
             | Turn180 => edgeTable Edge.bottom Edge.left Edge.top Edge.right
             | Turn270 => edgeTable Edge.right Edge.bottom Edge.left Edge.top
             end vp))).
Proof.
  intros H. unfold getSourceEdge, rotationMaps. cbv zeta.
  rewrite (lookupQuadrant_atTurn _ _ _ _ q r H). reflexivity.
Qed.

Section QuarterTurnTheorems.

Variables cosDeg sinDeg : Q -> Q.
Hypothesis trig : exactAtQuarterTurns cosDeg sinDeg.

(** X7. At every quarter turn (0, 90, 180 or 270 degrees, whatever
    multiple of 360 is added) and with every combination of flips, a crop
    update from one handle leaves the other three edges of the node's
    client rectangle exactly where they were, and changes no bound other
    than the one of the handle's source edge. *)
Theorem crop_keeps_other_edges_at_quarter_turns
        (q : Turn) (node : Node.t) (handle : Handle.t)
        (visualPosition e : Edge) :
  atTurn q (Node.rotation node) ->
  geometryOk node ->
  e <> visualPosition ->
  let node' := updateCropFromHandle cosDeg sinDeg node handle visualPosition in
  Rect.edge e (getClientRect cosDeg sinDeg node')
  == Rect.edge e (getClientRect cosDeg sinDeg node) /\
  exists sourceEdge,
    getSourceEdge visualPosition (Node.rotation node) (Node.scaleX node)
      (Node.scaleY node) = Some sourceEdge /\
    forall e', e' <> sourceEdge ->
      Crop.get e' (Node.cropBounds node') = Crop.get e' (Node.cropBounds node).
Proof.
  intros Hq G Hne node'.
  destruct (edge_tables_atTurn q visualPosition (Node.rotation node)
              (Node.scaleX node) (Node.scaleY node) Hq)
    as (se & Hs & Hv & Hax).
  unfold node', updateCropFromHandle. clear node'.
  destruct (Qeq_bool (Node.originalWidth node) 0).
  { split; [reflexivity |]. exists se. split; [exact Hs | reflexivity]. }
  rewrite Hs. cbv zeta.
  match goal with
  | |- context [cropEdge ?w ?h ?c ?se ?d] =>
      destruct (cropEdge_as_set w h c se d) as [v Ev]; rewrite Ev
  end.
  split.
  - destruct (applyCropBounds_anchored cosDeg sinDeg node
                (Crop.set se v (Node.cropBounds node)) se
                (Edge.opposite visualPosition) Hv) as [E | E];
      rewrite E; [reflexivity |].
    apply (keepAnchor_keeps_edges cosDeg sinDeg trig q); try assumption.
    + rewrite isHorizontalEdge_opposite. exact Hax.
    + rewrite opposite_involutive. exact Hne.
  - exists se. split; [reflexivity |]. intros e' He'.
    destruct (applyCropBounds_cases cosDeg sinDeg node
                (Crop.set se v (Node.cropBounds node)) se)
      as (_ & _ & _ & [C | C]); rewrite C.
    + reflexivity.
    + apply crop_set_other. exact He'.
Qed.

(** X8. The edge tables agree with the drawing: at every quarter turn and
    with every combination of flips, the source edge that [getSourceEdge]
    returns for a handle is the edge of the image that is drawn along
    that handle's side of the client rectangle. *)
Theorem source_edge_is_drawn_at_handle
        (q : Turn) (node : Node.t) (visualPosition sourceEdge : Edge)
        (t : Q) :
  atTurn q (Node.rotation node) ->
  0 <= Node.width node -> 0 <= Node.height node ->
  getSourceEdge visualPosition (Node.rotation node) (Node.scaleX node)
    (Node.scaleY node) = Some sourceEdge ->
  let p := pointOnEdge sourceEdge node t in
  coordinateFor visualPosition
    (transformPoint cosDeg sinDeg node (fst p) (snd p))
  == Rect.edge visualPosition (getClientRect cosDeg sinDeg node).
Proof.
  intros Hq Hw Hh Hs p.
  pose proof (quarter_edges cosDeg sinDeg trig q node Hq) as E.
  cbv zeta in E. destruct E as (L & R & T & B).
  pose proof (corner_atTurn cosDeg sinDeg trig q node) as P.
  rewrite (getSourceEdge_atTurn q _ _ _ _ Hq) in Hs.
  injection Hs as Hs. unfold p. clear p. subst sourceEdge.
  remember (getClientRect cosDeg sinDeg node) as r eqn:Er. clear Er.
  unfold flipLR, flipTB.
  destruct (ltb_cases (Node.scaleX node) 0) as [[Ex Sx] | [Ex Sx]];
    destruct (ltb_cases (Node.scaleY node) 0) as [[Ey Sy] | [Ey Sy]];
    rewrite Ex, Ey; clear Ex Ey;
    [ pose proof (mult_nonpos_nonneg _ _ (Qlt_le_weak _ _ Sx) Hw);
      pose proof (mult_nonpos_nonneg _ _ (Qlt_le_weak _ _ Sy) Hh)
    | pose proof (mult_nonpos_nonneg _ _ (Qlt_le_weak _ _ Sx) Hw);
      pose proof (mult_nonneg_nonneg _ _ Sy Hh)
    | pose proof (mult_nonneg_nonneg _ _ Sx Hw);
      pose proof (mult_nonpos_nonneg _ _ (Qlt_le_weak _ _ Sy) Hh)
    | pose proof (mult_nonneg_nonneg _ _ Sx Hw);
      pose proof (mult_nonneg_nonneg _ _ Sy Hh) ];
    clear Sx Sy Hw Hh;
    destruct q, visualPosition;
    cbn [edgeTable pointOnEdge coordinateFor isHorizontalEdge fst snd];
    match goal with
    | |- fst (transformPoint _ _ _ ?px ?py) == Rect.edge Edge.left _ =>
        destruct (P px py Hq) as [A _]; clear P R T B Hq;
        unfold isMinOf in L; destruct L as (? & ? & ?)
    | |- fst (transformPoint _ _ _ ?px ?py) == Rect.edge Edge.right _ =>
        destruct (P px py Hq) as [A _]; clear P L T B Hq;
        unfold isMaxOf in R; destruct R as (? & ? & ?)
    | |- snd (transformPoint _ _ _ ?px ?py) == Rect.edge Edge.top _ =>
        destruct (P px py Hq) as [_ A]; clear P L R B Hq;
        unfold isMinOf in T; destruct T as (? & ? & ?)
    | |- snd (transformPoint _ _ _ ?px ?py) == Rect.edge Edge.bottom _ =>
        destruct (P px py Hq) as [_ A]; clear P L R T Hq;
        unfold isMaxOf in B; destruct B as (? & ? & ?)
    end;
    rewrite A; clear A;
    cbn [spanX spanY fst snd turnCos turnSin Rect.edge] in *;
    lra.
Qed.

End QuarterTurnTheorems.

(* ================================================================= *)
(** ** Where the dragged edge goes *)

Lemma Qeq_bool_false (a b : Q) : ~ a == b -> Qeq_bool a b = false.
Proof.
  intros H. destruct (Qeq_bool a b) eqn:E; [| reflexivity].
  apply Qeq_bool_iff in E. contradiction.
Qed.

Lemma Qle_bool_false (a b : Q) : b < a -> Qle_bool a b = false.
Proof.
  intros H. destruct (Qle_bool a b) eqn:E; [| reflexivity].
  apply Qle_bool_iff in E. lra.
Qed.

(** A bound strictly inside its range was not clamped. *)
Lemma clampBound_unclamped (dimension opposite current delta : Q) :
  0 < clampBound dimension opposite current delta ->
  clampBound dimension opposite current delta
  < dimension - opposite - minSize ->
  clampBound dimension opposite current delta = current + delta.
Proof.
  unfold clampBound.
  destruct (min_cases (dimension - opposite - minSize) (current + delta))
    as [[? E] | [? E]]; rewrite E;
    match goal with
    | |- context [JS.max 0 ?v] =>
        destruct (max_cases 0 v) as [[? E'] | [? E']]; rewrite E'
    end; intros; try reflexivity; lra.
Qed.

Lemma updateCropFromHandle_unfold (cosDeg sinDeg : Q -> Q) (n : Node.t)
      (handle : Handle.t) (vp se : Edge) :
  Qeq_bool (Node.originalWidth n) 0 = false ->
  getSourceEdge vp (Node.rotation n) (Node.scaleX n) (Node.scaleY n)
  = Some se ->
  updateCropFromHandle cosDeg sinDeg n handle vp
  = applyCropBounds cosDeg sinDeg n
      (cropEdge (Node.originalWidth n) (Node.originalHeight n)
         (Node.cropBounds n) se (sourceDelta cosDeg sinDeg n handle vp)) se.
Proof.
  intros Hw Hs. unfold updateCropFromHandle. rewrite Hw, Hs. reflexivity.
Qed.

(** With bounds that satisfy the invariant, [applyCropBounds] does not
    return early. *)
Lemma applyCropBounds_applies (cosDeg sinDeg : Q -> Q) (n : Node.t)
      (c : Crop.t) (se va : Edge) :
  cropBoundsOk (Node.originalWidth n) (Node.originalHeight n) c ->
  getVisualEdge (Edge.opposite se) (Node.rotation n) (Node.scaleX n)
    (Node.scaleY n) = Some va ->
  let n1 :=
    Node.set_cropGeometry c
      (Rect.mk (Crop.left c) (Crop.top c)
         (Node.originalWidth n - Crop.left c - Crop.right c)
         (Node.originalHeight n - Crop.top c - Crop.bottom c)) n in
  applyCropBounds cosDeg sinDeg n c se
  = keepAnchor va (getClientRect cosDeg sinDeg n)
      (getClientRect cosDeg sinDeg n1) n1.
Proof.
  intros (Ht & Hr & Hb & Hl & Hv & Hh) Hva n1. unfold applyCropBounds.
  rewrite (Qeq_bool_false (Node.originalWidth n) 0) by lra.
  rewrite (Qeq_bool_false (Node.originalHeight n) 0) by lra.
  rewrite (Qle_bool_false
             (Node.originalWidth n - Crop.left c - Crop.right c) 0) by lra.
  rewrite (Qle_bool_false
             (Node.originalHeight n - Crop.top c - Crop.bottom c) 0) by lra.
  cbn [orb]. fold n1.
  change (Node.rotation n1) with (Node.rotation n).
  change (Node.scaleX n1) with (Node.scaleX n).
  change (Node.scaleY n1) with (Node.scaleY n).
  rewrite Hva. reflexivity.
Qed.

Section QuarterTurnExtent.

Variables cosDeg sinDeg : Q -> Q.
Hypothesis trig : exactAtQuarterTurns cosDeg sinDeg.

(** The client rectangle of a node at a quarter turn has the size of the
    node's rectangle times the absolute scales, with width and height
    exchanged at 90 and 270 degrees. *)
Lemma extent_atTurn (q : Turn) (n : Node.t) :
  atTurn q (Node.rotation n) ->
  0 <= Node.width n -> 0 <= Node.height n ->
  let r := getClientRect cosDeg sinDeg n in
  Rect.width r
  == (if swapsAxes q then JS.abs (Node.scaleY n) * Node.height n
      else JS.abs (Node.scaleX n) * Node.width n) /\
  Rect.height r
  == (if swapsAxes q then JS.abs (Node.scaleX n) * Node.width n
      else JS.abs (Node.scaleY n) * Node.height n).
Proof.
  intros Hq Hw Hh r.
  pose proof (quarter_edges cosDeg sinDeg trig q n Hq) as E.
  cbv zeta in E. fold r in E. clearbody r.
  destruct E as (L & R & T & B).
  unfold isMinOf, isMaxOf in *.
  destruct L as (? & ? & ?), R as (? & ? & ?), T as (? & ? & ?),
           B as (? & ? & ?).
  destruct (abs_cases (Node.scaleX n)) as [[Sx Ax] | [Sx Ax]];
    destruct (abs_cases (Node.scaleY n)) as [[Sy Ay] | [Sy Ay]];
    rewrite Ax, Ay; clear Ax Ay;
    [ pose proof (mult_nonneg_nonneg _ _ Sx Hw);
      pose proof (mult_nonneg_nonneg _ _ Sy Hh)
    | pose proof (mult_nonneg_nonneg _ _ Sx Hw);
      pose proof (mult_nonpos_nonneg _ _ (Qlt_le_weak _ _ Sy) Hh)
    | pose proof (mult_nonpos_nonneg _ _ (Qlt_le_weak _ _ Sx) Hw);
      pose proof (mult_nonneg_nonneg _ _ Sy Hh)
    | pose proof (mult_nonpos_nonneg _ _ (Qlt_le_weak _ _ Sx) Hw);
      pose proof (mult_nonpos_nonneg _ _ (Qlt_le_weak _ _ Sy) Hh) ];
    clear Sx Sy Hw Hh Hq;
    destruct q;
    cbn [swapsAxes spanX spanY fst snd Rect.edge] in *;
    split; lra.
Qed.

End QuarterTurnExtent.

Lemma cropEdge_clamp (w h : Q) (c : Crop.t) (se : Edge) (delta : Q) :
  cropEdge w h c se delta
  = Crop.set se
      (clampBound (if isHorizontalEdge se then w else h)
         (Crop.get (Edge.opposite se) c) (Crop.get se c) delta) c.
Proof. destruct se; reflexivity. Qed.

Lemma crop_get_set (c : Crop.t) (e : Edge) (v : Q) :
  Crop.get e (Crop.set e v c) = v.
Proof. destruct e; reflexivity. Qed.

Lemma abs_nonzero (x : Q) : ~ x == 0 -> ~ JS.abs x == 0.
Proof.
  intros H. destruct (abs_cases x) as [[? E] | [? E]]; rewrite E; lra.
Qed.

Lemma displacement_arith (D S d vd e0 e2 hc : Q) :
  D * d == vd ->
  (e2 - e0 == S * d /\ vd == hc - e0) \/
  (e0 - e2 == S * d /\ vd == e0 - hc) ->
  D * (e2 - e0) == S * (hc - e0).
Proof.
  intros F [[A B] | [A B]].
  - setoid_replace (hc - e0) with (D * d) by (rewrite F, B; reflexivity).
    rewrite A. ring.
  - setoid_replace (hc - e0) with (- (D * d)) by (rewrite F, B; ring).
    setoid_replace (e2 - e0) with (- (S * d)) by (rewrite <- A; ring).
    ring.
Qed.

Lemma visualDelta_inward (cosDeg sinDeg : Q -> Q) (n : Node.t)
      (handle : Handle.t) (vp : Edge) :
  let e0 := Rect.edge vp (getClientRect cosDeg sinDeg n) in
  let vd := visualDelta cosDeg sinDeg n handle vp in
  ((vp = Edge.left \/ vp = Edge.top) -> vd == handleCentre vp handle - e0) /\
  ((vp = Edge.right \/ vp = Edge.bottom) ->
   vd == e0 - handleCentre vp handle).
Proof.
  unfold visualDelta. cbv zeta.
  remember (getClientRect cosDeg sinDeg n) as r eqn:Er. clear Er.
  split; intros [V | V]; subst vp;
    cbn [handleCentre isHorizontalEdge Rect.edge]; unfold handleCentre;
    cbn [isHorizontalEdge]; ring.
Qed.

(** What [updateCropFromHandle] returns on a node that satisfies the crop
    invariant: the new bounds, the new geometry, and the anchor
    correction. *)
Lemma updateCropFromHandle_result (cosDeg sinDeg : Q -> Q) (n : Node.t)
      (handle : Handle.t) (vp se : Edge) :
  cropInvariant n ->
  getSourceEdge vp (Node.rotation n) (Node.scaleX n) (Node.scaleY n)
  = Some se ->
  getVisualEdge (Edge.opposite se) (Node.rotation n) (Node.scaleX n)
    (Node.scaleY n) = Some (Edge.opposite vp) ->
  forall c,
    c = cropEdge (Node.originalWidth n) (Node.originalHeight n)
          (Node.cropBounds n) se (sourceDelta cosDeg sinDeg n handle vp) ->
    Node.cropBounds (updateCropFromHandle cosDeg sinDeg n handle vp) = c /\
    updateCropFromHandle cosDeg sinDeg n handle vp
    = keepAnchor (Edge.opposite vp) (getClientRect cosDeg sinDeg n)
        (getClientRect cosDeg sinDeg
           (Node.set_cropGeometry c
              (Rect.mk (Crop.left c) (Crop.top c)
                 (Node.originalWidth n - Crop.left c - Crop.right c)
                 (Node.originalHeight n - Crop.top c - Crop.bottom c)) n))
        (Node.set_cropGeometry c
           (Rect.mk (Crop.left c) (Crop.top c)
              (Node.originalWidth n - Crop.left c - Crop.right c)
              (Node.originalHeight n - Crop.top c - Crop.bottom c)) n).
Proof.
  intros I Hs Hv c Ec.
  assert (Hw : Qeq_bool (Node.originalWidth n) 0 = false).
  { apply Qeq_bool_false. destruct I as (? & ? & ? & ? & ? & ?). lra. }
  assert (Hok : cropBoundsOk (Node.originalWidth n) (Node.originalHeight n) c)
    by (rewrite Ec; apply cropEdge_ok; exact I).
  rewrite (updateCropFromHandle_unfold cosDeg sinDeg n handle vp se Hw Hs).
  rewrite <- Ec.
  rewrite (applyCropBounds_applies cosDeg sinDeg n c se (Edge.opposite vp)
             Hok Hv).
  split; reflexivity.
Qed.

Section DraggedEdge.

Variables cosDeg sinDeg : Q -> Q.
Hypothesis trig : exactAtQuarterTurns cosDeg sinDeg.

(** The size of the client rectangle after new crop geometry and the
    anchor correction. *)
Lemma extent_cropped (q : Turn) (n : Node.t) (c : Crop.t) (va : Edge)
      (r0 r1 : Rect.t) :
  atTurn q (Node.rotation n) ->
  0 <= Node.originalWidth n - Crop.left c - Crop.right c ->
  0 <= Node.originalHeight n - Crop.top c - Crop.bottom c ->
  let r2 :=
    getClientRect cosDeg sinDeg
      (keepAnchor va r0 r1
         (Node.set_cropGeometry c
            (Rect.mk (Crop.left c) (Crop.top c)
               (Node.originalWidth n - Crop.left c - Crop.right c)
               (Node.originalHeight n - Crop.top c - Crop.bottom c)) n)) in
  Rect.width r2
  == (if swapsAxes q
      then JS.abs (Node.scaleY n)
           * (Node.originalHeight n - Crop.top c - Crop.bottom c)
      else JS.abs (Node.scaleX n)
           * (Node.originalWidth n - Crop.left c - Crop.right c)) /\
  Rect.height r2
  == (if swapsAxes q
      then JS.abs (Node.scaleX n)
           * (Node.originalWidth n - Crop.left c - Crop.right c)
      else JS.abs (Node.scaleY n)
           * (Node.originalHeight n - Crop.top c - Crop.bottom c)).
Proof.
  intros Hq W H.
  exact (extent_atTurn cosDeg sinDeg trig q
           (keepAnchor va r0 r1
              (Node.set_cropGeometry c
                 (Rect.mk (Crop.left c) (Crop.top c)
                    (Node.originalWidth n - Crop.left c - Crop.right c)
                    (Node.originalHeight n - Crop.top c - Crop.bottom c)) n))
           Hq W H).
Qed.

(** Moving the bound of one source edge by [d], anchored on the opposite
    side: the handle's edge of the client rectangle moves inward by [d]
    times the scale of that source axis. *)
Lemma dragged_edge_step (q : Turn) (n : Node.t) (se vp : Edge) (d : Q)
      (c : Crop.t) :
  atTurn q (Node.rotation n) ->
  geometryOk n ->
  cropInvariant n ->
  c = Crop.set se (Crop.get se (Node.cropBounds n) + d) (Node.cropBounds n) ->
  cropBoundsOk (Node.originalWidth n) (Node.originalHeight n) c ->
  isHorizontalEdge se = xorb (swapsAxes q) (isHorizontalEdge vp) ->
  forall e0 e2,
    e0 = Rect.edge vp (getClientRect cosDeg sinDeg n) ->
    e2 = Rect.edge vp
           (getClientRect cosDeg sinDeg
              (keepAnchor (Edge.opposite vp) (getClientRect cosDeg sinDeg n)
                 (getClientRect cosDeg sinDeg
                    (Node.set_cropGeometry c
                       (Rect.mk (Crop.left c) (Crop.top c)
                          (Node.originalWidth n - Crop.left c - Crop.right c)
                          (Node.originalHeight n - Crop.top c
                           - Crop.bottom c)) n))
                 (Node.set_cropGeometry c
                    (Rect.mk (Crop.left c) (Crop.top c)
                       (Node.originalWidth n - Crop.left c - Crop.right c)
                       (Node.originalHeight n - Crop.top c - Crop.bottom c))
                    n))) ->
    (e2 - e0 == sourceScale se n * d /\ (vp = Edge.left \/ vp = Edge.top)) \/
    (e0 - e2 == sourceScale se n * d /\
     (vp = Edge.right \/ vp = Edge.bottom)).
Proof.
  intros Hq G I Ec Hc Hax e0 e2 Ee0 Ee2.
  assert (Hax' : isHorizontalEdge se
                 = xorb (swapsAxes q) (isHorizontalEdge (Edge.opposite vp)))
    by (rewrite isHorizontalEdge_opposite; exact Hax).
  assert (Hne : Edge.opposite vp <> Edge.opposite (Edge.opposite vp))
    by (destruct vp; discriminate).
  pose proof (keepAnchor_keeps_edges cosDeg sinDeg trig q n se
                (Edge.opposite vp)
                (Crop.get se (Node.cropBounds n) + d) (Edge.opposite vp)
                Hq G Hax' Hne) as A.
  cbv zeta in A. rewrite <- Ec in A.
  destruct G as (Gw & Gh & Gox & Goy).
  destruct I as (It & Ir & Ib & Il & Iv & Ih).
  assert (W0 : 0 <= Node.width n) by lra.
  assert (H0 : 0 <= Node.height n) by lra.
  destruct (extent_atTurn cosDeg sinDeg trig q n Hq W0 H0) as [EW0 EH0].
  cbv zeta in EW0, EH0.
  assert (PX : JS.abs (Node.scaleX n) * Node.width n
               == JS.abs (Node.scaleX n)
                  * (Node.originalWidth n - Crop.left (Node.cropBounds n)
                     - Crop.right (Node.cropBounds n)))
    by (rewrite Gw; reflexivity).
  assert (PY : JS.abs (Node.scaleY n) * Node.height n
               == JS.abs (Node.scaleY n)
                  * (Node.originalHeight n - Crop.top (Node.cropBounds n)
                     - Crop.bottom (Node.cropBounds n)))
    by (rewrite Gh; reflexivity).
  clear It Ir Ib Il Iv Ih Gw Gh Gox Goy W0 H0 Hax' Hne.
  destruct Hc as (Ct & Cr & Cb & Cl & Cv & Ch).
  assert (W2 : 0 <= Node.originalWidth n - Crop.left c - Crop.right c)
    by lra.
  assert (H2 : 0 <= Node.originalHeight n - Crop.top c - Crop.bottom c)
    by lra.
  clear Ct Cr Cb Cl Cv Ch.
  remember (getClientRect cosDeg sinDeg n) as r0 eqn:Er0. clear Er0.
  remember (getClientRect cosDeg sinDeg
              (Node.set_cropGeometry c
                 (Rect.mk (Crop.left c) (Crop.top c)
                    (Node.originalWidth n - Crop.left c - Crop.right c)
                    (Node.originalHeight n - Crop.top c - Crop.bottom c)) n))
    as r1 eqn:Er1.
  clear Er1.
  destruct (extent_cropped q n c (Edge.opposite vp) r0 r1 Hq W2 H2)
    as [EW2 EH2].
  cbv zeta in EW2, EH2.
  remember (getClientRect cosDeg sinDeg
              (keepAnchor (Edge.opposite vp) r0 r1
                 (Node.set_cropGeometry c
                    (Rect.mk (Crop.left c) (Crop.top c)
                       (Node.originalWidth n - Crop.left c - Crop.right c)
                       (Node.originalHeight n - Crop.top c - Crop.bottom c))
                    n))) as r2 eqn:Er2.
  clear Er2 Hq W2 H2 r1.
  subst e0 e2.
  assert (CT : Crop.top c
               = Crop.top (Crop.set se (Crop.get se (Node.cropBounds n) + d)
                             (Node.cropBounds n))) by (rewrite Ec; reflexivity).
  assert (CR : Crop.right c
               = Crop.right (Crop.set se (Crop.get se (Node.cropBounds n) + d)
                               (Node.cropBounds n)))
    by (rewrite Ec; reflexivity).
  assert (CB : Crop.bottom c
               = Crop.bottom
                   (Crop.set se (Crop.get se (Node.cropBounds n) + d)
                      (Node.cropBounds n))) by (rewrite Ec; reflexivity).
  assert (CL : Crop.left c
               = Crop.left (Crop.set se (Crop.get se (Node.cropBounds n) + d)
                              (Node.cropBounds n)))
    by (rewrite Ec; reflexivity).
  clear Ec.
  remember (Node.cropBounds n) as cb eqn:Ecb. clear Ecb.
  destruct q, vp, se; try discriminate Hax; clear Hax;
    abstract
      (cbn [Crop.set Crop.get Crop.top Crop.right Crop.bottom Crop.left]
         in CT, CR, CB, CL;
       rewrite CT, CR, CB, CL in *; clear CT CR CB CL;
       cbn [swapsAxes] in EW0, EH0, EW2, EH2;
       cbn [Edge.opposite Rect.edge] in A;
       cbn [sourceScale isHorizontalEdge Rect.edge];
       first [ left; split; [lra | auto; fail]
             | right; split; [lra | auto; fail] ]).
Qed.

(** The law of a crop drag at a quarter turn, when neither end of the
    clamp is reached: the displacement of the handle's edge, times the
    scale the program divides by, is the handle's displacement times the
    scale of the cropped source axis. *)
Lemma dragged_edge_law (q : Turn) (node : Node.t) (handle : Handle.t)
      (visualPosition sourceEdge : Edge) :
  atTurn q (Node.rotation node) ->
  geometryOk node ->
  cropInvariant node ->
  ~ Node.scaleX node == 0 -> ~ Node.scaleY node == 0 ->
  getSourceEdge visualPosition (Node.rotation node) (Node.scaleX node)
    (Node.scaleY node) = Some sourceEdge ->
  let node' := updateCropFromHandle cosDeg sinDeg node handle visualPosition in
  0 < Crop.get sourceEdge (Node.cropBounds node') ->
  Crop.get sourceEdge (Node.cropBounds node') < cropLimit sourceEdge node ->
  dragScale visualPosition node
  * (Rect.edge visualPosition (getClientRect cosDeg sinDeg node')
     - Rect.edge visualPosition (getClientRect cosDeg sinDeg node))
  == sourceScale sourceEdge node
     * (handleCentre visualPosition handle
        - Rect.edge visualPosition (getClientRect cosDeg sinDeg node)).
Proof.
  intros Hq G I Nx Ny Hs node'.
  destruct (edge_tables_atTurn q visualPosition (Node.rotation node)
              (Node.scaleX node) (Node.scaleY node) Hq)
    as (se & Hs' & Hv & Hax).
  assert (se = sourceEdge) by congruence. subst se. clear Hs'.
  remember (sourceDelta cosDeg sinDeg node handle visualPosition) as d
    eqn:Ed.
  assert (F : dragScale visualPosition node * d
              == visualDelta cosDeg sinDeg node handle visualPosition).
  { rewrite Ed. unfold sourceDelta. field.
    unfold dragScale.
    destruct (Edge.eqb visualPosition Edge.left
              || Edge.eqb visualPosition Edge.right);
      apply abs_nonzero; assumption. }
  remember (cropEdge (Node.originalWidth node) (Node.originalHeight node)
              (Node.cropBounds node) sourceEdge d) as c eqn:Ec.
  assert (Ec' := Ec). rewrite Ed in Ec'.
  destruct (updateCropFromHandle_result cosDeg sinDeg node handle
              visualPosition sourceEdge I Hs Hv c Ec') as [Rc Rn].
  clear Ec' Ed.
  assert (Hok : cropBoundsOk (Node.originalWidth node)
                  (Node.originalHeight node) c)
    by (rewrite Ec; apply cropEdge_ok; exact I).
  unfold node'. clear node'. rewrite Rc.
  rewrite cropEdge_clamp in Ec.
  intros B0 B1.
  assert (Ec2 : c = Crop.set sourceEdge
                      (Crop.get sourceEdge (Node.cropBounds node) + d)
                      (Node.cropBounds node)).
  { rewrite Ec in B0, B1. rewrite crop_get_set in B0, B1.
    rewrite Ec. f_equal. apply clampBound_unclamped; [exact B0 | exact B1]. }
  clear Ec B0 B1 Rc.
  destruct (visualDelta_inward cosDeg sinDeg node handle visualPosition)
    as [VL VR].
  cbv zeta in VL, VR.
  apply (displacement_arith _ _ d
           (visualDelta cosDeg sinDeg node handle visualPosition));
    [exact F |].
  destruct (dragged_edge_step q node sourceEdge visualPosition d c Hq G I
              Ec2 Hok Hax _ _ eq_refl (f_equal _ (f_equal _ Rn)))
    as [[St V] | [St V]].
  - left. split; [exact St | exact (VL V)].
  - right. split; [exact St | exact (VR V)].
Qed.

End DraggedEdge.

Lemma scales_agree (q : Turn) (n : Node.t) (vp se : Edge) :
  isHorizontalEdge se = xorb (swapsAxes q) (isHorizontalEdge vp) ->
  (swapsAxes q = true ->
   JS.abs (Node.scaleX n) == JS.abs (Node.scaleY n)) ->
  sourceScale se n == dragScale vp n.
Proof.
  intros Hax Hs. unfold sourceScale, dragScale.
  destruct q, vp, se; try discriminate Hax; cbn in *;
    try reflexivity; try (apply Hs; reflexivity);
    symmetry; apply Hs; reflexivity.
Qed.

Lemma scales_differ (q : Turn) (n : Node.t) (vp se : Edge) :
  isHorizontalEdge se = xorb (swapsAxes q) (isHorizontalEdge vp) ->
  swapsAxes q = true ->
  ~ JS.abs (Node.scaleX n) == JS.abs (Node.scaleY n) ->
  ~ sourceScale se n == dragScale vp n.
Proof.
  intros Hax Hq Hs. unfold sourceScale, dragScale.
  destruct q, vp, se; try discriminate Hax; try discriminate Hq; cbn in *;
    intros E; apply Hs; rewrite E; reflexivity.
Qed.

Lemma dragScale_nonzero (vp : Edge) (n : Node.t) :
  ~ Node.scaleX n == 0 -> ~ Node.scaleY n == 0 -> ~ dragScale vp n == 0.
Proof.
  intros Hx Hy. unfold dragScale.
  destruct (Edge.eqb vp Edge.left || Edge.eqb vp Edge.right);
    apply abs_nonzero; assumption.
Qed.

Section DraggedEdgeTheorems.

Variables cosDeg sinDeg : Q -> Q.
Hypothesis trig : exactAtQuarterTurns cosDeg sinDeg.

(** X9. At 0 and 180 degrees, and at 90 and 270 degrees when the two
    scales have the same absolute value, a crop drag that reaches neither
    end of the clamp puts the handle's edge of the client rectangle
    exactly on the centre of the handle. *)
Theorem cropped_edge_lands_on_handle
        (q : Turn) (node : Node.t) (handle : Handle.t)
        (visualPosition sourceEdge : Edge) :
  atTurn q (Node.rotation node) ->
  geometryOk node ->
  cropInvariant node ->
  ~ Node.scaleX node == 0 -> ~ Node.scaleY node == 0 ->
  (swapsAxes q = true ->
   JS.abs (Node.scaleX node) == JS.abs (Node.scaleY node)) ->
  getSourceEdge visualPosition (Node.rotation node) (Node.scaleX node)
    (Node.scaleY node) = Some sourceEdge ->
  let node' := updateCropFromHandle cosDeg sinDeg node handle visualPosition in
  0 < Crop.get sourceEdge (Node.cropBounds node') ->
  Crop.get sourceEdge (Node.cropBounds node') < cropLimit sourceEdge node ->
  Rect.edge visualPosition (getClientRect cosDeg sinDeg node')
  == handleCentre visualPosition handle.
Proof.
  intros Hq G I Nx Ny Hsc Hs node' B0 B1.
  pose proof (dragged_edge_law cosDeg sinDeg trig q node handle
                visualPosition sourceEdge Hq G I Nx Ny Hs B0 B1) as L.
  fold node' in L.
  destruct (edge_tables_atTurn q visualPosition (Node.rotation node)
              (Node.scaleX node) (Node.scaleY node) Hq)
    as (se & Hs' & _ & Hax).
  assert (se = sourceEdge) by congruence. subst se.
  pose proof (scales_agree q node visualPosition sourceEdge Hax Hsc) as E.
  pose proof (dragScale_nonzero visualPosition node Nx Ny) as D.
  rewrite E in L.
  remember (Rect.edge visualPosition (getClientRect cosDeg sinDeg node'))
    as e2 eqn:Ee2.
  remember (Rect.edge visualPosition (getClientRect cosDeg sinDeg node))
    as e0 eqn:Ee0.
  clear Ee2 Ee0.
  remember (dragScale visualPosition node) as k eqn:Ek. clear Ek.
  apply Qmult_inj_l in L; [| exact D]. lra.
Qed.

(** X10. At 90 and 270 degrees with scales of different absolute value,
    the edge does not follow the handle: after a crop drag that reaches
    neither end of the clamp and that moved the handle at all, the
    handle's edge of the client rectangle is not on the centre of the
    handle.  (The program divides the handle's displacement by the scale
    of the handle's visual axis; at these rotations the cropped source
    axis is drawn with the other scale.) *)
Theorem cropped_edge_misses_handle_when_stretched_sideways
        (q : Turn) (node : Node.t) (handle : Handle.t)
        (visualPosition sourceEdge : Edge) :
  atTurn q (Node.rotation node) ->
  swapsAxes q = true ->
  geometryOk node ->
  cropInvariant node ->
  ~ Node.scaleX node == 0 -> ~ Node.scaleY node == 0 ->
  ~ JS.abs (Node.scaleX node) == JS.abs (Node.scaleY node) ->
  getSourceEdge visualPosition (Node.rotation node) (Node.scaleX node)
    (Node.scaleY node) = Some sourceEdge ->
  ~ handleCentre visualPosition handle
    == Rect.edge visualPosition (getClientRect cosDeg sinDeg node) ->
  let node' := updateCropFromHandle cosDeg sinDeg node handle visualPosition in
  0 < Crop.get sourceEdge (Node.cropBounds node') ->
  Crop.get sourceEdge (Node.cropBounds node') < cropLimit sourceEdge node ->
  ~ Rect.edge visualPosition (getClientRect cosDeg sinDeg node')
    == handleCentre visualPosition handle.
Proof.
  intros Hq Hsw G I Nx Ny Hsc Hs Hmoved node' B0 B1 Hland.
  pose proof (dragged_edge_law cosDeg sinDeg trig q node handle
                visualPosition sourceEdge Hq G I Nx Ny Hs B0 B1) as L.
  fold node' in L.
  destruct (edge_tables_atTurn q visualPosition (Node.rotation node)
              (Node.scaleX node) (Node.scaleY node) Hq)
    as (se & Hs' & _ & Hax).
  assert (se = sourceEdge) by congruence. subst se.
  pose proof (scales_differ q node visualPosition sourceEdge Hax Hsw Hsc)
    as E.
  remember (Rect.edge visualPosition (getClientRect cosDeg sinDeg node'))
    as e2 eqn:Ee2.
  remember (Rect.edge visualPosition (getClientRect cosDeg sinDeg node))
    as e0 eqn:Ee0.
  clear Ee2 Ee0.
  remember (dragScale visualPosition node) as k eqn:Ek. clear Ek.
  remember (sourceScale sourceEdge node) as s eqn:Es. clear Es.
  remember (handleCentre visualPosition handle) as hc eqn:Ehc. clear Ehc.
  rewrite Hland in L.
  assert (Z : (k - s) * (hc - e0) == 0) by (ring_simplify; lra).
  apply Qmult_integral in Z. destruct Z as [Z | Z].
  - apply E. lra.
  - apply Hmoved. lra.
Qed.

End DraggedEdgeTheorems.

Lemma crop_keeps_other_edges_at_quarter_turns_witness :
  let cropped :=
    updateCropFromHandle quarterCos quarterSin SampleTurned.node
      SampleTurned.topHandleIn30 Edge.top in
  Rect.edge Edge.bottom (getClientRect quarterCos quarterSin cropped)
  == Rect.edge Edge.bottom
       (getClientRect quarterCos quarterSin SampleTurned.node) /\
  Crop.right (Node.cropBounds cropped) == 30.
Proof.
  intros cropped. split.
  - destruct (crop_keeps_other_edges_at_quarter_turns quarterCos quarterSin
                quarter_exactAtQuarterTurns Turn90 SampleTurned.node
                SampleTurned.topHandleIn30 Edge.top Edge.bottom) as [A _].
    + vm_compute. reflexivity.
    + unfold geometryOk. cbn. repeat split; reflexivity.
    + discriminate.
    + exact A.
  - vm_compute. reflexivity.
Defined.

Lemma source_edge_is_drawn_at_handle_witness :
  getSourceEdge Edge.top 90 (-1) 1 = Some Edge.right /\
  snd (transformPoint quarterCos quarterSin SampleTurned.node 100 17)
  == Rect.edge Edge.top
       (getClientRect quarterCos quarterSin SampleTurned.node).
Proof.
  split; [vm_compute; reflexivity |].
  apply (source_edge_is_drawn_at_handle quarterCos quarterSin
           quarter_exactAtQuarterTurns Turn90 SampleTurned.node Edge.top
           Edge.right 17).
  - vm_compute. reflexivity.
  - vm_compute. discriminate.
  - vm_compute. discriminate.
  - vm_compute. reflexivity.
Defined.

Lemma cropped_edge_lands_on_handle_witness :
  Rect.edge Edge.top
    (getClientRect quarterCos quarterSin
       (updateCropFromHandle quarterCos quarterSin SampleTurned.node
          SampleTurned.topHandleIn30 Edge.top))
  == handleCentre Edge.top SampleTurned.topHandleIn30 /\
  handleCentre Edge.top SampleTurned.topHandleIn30 == 130.
Proof.
  split; [| vm_compute; reflexivity].
  apply (cropped_edge_lands_on_handle quarterCos quarterSin
           quarter_exactAtQuarterTurns Turn90 SampleTurned.node
           SampleTurned.topHandleIn30 Edge.top Edge.right).
  - vm_compute. reflexivity.
  - unfold geometryOk. cbn. repeat split; reflexivity.
  - unfold cropInvariant, cropBoundsOk. cbn. repeat split; discriminate.
  - vm_compute. discriminate.
  - vm_compute. discriminate.
  - intros _. vm_compute. reflexivity.
  - vm_compute. reflexivity.
  - vm_compute. reflexivity.
  - vm_compute. reflexivity.
Defined.

Lemma cropped_edge_misses_handle_witness :
  ~ Rect.edge Edge.top
      (getClientRect quarterCos quarterSin
         (updateCropFromHandle quarterCos quarterSin SampleStretched.node
            SampleTurned.topHandleIn30 Edge.top))
    == handleCentre Edge.top SampleTurned.topHandleIn30 /\
  handleCentre Edge.top SampleTurned.topHandleIn30 == 130.
Proof.
  split; [| vm_compute; reflexivity].
  apply (cropped_edge_misses_handle_when_stretched_sideways quarterCos
           quarterSin quarter_exactAtQuarterTurns Turn90
           SampleStretched.node SampleTurned.topHandleIn30 Edge.top
           Edge.right).
  - vm_compute. reflexivity.
  - reflexivity.
  - unfold geometryOk. cbn. repeat split; reflexivity.
  - unfold cropInvariant, cropBoundsOk. cbn. repeat split; discriminate.
  - vm_compute. discriminate.
  - vm_compute. discriminate.
  - vm_compute. discriminate.
  - vm_compute. reflexivity.
  - vm_compute. discriminate.
  - vm_compute. reflexivity.
  - vm_compute. reflexivity.
Defined.

(* ================================================================= *)
(** ** A crop handle at rest *)

Lemma updateCropFromHandle_no_width (cosDeg sinDeg : Q -> Q) (n : Node.t)
      (handle : Handle.t) (vp : Edge) :
  Qeq_bool (Node.originalWidth n) 0 = true ->
  updateCropFromHandle cosDeg sinDeg n handle vp = n.
Proof. intros H. unfold updateCropFromHandle. rewrite H. reflexivity. Qed.

Lemma updateCropFromHandle_no_edge (cosDeg sinDeg : Q -> Q) (n : Node.t)
      (handle : Handle.t) (vp : Edge) :
  getSourceEdge vp (Node.rotation n) (Node.scaleX n) (Node.scaleY n) = None ->
  updateCropFromHandle cosDeg sinDeg n handle vp = n.
Proof.
  intros H. unfold updateCropFromHandle. rewrite H.
  destruct (Qeq_bool _ 0); reflexivity.
Qed.

Lemma clampBound_at_rest (dimension opposite current delta : Q) :
  0 <= current -> current <= dimension - opposite - 20 -> delta == 0 ->
  clampBound dimension opposite current delta == current.
Proof.
  intros H0 H1 Hd. unfold clampBound, minSize.
  destruct (min_cases (dimension - opposite - 20) (current + delta))
    as [[? E] | [? E]]; rewrite E;
    match goal with
    | |- context [JS.max 0 ?v] =>
        destruct (max_cases 0 v) as [[? E'] | [? E']]; rewrite E'
    end; lra.
Qed.

Lemma handleCentre_at_rest (rect : Rect.t) (vp : Edge) (handle : Handle.t) :
  handleCentre vp (positionCropHandle rect vp handle) == Rect.edge vp rect.
Proof.
  destruct vp; unfold handleCentre, positionCropHandle;
    cbn [isHorizontalEdge Handle.x Handle.y Handle.width Handle.height
         Rect.edge]; field.
Qed.

Lemma sourceDelta_at_rest (cosDeg sinDeg : Q -> Q) (n : Node.t)
      (handle : Handle.t) (vp : Edge) :
  sourceDelta cosDeg sinDeg n
    (positionCropHandle (getClientRect cosDeg sinDeg n) vp handle) vp == 0.
Proof.
  unfold sourceDelta, visualDelta. cbv zeta.
  remember (getClientRect cosDeg sinDeg n) as r eqn:Er. clear Er.
  remember (dragScale vp n) as k eqn:Ek. clear Ek.
  assert (V : forall a, a == 0 -> a / k == 0)
    by (intros a Ha; unfold Qdiv; rewrite Ha; ring).
  apply V. clear V.
  destruct vp; unfold positionCropHandle;
    cbn [Handle.x Handle.y Handle.width Handle.height]; field.
Qed.

(** X11. [positionCropHandles] centres every handle on its edge of the
    client rectangle, and a [dragmove] of a handle that is still where
    [positionCropHandles] put it changes no crop bound, at any rotation. *)
Theorem handle_at_rest_changes_no_bound
        (cosDeg sinDeg : Q -> Q) (node : Node.t) (handle : Handle.t)
        (visualPosition e : Edge) :
  cropInvariant node ->
  ~ Node.scaleX node == 0 -> ~ Node.scaleY node == 0 ->
  let rest :=
    positionCropHandle (getClientRect cosDeg sinDeg node) visualPosition
      handle in
  handleCentre visualPosition rest
  == Rect.edge visualPosition (getClientRect cosDeg sinDeg node) /\
  Crop.get e
    (Node.cropBounds
       (updateCropFromHandle cosDeg sinDeg node rest visualPosition))
  == Crop.get e (Node.cropBounds node).
Proof.
  intros I _ _ rest. split; [apply handleCentre_at_rest |].
  destruct (Qeq_bool (Node.originalWidth node) 0) eqn:Hw.
  { rewrite updateCropFromHandle_no_width by exact Hw. reflexivity. }
  destruct (getSourceEdge visualPosition (Node.rotation node)
              (Node.scaleX node) (Node.scaleY node)) as [se |] eqn:Hs.
  2: { rewrite updateCropFromHandle_no_edge by exact Hs. reflexivity. }
  rewrite (updateCropFromHandle_unfold cosDeg sinDeg node rest
             visualPosition se Hw Hs).
  pose proof (sourceDelta_at_rest cosDeg sinDeg node handle visualPosition)
    as D.
  fold rest in D.
  remember (sourceDelta cosDeg sinDeg node rest visualPosition) as d eqn:Ed.
  clear Ed.
  match goal with
  | |- context [applyCropBounds _ _ _ ?c ?se] =>
      destruct (applyCropBounds_cases cosDeg sinDeg node c se)
        as (_ & _ & _ & [C | C])
  end; cbv zeta in C; rewrite C; [reflexivity |].
  destruct I as (It & Ir & Ib & Il & Iv & Ih).
  destruct se, e;
    cbn [cropEdge Crop.set Crop.get Crop.top Crop.right Crop.bottom
         Crop.left];
    try reflexivity; apply clampBound_at_rest; first [ exact D | lra ].
Qed.

Lemma handle_at_rest_changes_no_bound_witness :
  Crop.get Edge.top
    (Node.cropBounds
       (updateCropFromHandle quarterCos quarterSin Sample.node
          (positionCropHandle
             (getClientRect quarterCos quarterSin Sample.node) Edge.top
             Sample.topHandleFarDown) Edge.top))
  == 0.
Proof.
  destruct (handle_at_rest_changes_no_bound quarterCos quarterSin
              Sample.node Sample.topHandleFarDown Edge.top Edge.top)
    as [_ A].
  - unfold cropInvariant, cropBoundsOk. cbn. repeat split; discriminate.
  - vm_compute. discriminate.
  - vm_compute. discriminate.
  - exact A.
Defined.

(* ================================================================= *)
(** ** Operations without a selection *)



(* ================================================================= *)
(** ** Opacity *)

Lemma getSelectedImage_updateNode (s : State) (node : Node.t)
      (f : Node.t -> Node.t) :
  (forall n, Node._id (f n) = Node._id n) ->
  getSelectedImage s = Some node ->
  getSelectedImage (updateNode (Node._id node) f s) = Some (f node).
Proof.
  intros Hf Hs. destruct (getSelectedImage_id s node Hs) as [Sel Fnd].
  unfold getSelectedImage, updateNode. cbn [selection layer set_layer].
  rewrite Sel.
  exact (find_updated (Node._id node) f (layer s) node Hf Fnd).
Qed.

(** X13. [setOpacity(percent)] stores [percent / 100] clamped to the
    interval from 0 to 1 on the selected image, which stays selected. *)
Theorem setOpacity_clamps (percent : Q) (s : State) (node : Node.t) :
  getSelectedImage s = Some node ->
  exists node',
    getSelectedImage (setOpacity percent s) = Some node' /\
    0 <= Node.opacity node' /\ Node.opacity node' <= 1 /\
    (percent <= 0 -> Node.opacity node' == 0) /\
    (0 <= percent -> percent <= 100 ->
     Node.opacity node' == percent / 100) /\
    (100 <= percent -> Node.opacity node' == 1).
Proof.
  intros Hs. unfold setOpacity. rewrite Hs.
  eexists. split.
  - apply (getSelectedImage_updated s node); [reflexivity | exact Hs].
  - cbn [Node.opacity Node.set_opacity].
    unfold Qdiv. change (/ 100) with (1 # 100).
    destruct (min_cases 100 percent) as [[? E] | [? E]]; rewrite E;
      match goal with
      | |- context [JS.max 0 ?v] =>
          destruct (max_cases 0 v) as [[? E'] | [? E']]; rewrite E'
      end; repeat split; intros; lra.
Qed.

Lemma setOpacity_clamps_witness :
  exists node',
    getSelectedImage (setOpacity 250 Sample.state) = Some node' /\
    Node.opacity node' == 1.
Proof.
  destruct (setOpacity_clamps 250 Sample.state Sample.node)
    as (node' & Sel & _ & _ & _ & _ & Hi).
  - reflexivity.
  - exists node'. split; [exact Sel | apply Hi; discriminate].
Defined.

(* ================================================================= *)
(** ** The blend mode key *)

Lemma nextBlendMode_cases (mode : string) :
  (In mode (map fst blendModes) /\
   exists next, nextBlendMode mode = Some next /\ In next blendModes) \/
  (~ In mode (map fst blendModes) /\
   nextBlendMode mode = Some ("source-over", "Normal")).
Proof.
  unfold nextBlendMode, findIndex, blendModes.
  cbn [findIndexFrom fst map List.length].
  repeat match goal with
         | |- context [String.eqb ?a mode] =>
             destruct (String.eqb_spec a mode) as [<- | ?]
         end;
    try (left; split; [cbn; tauto |];
         eexists; split; [vm_compute; reflexivity | cbn; tauto]).
  right. split; [| vm_compute; reflexivity].
  cbn. intros H. repeat destruct H as [H | H]; try contradiction.
Qed.

Lemma cycleMode_nonempty (mode : string) :
  orString (cycleMode mode) "source-over" = cycleMode mode.
Proof.
  unfold cycleMode.
  destruct (nextBlendMode_cases mode) as [(_ & next & E & Hin) | (_ & E)];
    rewrite E.
  - cbn in Hin.
    repeat destruct Hin as [<- | Hin]; try contradiction; reflexivity.
  - reflexivity.
Qed.

Lemma cycleBlendMode_selected (s : State) (mode : string) :
  selectedBlendMode s = Some mode ->
  selectedBlendMode (cycleBlendMode s) = Some (cycleMode mode) /\
  stacksPushed s (cycleBlendMode s).
Proof.
  unfold selectedBlendMode, cycleBlendMode, cycleMode.
  destruct (getSelectedImage s) as [node |] eqn:Hs; [| discriminate].
  intros H. injection H as <-.
  destruct (nextBlendMode_cases (orString (Node.blendMode node) "source-over"))
    as [(_ & next & E & _) | (_ & E)]; rewrite E;
    unfold setBlendMode; rewrite Hs;
    (rewrite (getSelectedImage_updated s node); [| reflexivity | exact Hs]);
    cbn [Node.blendMode Node.set_blendMode fst];
    (split; [| split; reflexivity]).
  - f_equal.
    pose proof (cycleMode_nonempty
                  (orString (Node.blendMode node) "source-over")) as N.
    unfold cycleMode in N. rewrite E in N. exact N.
  - reflexivity.
Qed.

Lemma cycleBlendMode_iter (k : nat) (s : State) (mode : string) :
  selectedBlendMode s = Some mode ->
  selectedBlendMode (Nat.iter k cycleBlendMode s)
  = Some (Nat.iter k cycleMode mode).
Proof.
  intros H. induction k as [| k IH]; [exact H |].
  cbn [Nat.iter]. apply cycleBlendMode_selected. exact IH.
Qed.

(** X14. The [b] key moves the selected image to the next blend mode of
    the table, as one undoable action; from a mode that is not in the
    table it goes to the first one, ['source-over']; the result is always
    a mode of the table. *)
Theorem cycleBlendMode_steps_through_table (s : State) (mode : string) :
  selectedBlendMode s = Some mode ->
  selectedBlendMode (cycleBlendMode s) = Some (cycleMode mode) /\
  stacksPushed s (cycleBlendMode s) /\
  In (cycleMode mode) (map fst blendModes) /\
  (~ In mode (map fst blendModes) -> cycleMode mode = "source-over").
Proof.
  intros H.
  destruct (cycleBlendMode_selected s mode H) as [A B].
  split; [exact A |]. split; [exact B |].
  unfold cycleMode.
  destruct (nextBlendMode_cases mode) as [(Hin & next & E & Hn) | (Hout & E)];
    rewrite E.
  - split; [apply in_map; exact Hn | intros C; contradiction].
  - split; [cbn; tauto | reflexivity].
Qed.

Lemma cycleBlendMode_steps_through_table_witness :
  selectedBlendMode (cycleBlendMode Sample.state) = Some "screen".
Proof.
  destruct (cycleBlendMode_steps_through_table Sample.state "source-over")
    as [A _]; [reflexivity | exact A].
Defined.

(** X15. Eight presses of the [b] key bring the selected image back to
    the blend mode it had, when that mode is one of the table; fewer
    presses do not. *)
Theorem cycleBlendMode_has_period_eight (s : State) (mode : string) :
  selectedBlendMode s = Some mode ->
  In mode (map fst blendModes) ->
  selectedBlendMode (Nat.iter 8 cycleBlendMode s) = Some mode /\
  forall k, (0 < k < 8)%nat ->
    selectedBlendMode (Nat.iter k cycleBlendMode s) <> Some mode.
Proof.
  intros H Hin. split.
  - rewrite (cycleBlendMode_iter 8 s mode H). f_equal.
    cbn in Hin.
    repeat destruct Hin as [<- | Hin]; try contradiction;
      vm_compute; reflexivity.
  - intros k Hk. rewrite (cycleBlendMode_iter k s mode H).
    intros C. injection C as C. revert C.
    assert (K : (k = 1 \/ k = 2 \/ k = 3 \/ k = 4 \/ k = 5 \/ k = 6
                 \/ k = 7)%nat) by lia.
    cbn in Hin.
    repeat destruct Hin as [<- | Hin]; try contradiction;
      repeat destruct K as [-> | K]; try subst k;
      vm_compute; discriminate.
Qed.

Lemma cycleBlendMode_has_period_eight_witness :
  selectedBlendMode (Nat.iter 8 cycleBlendMode Sample.state)
  = Some "source-over".
Proof.
  destruct (cycleBlendMode_has_period_eight Sample.state "source-over")
    as [A _]; [reflexivity | cbn; tauto | exact A].
Defined.

(* ================================================================= *)
(** ** The opacity keys *)

Lemma setOpacity_selected (percent : Q) (s : State) (node : Node.t) :
  getSelectedImage s = Some node ->
  selectedOpacity (setOpacity percent s)
  = Some (JS.max 0 (JS.min 100 percent) / 100) /\
  stacksPushed s (setOpacity percent s).
Proof.
  intros Hs. unfold selectedOpacity, setOpacity. rewrite Hs.
  rewrite (getSelectedImage_updated s node); [| reflexivity | exact Hs].
  split; [reflexivity | split; reflexivity].
Qed.

Lemma percent_in_range (p : Z) :
  (0 <= p <= 100)%Z ->
  JS.max 0 (JS.min 100 (inject_Z p)) / 100 == inject_Z p / 100.
Proof.
  intros [H0 H1].
  assert (A : 0 <= inject_Z p)
    by (change 0 with (inject_Z 0); rewrite <- Zle_Qle; exact H0).
  assert (B : inject_Z p <= 100)
    by (change 100 with (inject_Z 100); rewrite <- Zle_Qle; exact H1).
  unfold Qdiv. change (/ 100) with (1 # 100).
  destruct (min_cases 100 (inject_Z p)) as [[? E] | [? E]]; rewrite E;
    match goal with
    | |- context [JS.max 0 ?v] =>
        destruct (max_cases 0 v) as [[? E'] | [? E']]; rewrite E'
    end; lra.
Qed.

(** X16. Two digit keys typed within the 300 ms window set the opacity of
    the selected image to that two-digit percentage, as one undoable
    action; a single digit followed by the timeout sets ten times the
    digit, and a single [0] sets 100 percent. *)
Theorem opacity_keys (s : State) (node : Node.t) (d1 d2 : Z) :
  getSelectedImage s = Some node ->
  (0 <= d1 <= 9)%Z -> (0 <= d2 <= 9)%Z ->
  let typed1 := handleOpacityKey d1 None s in
  let typed2 := handleOpacityKey d2 (fst typed1) (snd typed1) in
  let timedOut := opacityTimeout (fst typed1) (snd typed1) in
  snd typed1 = s /\
  fst typed2 = None /\ fst timedOut = None /\
  stacksPushed s (snd typed2) /\ stacksPushed s (snd timedOut) /\
  (exists o, selectedOpacity (snd typed2) = Some o /\
             o == inject_Z (10 * d1 + d2) / 100) /\
  (exists o, selectedOpacity (snd timedOut) = Some o /\
             o == (if (d1 =? 0)%Z then 1 else inject_Z d1 / 10)).
Proof.
  intros Hs H1 H2 typed1 typed2 timedOut.
  unfold typed2, timedOut, typed1, handleOpacityKey, opacityTimeout.
  rewrite Hs. cbn [fst snd]. rewrite Hs. cbn [fst snd].
  destruct (setOpacity_selected (inject_Z (d1 * 10 + d2)) s node Hs)
    as [O2 P2].
  destruct (setOpacity_selected
              (inject_Z (if (d1 =? 0)%Z then 100%Z else (d1 * 10)%Z)) s node
              Hs) as [O1 P1].
  repeat split; try assumption; try apply P2; try apply P1.
  - eexists. split; [exact O2 |].
    rewrite percent_in_range by lia.
    replace (d1 * 10 + d2)%Z with (10 * d1 + d2)%Z by lia. reflexivity.
  - eexists. split; [exact O1 |].
    destruct (Z.eqb_spec d1 0) as [-> | Hn].
    + vm_compute. reflexivity.
    + rewrite percent_in_range by lia.
      rewrite inject_Z_mult. change (inject_Z 10) with 10. field.
Qed.

Lemma opacity_keys_witness :
  exists o,
    selectedOpacity
      (snd (handleOpacityKey 5
              (fst (handleOpacityKey 7 None Sample.state))
              (snd (handleOpacityKey 7 None Sample.state)))) = Some o /\
    o == 75 # 100.
Proof.
  destruct (opacity_keys Sample.state Sample.node 7 5)
    as (_ & _ & _ & _ & _ & (o & E & V) & _).
  - reflexivity.
  - lia.
  - lia.
  - exists o. split; [exact E |]. rewrite V. vm_compute. reflexivity.
Defined.

(* ================================================================= *)
(** ** A burst of arrow keys *)






(* ================================================================= *)
(** ** Zoom with the wheel *)

(** X18. The wheel zooms about the pointer: the new scale is between 0.1
    and 10 and the same on both axes, and the point of the scene under
    the pointer is still under the pointer. *)
Theorem wheel_zooms_about_pointer (pointerX pointerY deltaY : Q)
        (st : Stage.t) :
  0 < Stage.scaleX st ->
  Stage.scaleY st == Stage.scaleX st ->
  let st' := wheel pointerX pointerY deltaY st in
  (1 # 10) <= Stage.scaleX st' /\ Stage.scaleX st' <= 10 /\
  Stage.scaleY st' = Stage.scaleX st' /\
  sceneX st' pointerX == sceneX st pointerX /\
  sceneY st' pointerY == sceneY st pointerY.
Proof.
  intros Hpos Hy st'. unfold st', wheel, sceneX, sceneY. cbv zeta.
  cbn [Stage.scaleX Stage.scaleY Stage.x Stage.y].
  match goal with
  | |- context [JS.max (1 # 10) ?v] => remember (JS.max (1 # 10) v) as k eqn:Ek
  end.
  assert (K : (1 # 10) <= k /\ k <= 10).
  { rewrite Ek.
    match goal with
    | |- context [JS.min 10 ?v] =>
        destruct (min_cases 10 v) as [[? E] | [? E]]; rewrite E
    end;
      match goal with
      | |- context [JS.max (1 # 10) ?v] =>
          destruct (max_cases (1 # 10) v) as [[? E'] | [? E']]; rewrite E'
      end; split; lra. }
  clear Ek. destruct K as [K0 K1].
  repeat split; try assumption.
  - field. split; lra.
  - rewrite Hy. field. split; lra.
Qed.

Lemma wheel_zooms_about_pointer_witness :
  sceneX (wheel 300 200 (-1) Sample.stage) 300 == 300.
Proof.
  destruct (wheel_zooms_about_pointer 300 200 (-1) Sample.stage)
    as (_ & _ & _ & A & _).
  - reflexivity.
  - reflexivity.
  - rewrite A. vm_compute. reflexivity.
Defined.

(* ================================================================= *)
(** ** Adding an image *)



(* ================================================================= *)
(** ** The geometry that the crop code relies on, in every state *)

Lemma step_sessionCropInvariant (cosDeg sinDeg : Q -> Q) (s : State)
      (a : Action) :
  sessionCropInvariant s -> addsUsableImage a ->
  sessionCropInvariant (step cosDeg sinDeg s a).
Proof.
  intros Inv Hadd. destruct a; cbn [step].
  - apply applyOp_invariant; assumption.
  - unfold selectImage. destruct (find _ _); exact Inv.
  - exact Inv.
  - apply pushUndo_invariant; exact Inv.
  - unfold undo.
    destruct (pop (undoStack s)) as [[z rest] |] eqn:E; [| exact Inv].
    destruct Inv as (L & U & R).
    destruct (pop_Forall _ _ _ _ E U) as [Hz Hrest].
    apply restore_session_invariant; [exact Hz | exact Hrest |].
    apply Forall_app. split; [exact R |].
    constructor; [apply captureState_invariant; exact L | constructor].
  - unfold redo.
    destruct (pop (redoStack s)) as [[z rest] |] eqn:E; [| exact Inv].
    destruct Inv as (L & U & R).
    destruct (pop_Forall _ _ _ _ E R) as [Hz Hrest].
    apply restore_session_invariant; [exact Hz | | exact Hrest].
    apply Forall_app. split; [exact U |].
    constructor; [apply captureState_invariant; exact L | constructor].
Qed.

Lemma keepAnchor_geometryOk (va : Edge) (r0 r1 : Rect.t) (n : Node.t) :
  geometryOk n -> geometryOk (keepAnchor va r0 r1 n).
Proof. intros H. exact H. Qed.

Lemma applyCropBounds_geometryOk (cosDeg sinDeg : Q -> Q) (n : Node.t)
      (c : Crop.t) (e : Edge) :
  geometryOk n -> geometryOk (applyCropBounds cosDeg sinDeg n c e).
Proof.
  intros H. unfold applyCropBounds.
  destruct (Qeq_bool _ 0 || Qeq_bool _ 0); [exact H |].
  destruct (Qle_bool _ 0 || Qle_bool _ 0); [exact H |].
  cbv zeta. destruct (getVisualEdge _ _ _ _).
  - apply keepAnchor_geometryOk. apply set_cropGeometry_geometryOk.
  - apply set_cropGeometry_geometryOk.
Qed.

Lemma updateCropFromHandle_geometryOk (cosDeg sinDeg : Q -> Q) (n : Node.t)
      (handle : Handle.t) (vp : Edge) :
  geometryOk n -> geometryOk (updateCropFromHandle cosDeg sinDeg n handle vp).
Proof.
  intros H. unfold updateCropFromHandle.
  destruct (Qeq_bool _ 0); [exact H |].
  destruct (getSourceEdge _ _ _ _); [| exact H].
  cbv zeta. apply applyCropBounds_geometryOk. exact H.
Qed.

Lemma createKonvaImageFromState_geometryOk (i : ImgState.t) (nodeId : nat) :
  cropBoundsOk (ImgState.originalWidth i) (ImgState.originalHeight i)
    (ImgState.cropBounds i) ->
  geometryOk (createKonvaImageFromState i nodeId).
Proof.
  intros (Ht & Hr & Hb & Hl & Hv & Hh). unfold createKonvaImageFromState.
  cbv zeta.
  assert (A : JS.ltb 0 (ImgState.originalWidth i
                        - Crop.left (ImgState.cropBounds i)
                        - Crop.right (ImgState.cropBounds i)) = true)
    by (apply ltb_spec; lra).
  assert (B : JS.ltb 0 (ImgState.originalHeight i
                        - Crop.top (ImgState.cropBounds i)
                        - Crop.bottom (ImgState.cropBounds i)) = true)
    by (apply ltb_spec; lra).
  rewrite A, B. cbn [andb]. unfold geometryOk. cbn.
  repeat split; reflexivity.
Qed.

Lemma restoreState_geometryOk (snap : Snapshot) (s : State) :
  snapshotCropInvariant snap ->
  Forall geometryOk (layer (restoreState snap s)).
Proof.
  intros H. rewrite restoreState_layer. unfold mapi.
  eapply mapiFrom_Forall; [| apply sortBy_Forall; exact H].
  intros a k Ha. apply createKonvaImageFromState_geometryOk. exact Ha.
Qed.

Lemma updateNode_geometryOk (i : nat) (f : Node.t -> Node.t) (s : State) :
  (forall n, geometryOk n -> geometryOk (f n)) ->
  Forall geometryOk (layer s) ->
  Forall geometryOk (layer (updateNode i f s)).
Proof.
  intros Hf L. unfold updateNode. cbn [layer set_layer].
  apply Forall_map. eapply Forall_impl; [| exact L].
  intros n Hn. cbn beta. destruct (Nat.eqb _ _); auto.
Qed.

Ltac geometry_update :=
  apply updateNode_geometryOk;
  [ first [ intros ? ?; assumption
          | intros ? _; apply resetCropNode_geometryOk
          | intros ? ?; apply updateCropFromHandle_geometryOk; assumption ]
  | assumption ].

Lemma applyOp_geometryOk (cosDeg sinDeg : Q -> Q) (op : Op) (s : State) :
  Forall geometryOk (layer s) ->
  Forall geometryOk (layer (applyOp cosDeg sinDeg op s)).
Proof.
  intros L.
  assert (PL : Forall geometryOk (layer (pushUndo s))) by exact L.
  destruct op; cbn [applyOp];
    unfold addImage, dragImage, handleNudge, transformSelected,
      dragCropHandle, resetCrop, flipHorizontal, flipVertical, rotateLeft,
      rotateRight, duplicateImage, bringToTop, sendToBottom, dblclickImage,
      deleteSelected, setBlendMode, setOpacity, moveToTop, moveToBottom,
      destroyNode;
    try (destruct (getSelectedImage s) as [node |] eqn:Sel; [| exact L]);
    try (destruct (find (isNode nodeId) (layer s)) as [node |] eqn:Fnd;
         [| exact L]);
    try geometry_update.
  - (* add *)
    cbn. apply Forall_app. split; [exact L |].
    constructor; [| constructor].
    unfold geometryOk. cbn. repeat split; try reflexivity; ring.
  - (* nudge *)
    destruct (nudgeUndoPushed s), axis; geometry_update.
  - (* flip horizontal *)
    destruct (isRotatedSideways node); geometry_update.
  - (* flip vertical *)
    destruct (isRotatedSideways node); geometry_update.
  - (* duplicate *)
    cbn. apply Forall_app. split; [exact L |].
    constructor; [| constructor].
    rewrite Forall_forall in L.
    exact (L node (selected_in_layer s node Sel)).
  - (* bring to top *)
    cbn. apply Forall_app. split; apply filter_Forall; exact L.
  - (* send to bottom *)
    cbn. apply Forall_app. split; apply filter_Forall; exact L.
  - (* double click *)
    cbn. apply Forall_app. split; apply filter_Forall; exact L.
  - (* delete *)
    cbn. apply filter_Forall; exact L.
Qed.

Lemma step_sessionGeometryOk (cosDeg sinDeg : Q -> Q) (s : State)
      (a : Action) :
  sessionGeometryOk s -> addsUsableImage a ->
  sessionGeometryOk (step cosDeg sinDeg s a).
Proof.
  intros [Inv L] Hadd.
  split; [apply step_sessionCropInvariant; assumption |].
  destruct a; cbn [step].
  - apply applyOp_geometryOk; exact L.
  - unfold selectImage. destruct (find _ _); exact L.
  - exact L.
  - exact L.
  - unfold undo.
    destruct (pop (undoStack s)) as [[z rest] |] eqn:E; [| exact L].
    destruct Inv as (_ & U & _).
    destruct (pop_Forall _ _ _ _ E U) as [Hz _].
    apply restoreState_geometryOk. exact Hz.
  - unfold redo.
    destruct (pop (redoStack s)) as [[z rest] |] eqn:E; [| exact L].
    destruct Inv as (_ & _ & R).
    destruct (pop_Forall _ _ _ _ E R) as [Hz _].
    apply restoreState_geometryOk. exact Hz.
Qed.

Lemma run_sessionGeometryOk (cosDeg sinDeg : Q -> Q) (actions : list Action)
      (s : State) :
  sessionGeometryOk s -> Forall addsUsableImage actions ->
  sessionGeometryOk (run cosDeg sinDeg actions s).
Proof.
  revert s. induction actions as [| a rest IH]; intros s Hs Ha; [exact Hs |].
  inversion Ha; subst. unfold run. cbn [fold_left].
  apply IH; [apply step_sessionGeometryOk; assumption | assumption].
Qed.



(* ================================================================= *)
(** ** The rotation counts modulo 360 *)

Lemma normalizeRotation_congruent (r : Q) :
  exists j : Z, normalizeRotation r == r - 360 * inject_Z j.
Proof.
  unfold normalizeRotation, JS.rem.
  exists (JS.trunc (r / 360)
          + JS.trunc ((r - 360 * inject_Z (JS.trunc (r / 360)) + 360) / 360)
          - 1)%Z.
  unfold Z.sub. rewrite !inject_Z_plus, inject_Z_opp.
  change (inject_Z 1) with 1. ring.
Qed.

Lemma unique_residue (a b : Q) (j : Z) :
  0 <= a -> a < 360 -> 0 <= b -> b < 360 ->
  a - b == 360 * inject_Z j -> a == b.
Proof.
  intros A0 A1 B0 B1 H.
  assert (Lo : inject_Z (-1) < inject_Z j)
    by (change (inject_Z (-1)) with (-1); lra).
  assert (Hi : inject_Z j < inject_Z 1)
    by (change (inject_Z 1) with 1; lra).
  rewrite <- Zlt_Qlt in Lo, Hi.
  assert (j = 0%Z) by lia. subst j.
  change (inject_Z 0) with 0 in H. lra.
Qed.

Lemma normalizeRotation_periodic (r r' : Q) (k : Z) :
  r' - r == 360 * inject_Z k ->
  normalizeRotation r' == normalizeRotation r.
Proof.
  intros H.
  destruct (normalizeRotation_congruent r) as [j Ej].
  destruct (normalizeRotation_congruent r') as [j' Ej'].
  destruct (normalizeRotation_range r) as [R0 R1].
  destruct (normalizeRotation_range r') as [R0' R1'].
  apply (unique_residue _ _ (k - j' + j)%Z); try assumption.
  unfold Z.sub. rewrite !inject_Z_plus, inject_Z_opp.
  rewrite Ej, Ej'. lra.
Qed.

Lemma snapRotation_periodic (r r' : Q) (k : Z) :
  r' - r == 360 * inject_Z k -> snapRotation r' == snapRotation r.
Proof.
  intros H. unfold snapRotation. cbv zeta.
  pose proof (normalizeRotation_periodic r r' k H) as N.
  assert (E : JS.round (normalizeRotation r' / 90)
              = JS.round (normalizeRotation r / 90))
    by (apply round_compat; rewrite N; reflexivity).
  rewrite E. reflexivity.
Qed.

Lemma lookupQuadrant_compat {A : Type} (m0 m90 m180 m270 : A) (a b : Q) :
  a == b ->
  lookupQuadrant m0 m90 m180 m270 a = lookupQuadrant m0 m90 m180 m270 b.
Proof.
  intros H. unfold lookupQuadrant.
  assert (B : forall c, Qeq_bool a c = Qeq_bool b c).
  { intros c. destruct (Qeq_bool b c) eqn:E.
    - apply Qeq_bool_iff. apply Qeq_bool_iff in E. rewrite H. exact E.
    - destruct (Qeq_bool a c) eqn:E'; [| reflexivity].
      apply Qeq_bool_iff in E'. rewrite H in E'.
      apply Qeq_bool_iff in E'. congruence. }
  rewrite !B. reflexivity.
Qed.

(** X21. The edge tables depend on the rotation only modulo 360: adding
    any whole number of full turns to the rotation, as repeated
    [rotateLeft] and [rotateRight] do, changes neither the source edge of
    a handle nor the visual edge of a source edge. *)
Theorem edge_maps_are_periodic (e : Edge) (r r' sx sy : Q) (k : Z) :
  r' - r == 360 * inject_Z k ->
  getSourceEdge e r' sx sy = getSourceEdge e r sx sy /\
  getVisualEdge e r' sx sy = getVisualEdge e r sx sy.
Proof.
  intros H. pose proof (snapRotation_periodic r r' k H) as S.
  unfold getSourceEdge, getVisualEdge, rotationMaps, visualMaps. cbv zeta.
  rewrite !(lookupQuadrant_compat _ _ _ _ _ _ S). split; reflexivity.
Qed.

Lemma edge_maps_are_periodic_witness :
  getSourceEdge Edge.top (-270) 1 1 = getSourceEdge Edge.top 90 1 1.
Proof.
  destruct (edge_maps_are_periodic Edge.top 90 (-270) 1 1 (-1)) as [A _].
  - vm_compute. reflexivity.
  - exact A.
Defined.

(* ================================================================= *)
(** ** Rotations are whole quarter turns *)

Lemma isQuarterTurn_atTurn (r : Q) :
  isQuarterTurn r -> exists q, atTurn q r.
Proof.
  intros [k Hk].
  destruct (normalizeRotation_congruent r) as [j Ej].
  destruct (normalizeRotation_range r) as [R0 R1].
  assert (E : normalizeRotation r == 90 * inject_Z (k - 4 * j)).
  { unfold Z.sub. rewrite inject_Z_plus, inject_Z_opp, inject_Z_mult.
    change (inject_Z 4) with 4. rewrite Ej, Hk. ring. }
  remember (k - 4 * j)%Z as m eqn:Em. clear Em.
  assert (Lo : inject_Z (-1) < inject_Z m)
    by (change (inject_Z (-1)) with (-1); lra).
  assert (Hi : inject_Z m < inject_Z 4)
    by (change (inject_Z 4) with 4; lra).
  rewrite <- Zlt_Qlt in Lo, Hi.
  assert (M : (m = 0 \/ m = 1 \/ m = 2 \/ m = 3)%Z) by lia.
  unfold atTurn.
  destruct M as [-> | [-> | [-> | ->]]];
    [ exists Turn0 | exists Turn90 | exists Turn180 | exists Turn270 ];
    rewrite E; vm_compute; reflexivity.
Qed.

Lemma isQuarterTurn_plus (r : Q) (d : Z) :
  isQuarterTurn r -> isQuarterTurn (r + 90 * inject_Z d).
Proof.
  intros [k Hk]. exists (k + d)%Z. rewrite inject_Z_plus, Hk. ring.
Qed.

Lemma captureState_quarterTurns (s : State) :
  Forall (fun n => isQuarterTurn (Node.rotation n)) (layer s) ->
  snapshotQuarterTurns (captureState s).
Proof.
  intros H. unfold snapshotQuarterTurns. rewrite captureState_images.
  unfold mapi. eapply mapiFrom_Forall; [| exact H].
  intros a k Ha. exact Ha.
Qed.

Lemma createKonvaImageFromState_rotation (i : ImgState.t) (nodeId : nat) :
  Node.rotation (createKonvaImageFromState i nodeId) = ImgState.rotation i.
Proof.
  unfold createKonvaImageFromState. cbv zeta.
  destruct (JS.ltb 0 _ && JS.ltb 0 _); reflexivity.
Qed.

Lemma restoreState_quarterTurns (snap : Snapshot) (s : State) :
  snapshotQuarterTurns snap ->
  Forall (fun n => isQuarterTurn (Node.rotation n))
         (layer (restoreState snap s)).
Proof.
  intros H. rewrite restoreState_layer. unfold mapi.
  eapply mapiFrom_Forall; [| apply sortBy_Forall; exact H].
  intros a k Ha. cbn beta.
  rewrite createKonvaImageFromState_rotation. exact Ha.
Qed.

Lemma pushUndo_quarterTurns (s : State) :
  sessionQuarterTurns s -> sessionQuarterTurns (pushUndo s).
Proof.
  intros (L & U & R). unfold sessionQuarterTurns, pushUndo.
  cbn [layer undoStack redoStack set_stacks].
  repeat split; [exact L | | constructor].
  apply limitStack_Forall, Forall_app. split; [exact U |].
  constructor; [apply captureState_quarterTurns; exact L | constructor].
Qed.

Lemma updateNode_quarterTurns (i : nat) (f : Node.t -> Node.t) (s : State) :
  (forall n, isQuarterTurn (Node.rotation n) ->
             isQuarterTurn (Node.rotation (f n))) ->
  sessionQuarterTurns s -> sessionQuarterTurns (updateNode i f s).
Proof.
  intros Hf (L & U & R). unfold sessionQuarterTurns, updateNode.
  cbn [layer undoStack redoStack set_layer].
  repeat split; [| exact U | exact R].
  apply Forall_map. eapply Forall_impl; [| exact L].
  intros n Hn. cbn beta. destruct (Nat.eqb _ _); auto.
Qed.

Lemma updateCropFromHandle_rotation (cosDeg sinDeg : Q -> Q) (n : Node.t)
      (handle : Handle.t) (vp : Edge) :
  Node.rotation (updateCropFromHandle cosDeg sinDeg n handle vp)
  = Node.rotation n.
Proof.
  unfold updateCropFromHandle.
  destruct (Qeq_bool _ 0); [reflexivity |].
  destruct (getSourceEdge _ _ _ _); [| reflexivity].
  cbv zeta. unfold applyCropBounds.
  destruct (Qeq_bool _ 0 || Qeq_bool _ 0); [reflexivity |].
  destruct (Qle_bool _ 0 || Qle_bool _ 0); [reflexivity |].
  cbv zeta. destruct (getVisualEdge _ _ _ _); reflexivity.
Qed.

Ltac quarter_update :=
  apply updateNode_quarterTurns;
  [ first [ intros ? ?; assumption
          | intros ? ?; rewrite updateCropFromHandle_rotation; assumption ]
  | first [ assumption | apply pushUndo_quarterTurns; assumption ] ].

Lemma applyOp_quarterTurns (cosDeg sinDeg : Q -> Q) (op : Op) (s : State) :
  sessionQuarterTurns s ->
  sessionQuarterTurns (applyOp cosDeg sinDeg op s).
Proof.
  intros Inv.
  pose proof (pushUndo_quarterTurns s Inv) as (PL & PU & PR).
  destruct op; cbn [applyOp];
    unfold addImage, dragImage, handleNudge, transformSelected,
      dragCropHandle, resetCrop, flipHorizontal, flipVertical, rotateLeft,
      rotateRight, duplicateImage, bringToTop, sendToBottom, dblclickImage,
      deleteSelected, setBlendMode, setOpacity, moveToTop, moveToBottom,
      destroyNode;
    try (destruct (getSelectedImage s) as [node |] eqn:Sel; [| exact Inv]);
    try (destruct (find (isNode nodeId) (layer s)) as [node |] eqn:Fnd;
         [| exact Inv]);
    try quarter_update.
  - (* add *)
    repeat split; [| exact PU | exact PR].
    cbn. apply Forall_app. split; [exact PL |].
    constructor; [| constructor].
    exists 0%Z. cbn. reflexivity.
  - (* nudge *)
    destruct (nudgeUndoPushed s), axis; quarter_update.
  - (* flip horizontal *)
    destruct (isRotatedSideways node); quarter_update.
  - (* flip vertical *)
    destruct (isRotatedSideways node); quarter_update.
  - (* rotate left *)
    apply updateNode_quarterTurns;
      [| apply pushUndo_quarterTurns; exact Inv].
    intros n [k Hk]. exists (k - 1)%Z. cbn.
    unfold Z.sub. rewrite inject_Z_plus, inject_Z_opp, Hk.
    change (inject_Z 1) with 1. ring.
  - (* rotate right *)
    apply updateNode_quarterTurns;
      [| apply pushUndo_quarterTurns; exact Inv].
    intros n [k Hk]. exists (k + 1)%Z. cbn.
    rewrite inject_Z_plus, Hk. change (inject_Z 1) with 1. ring.
  - (* duplicate *)
    repeat split; [| exact PU | exact PR].
    cbn. apply Forall_app. split; [exact PL |].
    constructor; [| constructor].
    destruct Inv as (L & _ & _). rewrite Forall_forall in L.
    exact (L node (selected_in_layer s node Sel)).
  - (* bring to top *)
    repeat split; [| exact PU | exact PR]. cbn.
    apply Forall_app. split; apply filter_Forall; exact PL.
  - (* send to bottom *)
    repeat split; [| exact PU | exact PR]. cbn.
    apply Forall_app. split; apply filter_Forall; exact PL.
  - (* double click *)
    repeat split; [| exact PU | exact PR]. cbn.
    apply Forall_app. split; apply filter_Forall; exact PL.
  - (* delete *)
    repeat split; [| exact PU | exact PR]. cbn.
    apply filter_Forall; exact PL.
Qed.

Lemma restore_session_quarterTurns (snap : Snapshot) (u r : list Snapshot)
      (s : State) :
  snapshotQuarterTurns snap ->
  Forall snapshotQuarterTurns u -> Forall snapshotQuarterTurns r ->
  sessionQuarterTurns (restoreState snap (set_stacks u r s)).
Proof.
  intros Hs Hu Hr.
  destruct (restoreState_stacks snap (set_stacks u r s)) as [U R].
  unfold sessionQuarterTurns. rewrite U, R.
  repeat split;
    [apply restoreState_quarterTurns; exact Hs | exact Hu | exact Hr].
Qed.

Lemma step_quarterTurns (cosDeg sinDeg : Q -> Q) (s : State) (a : Action) :
  sessionQuarterTurns s -> sessionQuarterTurns (step cosDeg sinDeg s a).
Proof.
  intros Inv. destruct a; cbn [step].
  - apply applyOp_quarterTurns; assumption.
  - unfold selectImage. destruct (find _ _); exact Inv.
  - exact Inv.
  - apply pushUndo_quarterTurns; exact Inv.
  - unfold undo.
    destruct (pop (undoStack s)) as [[z rest] |] eqn:E; [| exact Inv].
    destruct Inv as (L & U & R).
    destruct (pop_Forall _ _ _ _ E U) as [Hz Hrest].
    apply restore_session_quarterTurns; [exact Hz | exact Hrest |].
    apply Forall_app. split; [exact R |].
    constructor; [apply captureState_quarterTurns; exact L | constructor].
  - unfold redo.
    destruct (pop (redoStack s)) as [[z rest] |] eqn:E; [| exact Inv].
    destruct Inv as (L & U & R).
    destruct (pop_Forall _ _ _ _ E R) as [Hz Hrest].
    apply restore_session_quarterTurns; [exact Hz | | exact Hrest].
    apply Forall_app. split; [exact U |].
    constructor; [apply captureState_quarterTurns; exact L | constructor].
Qed.

(** X22. In every state reached from the empty page by editing
    operations, selections, [pushUndo], [undo] and [redo], the rotation of
    every image is a whole number of quarter turns, so that its
    normalised rotation is exactly 0, 90, 180 or 270 degrees. *)
Theorem rotations_are_quarter_turns
        (cosDeg sinDeg : Q -> Q) (st : Stage.t) (ids : nat -> string)
        (actions : list Action) :
  Forall (fun n => isQuarterTurn (Node.rotation n) /\
                   exists q, atTurn q (Node.rotation n))
         (layer (run cosDeg sinDeg actions (initialState st ids))).
Proof.
  assert (I : sessionQuarterTurns (initialState st ids))
    by (repeat split; constructor).
  assert (R : forall s, sessionQuarterTurns s ->
                        sessionQuarterTurns (run cosDeg sinDeg actions s)).
  { induction actions as [| a rest IH]; intros s Hs; [exact Hs |].
    unfold run. cbn [fold_left]. apply IH. apply step_quarterTurns. exact Hs. }
  destruct (R _ I) as (L & _ & _).
  eapply Forall_impl; [| exact L].
  intros n Hn. split; [exact Hn | apply isQuarterTurn_atTurn; exact Hn].
Qed.

(* ================================================================= *)
(** ** Cropping in reachable states *)

Lemma run_quarterTurns (cosDeg sinDeg : Q -> Q) (actions : list Action)
      (s : State) :
  sessionQuarterTurns s ->
  sessionQuarterTurns (run cosDeg sinDeg actions s).
Proof.
  revert s. induction actions as [| a rest IH]; intros s Hs; [exact Hs |].
  unfold run. cbn [fold_left]. apply IH. apply step_quarterTurns. exact Hs.
Qed.

(** X23. On every image of every state reached from the empty page
    (images added being at least 20 pixels wide and high), whatever its
    quarter turn, flips, scale and earlier crops: a crop update from one
    handle leaves the other three edges of the image's client rectangle
    exactly where they were. *)
Theorem crop_anchors_in_every_reachable_state
        (cosDeg sinDeg : Q -> Q) (st : Stage.t) (ids : nat -> string)
        (actions : list Action) (node : Node.t) (handle : Handle.t)
        (visualPosition e : Edge) :
  exactAtQuarterTurns cosDeg sinDeg ->
  Forall addsUsableImage actions ->
  In node (layer (run cosDeg sinDeg actions (initialState st ids))) ->
  e <> visualPosition ->
  Rect.edge e
    (getClientRect cosDeg sinDeg
       (updateCropFromHandle cosDeg sinDeg node handle visualPosition))
  == Rect.edge e (getClientRect cosDeg sinDeg node).
Proof.
  intros trig Ha Hin Hne.
  assert (I : sessionGeometryOk (initialState st ids)).
  { split; [| constructor]. repeat split; constructor. }
  destruct (run_sessionGeometryOk cosDeg sinDeg actions _ I Ha) as [_ G].
  assert (J : sessionQuarterTurns (initialState st ids))
    by (repeat split; constructor).
  destruct (run_quarterTurns cosDeg sinDeg actions _ J) as (T & _ & _).
  rewrite Forall_forall in G, T.
  pose proof (G node Hin) as Gn.
  destruct (isQuarterTurn_atTurn _ (T node Hin)) as [q Hq].
  clear G T I J Hin Ha.
  destruct (edge_tables_atTurn q visualPosition (Node.rotation node)
              (Node.scaleX node) (Node.scaleY node) Hq)
    as (se & Hs & Hv & Hax).
  destruct (Qeq_bool (Node.originalWidth node) 0) eqn:Hw.
  { rewrite updateCropFromHandle_no_width by exact Hw. reflexivity. }
  rewrite (updateCropFromHandle_unfold cosDeg sinDeg node handle
             visualPosition se Hw Hs).
  match goal with
  | |- context [cropEdge ?w ?h ?c ?se ?d] =>
      destruct (cropEdge_as_set w h c se d) as [v Ev]; rewrite Ev
  end.
  destruct (applyCropBounds_anchored cosDeg sinDeg node
              (Crop.set se v (Node.cropBounds node)) se
              (Edge.opposite visualPosition) Hv) as [E | E];
    rewrite E; [reflexivity |].
  apply (keepAnchor_keeps_edges cosDeg sinDeg trig q); try assumption.
  - rewrite isHorizontalEdge_opposite. exact Hax.
  - rewrite opposite_involutive. exact Hne.
Qed.

Lemma crop_anchors_in_every_reachable_state_witness :
  let s :=
    run quarterCos quarterSin
      [Edit (OpAdd Sample.raster "a.png"); Edit OpRotateRight;
       Edit OpFlipHorizontal]
      (initialState Sample.stage Sample.ids) in
  exists node,
    getSelectedImage s = Some node /\
    Node.rotation node == 90 /\
    Rect.edge Edge.bottom
      (getClientRect quarterCos quarterSin
         (updateCropFromHandle quarterCos quarterSin node
            SampleTurned.topHandleIn30 Edge.top))
    == Rect.edge Edge.bottom (getClientRect quarterCos quarterSin node).
Proof.
  intros s.
  destruct (getSelectedImage s) as [node |] eqn:Sel;
    [| vm_compute in Sel; discriminate Sel].
  exists node. split; [reflexivity |]. split.
  - vm_compute in Sel. injection Sel as <-. vm_compute. reflexivity.
  - apply (crop_anchors_in_every_reachable_state quarterCos quarterSin
             Sample.stage Sample.ids
             [Edit (OpAdd Sample.raster "a.png"); Edit OpRotateRight;
              Edit OpFlipHorizontal]).
    + exact quarter_exactAtQuarterTurns.
    + repeat constructor; cbn; discriminate.
    + apply (selected_in_layer s node Sel).
    + discriminate.
Defined.

(* ================================================================= *)
(** ** Saving a project and reading it back *)

Lemma string_length_append (a b : string) :
  String.length (a ++ b) = (String.length a + String.length b)%nat.
Proof. induction a as [| c a IH]; simpl; [reflexivity | rewrite IH; reflexivity]. Qed.

Lemma append_cancel_r (a b t : string) :
  (a ++ t = b ++ t)%string -> a = b.
Proof.
  revert b. induction a as [| c a IH]; intros [| d b] H; simpl in H.
  - reflexivity.
  - apply (f_equal String.length) in H. simpl in H.
    rewrite string_length_append in H. lia.
  - apply (f_equal String.length) in H. simpl in H.
    rewrite string_length_append in H. lia.
  - injection H as -> H. f_equal. apply IH. exact H.
Qed.

Lemma natToString_inj (a b : nat) : natToString a = natToString b -> a = b.
Proof.
  unfold natToString. intros H.
  apply (f_equal NilEmpty.uint_of_string) in H.
  rewrite !NilEmpty.usu in H. injection H as H.
  apply DecimalNat.Unsigned.to_uint_inj. exact H.
Qed.

Lemma pngName_inj (a b : nat) : pngName a = pngName b -> a = b.
Proof.
  unfold pngName. intros H. apply natToString_inj.
  apply (append_cancel_r _ _ ".png"). exact H.
Qed.

Lemma orString_nonempty (v d : string) : d <> "" -> orString v d <> "".
Proof.
  intros Hd. unfold orString.
  destruct (String.eqb_spec v ""); [exact Hd | assumption].
Qed.

Lemma orString_keeps (v d : string) : v <> "" -> orString v d = v.
Proof.
  intros Hv. unfold orString.
  destruct (String.eqb_spec v ""); [contradiction | reflexivity].
Qed.

Section SaveAndLoad.

Variable decodePng : Raster -> Raster.

Lemma serializeImages_entries (imgs : list ImgState.t) (i : nat)
      (folder : string -> option ImageFile) (entries : list ImgData.t) :
  snd (serializeImages decodePng imgs i folder entries)
  = entries ++ mapiFrom serializeImage i imgs.
Proof.
  revert i folder entries.
  induction imgs as [| a rest IH]; intros i folder entries; simpl.
  - rewrite app_nil_r. reflexivity.
  - rewrite IH, <- app_assoc. reflexivity.
Qed.

Lemma serializeImages_other (imgs : list ImgState.t) (i : nat)
      (folder : string -> option ImageFile) (entries : list ImgData.t)
      (name : string) :
  (forall j, (j < List.length imgs)%nat -> pngName (i + j) <> name) ->
  fst (serializeImages decodePng imgs i folder entries) name = folder name.
Proof.
  revert i folder entries.
  induction imgs as [| a rest IH]; intros i folder entries H; simpl;
    [reflexivity |].
  rewrite IH.
  - unfold insertFile.
    destruct (String.eqb_spec name (pngName i)) as [E | _]; [| reflexivity].
    exfalso. apply (H 0%nat); [simpl; lia |].
    rewrite Nat.add_0_r. symmetry. exact E.
  - intros j Hj. replace (S i + j)%nat with (i + S j)%nat by lia.
    apply H. simpl. lia.
Qed.

Lemma serializeImages_file (imgs : list ImgState.t) (i : nat)
      (folder : string -> option ImageFile) (entries : list ImgData.t)
      (j : nat) (img : ImgState.t) :
  nth_error imgs j = Some img ->
  fst (serializeImages decodePng imgs i folder entries) (pngName (i + j))
  = Some (Decodes (decodePng (ImgState.imageRef img))).
Proof.
  revert i folder entries j.
  induction imgs as [| a rest IH]; intros i folder entries j H;
    [destruct j; discriminate |].
  destruct j as [| j]; simpl in H |- *.
  - injection H as ->. rewrite Nat.add_0_r.
    rewrite serializeImages_other.
    + unfold insertFile. rewrite String.eqb_refl. reflexivity.
    + intros k _ E. apply pngName_inj in E. lia.
  - replace (i + S j)%nat with (S i + j)%nat by lia.
    apply IH. exact H.
Qed.

(** The loop of [deserializeStateFromZip] on entries written by
    [serializeStateToZip]. *)
Lemma deserializeImages_of_saved (archive : Archive) (rest : list ImgState.t)
      (k : nat) (loaded : list ImgState.t) (s : State) :
  (forall j img, nth_error rest j = Some img ->
     imagesFolder archive (pngName (k + j))
     = Some (Decodes (decodePng (ImgState.imageRef img)))) ->
  Forall (fun i => ImgState.id i <> "" /\ ImgState.name i <> "" /\
                   ImgState.blendMode i <> "" /\
                   ~ ImgState.originalWidth i == 0 /\
                   ~ ImgState.originalHeight i == 0) rest ->
  deserializeImages archive k (mapiFrom serializeImage k rest) loaded s
  = (s, inr (loaded ++ map (reload decodePng) rest)).
Proof.
  revert k loaded.
  induction rest as [| a rest IH]; intros k loaded Hf Hs.
  - simpl. rewrite app_nil_r. reflexivity.
  - inversion Hs as [| ? ? (Hid & Hname & Hblend & Hw & Hh) Hrest]; subst.
    cbn [mapiFrom deserializeImages serializeImage ImgData.filename
         ImgData.id ImgData.x ImgData.y ImgData.scaleX ImgData.scaleY
         ImgData.rotation ImgData.cropBounds ImgData.blendMode
         ImgData.opacity ImgData.originalWidth ImgData.originalHeight
         ImgData.name ImgData.zIndex].
    pose proof (Hf 0%nat a eq_refl) as F. rewrite Nat.add_0_r in F.
    rewrite F.
    destruct (String.eqb_spec (ImgState.id a) "") as [E | _];
      [contradiction |].
    cbn [orNumber orStringOpt].
    rewrite (Qeq_bool_false _ 0 Hw), (Qeq_bool_false _ 0 Hh).
    rewrite (orString_keeps _ _ Hblend), (orString_keeps _ _ Hname).
    rewrite IH.
    + rewrite <- app_assoc. reflexivity.
    + intros j img Hj. replace (S k + j)%nat with (k + S j)%nat by lia.
      apply Hf. exact Hj.
    + exact Hrest.
Qed.

Lemma mapiFrom_captured_fields (l : list Node.t) (k : nat) :
  Forall hasNoFalsyField l ->
  Forall (fun i => ImgState.id i <> "" /\ ImgState.name i <> "" /\
                   ImgState.blendMode i <> "" /\
                   ~ ImgState.originalWidth i == 0 /\
                   ~ ImgState.originalHeight i == 0)
         (mapiFrom captureImage k l).
Proof.
  intros H. eapply mapiFrom_Forall; [| exact H].
  intros a j (Hid & Hname & Hw & Hh). cbn.
  repeat split; try assumption.
  apply orString_nonempty. discriminate.
Qed.

(** X24. [saveProject] refuses an empty scene with an alert and writes
    nothing.  Otherwise it writes an archive from which
    [deserializeStateFromZip] reads back every image of the scene, in
    order and with every saved field as it was (the image itself being
    the one decoded from its PNG file), without a warning and without
    drawing a new id, provided no image has an empty id or name or a
    source size of 0, for which the reader substitutes defaults. *)
Theorem save_then_load_reads_back (s : State) :
  (layer s = [] ->
   saveProject decodePng s = (alert "No images to save" s, None)) /\
  (layer s <> [] ->
   Forall hasNoFalsyField (layer s) ->
   exists archive,
     saveProject decodePng s = (s, Some archive) /\
     forall s',
       deserializeStateFromZip archive s'
       = (s', inr (map (reload decodePng) (images (captureState s))))).
Proof.
  unfold saveProject. cbv zeta. rewrite captureState_images. unfold mapi.
  split.
  - intros E. rewrite E. reflexivity.
  - intros Hne Hok.
    destruct (layer s) as [| n rest] eqn:El; [congruence |].
    eexists. split; [reflexivity |].
    intros s'. unfold deserializeStateFromZip, serializeStateToZip.
    rewrite captureState_images, El. unfold mapi.
    remember (mapiFrom captureImage 0 (n :: rest)) as imgs eqn:Ei.
    destruct (serializeImages decodePng imgs 0 (fun _ => None) [])
      as [folder entries] eqn:Es.
    cbn [projectJson].
    assert (Ee : entries = mapiFrom serializeImage 0 imgs).
    { pose proof (serializeImages_entries imgs 0 (fun _ => None) []) as E.
      rewrite Es in E. exact E. }
    rewrite Ee.
    apply deserializeImages_of_saved.
    + intros j img Hj. cbn [imagesFolder].
      pose proof (serializeImages_file imgs 0 (fun _ => None) [] j img Hj)
        as F.
      rewrite Es in F. exact F.
    + rewrite Ei. apply mapiFrom_captured_fields. exact Hok.
Qed.

End SaveAndLoad.

Lemma save_then_load_reads_back_witness :
  exists archive,
    saveProject (fun r => r) Sample.state = (Sample.state, Some archive) /\
    deserializeStateFromZip archive Sample.state
    = (Sample.state, inr (images (captureState Sample.state))).
Proof.
  destruct (save_then_load_reads_back (fun r => r) Sample.state)
    as [_ A].
  destruct A as (archive & Sv & Ld).
  - discriminate.
  - repeat constructor; cbn; discriminate.
  - exists archive. split; [exact Sv |]. rewrite Ld. reflexivity.
Defined.

(* ================================================================= *)
(** ** The selection across undo and redo *)

Lemma insertBy_In {A : Type} (key : A -> Z) (a x : A) (l : list A) :
  In x (insertBy key a l) <-> x = a \/ In x l.
Proof.
  induction l as [| b l IH]; simpl.
  - intuition congruence.
  - destruct (key a <=? key b)%Z; simpl; [intuition congruence |].
    rewrite IH. intuition congruence.
Qed.

Lemma sortBy_In {A : Type} (key : A -> Z) (x : A) (l : list A) :
  In x (sortBy key l) <-> In x l.
Proof.
  induction l as [| a l IH]; simpl; [reflexivity |].
  rewrite insertBy_In, IH. intuition congruence.
Qed.

Lemma createKonvaImageFromState_id (i : ImgState.t) (nodeId : nat) :
  Node._id (createKonvaImageFromState i nodeId) = nodeId /\
  Node.imageId (createKonvaImageFromState i nodeId) = ImgState.id i.
Proof.
  unfold createKonvaImageFromState. cbv zeta.
  destruct (JS.ltb 0 _ && JS.ltb 0 _); split; reflexivity.
Qed.

Lemma created_ids_from (l : list ImgState.t) (k : nat) (r : Node.t) :
  In r (mapiFrom createKonvaImageFromState k l) -> (k <= Node._id r)%nat.
Proof.
  revert k. induction l as [| a l IH]; intros k H; simpl in H; [contradiction |].
  destruct H as [<- | H].
  - destruct (createKonvaImageFromState_id a k) as [E _]. rewrite E. lia.
  - apply IH in H. lia.
Qed.

Lemma find_created_by_id (l : list ImgState.t) (k : nat) (r : Node.t) :
  In r (mapiFrom createKonvaImageFromState k l) ->
  find (fun n => Nat.eqb (Node._id n) (Node._id r))
       (mapiFrom createKonvaImageFromState k l) = Some r.
Proof.
  revert k. induction l as [| a l IH]; intros k H; simpl in H; [contradiction |].
  simpl. destruct H as [<- | H].
  - rewrite Nat.eqb_refl. reflexivity.
  - destruct (createKonvaImageFromState_id a k) as [E _]. rewrite E.
    pose proof (created_ids_from l (S k) r H) as Hk.
    destruct (Nat.eqb_spec k (Node._id r)) as [C | _]; [lia |].
    apply IH. exact H.
Qed.

Lemma created_imageIds (l : list ImgState.t) (k : nat) (sid : string) :
  (exists r, In r (mapiFrom createKonvaImageFromState k l) /\
             Node.imageId r = sid)
  <-> In sid (map ImgState.id l).
Proof.
  revert k. induction l as [| a l IH]; intros k; simpl.
  - split; [intros (r & [] & _) | contradiction].
  - destruct (createKonvaImageFromState_id a k) as [_ E]. split.
    + intros (r & [<- | H] & Hr).
      * left. rewrite <- Hr, E. reflexivity.
      * right. apply (IH (S k)). exists r. split; assumption.
    + intros [H | H].
      * eexists. split; [left; reflexivity |]. rewrite E. exact H.
      * apply (IH (S k)) in H. destruct H as (r & Hin & Hr).
        exists r. split; [right; exact Hin | exact Hr].
Qed.

Lemma mapiFrom_offset {A B : Type} (f : A -> nat -> B) (b : nat)
      (l : list A) :
  mapiFrom (fun a i => f a (b + i)%nat) 0 l = mapiFrom f b l.
Proof.
  assert (G : forall j,
             mapiFrom (fun a i => f a (b + i)%nat) j l
             = mapiFrom f (b + j) l).
  { induction l as [| a l IH]; intros j; simpl; [reflexivity |].
    f_equal. rewrite IH. f_equal. lia. }
  rewrite G. f_equal. lia.
Qed.

Lemma restoreState_selection (snap : Snapshot) (s : State) (node : Node.t) :
  getSelectedImage s = Some node ->
  Node.imageId node <> "" ->
  (In (Node.imageId node) (map ImgState.id (images snap)) ->
   exists node',
     getSelectedImage (restoreState snap s) = Some node' /\
     Node.imageId node' = Node.imageId node) /\
  (~ In (Node.imageId node) (map ImgState.id (images snap)) ->
   getSelectedImage (restoreState snap s) = None).
Proof.
  intros Hs Hid. unfold restoreState. rewrite Hs. cbv zeta.
  destruct (String.eqb_spec (Node.imageId node) "") as [C | _];
    [contradiction |].
  unfold findImageById. cbn [layer set_layer set_nextNodeId].
  unfold mapi.
  set (sorted := sortBy ImgState.zIndex (images snap)).
  set (created :=
         mapiFrom
           (fun imgState i =>
              createKonvaImageFromState imgState (nextNodeId s + i))
           0 sorted).
  assert (Ec : created
               = mapiFrom createKonvaImageFromState (nextNodeId s) sorted).
  { unfold created. apply mapiFrom_offset. }
  assert (Hin : In (Node.imageId node) (map ImgState.id sorted)
                <-> In (Node.imageId node) (map ImgState.id (images snap))).
  { unfold sorted. rewrite !in_map_iff.
    split; intros (x & E & H); exists x; (split; [exact E |]);
      apply (sortBy_In ImgState.zIndex); exact H. }
  clearbody created sorted. subst created.
  destruct (find (fun n => String.eqb (Node.imageId n) (Node.imageId node))
              (mapiFrom createKonvaImageFromState (nextNodeId s) sorted))
    as [r |] eqn:F.
  - apply find_some in F. destruct F as [Fin Fid].
    apply String.eqb_eq in Fid.
    split.
    + intros _. exists r. split; [| exact Fid].
      unfold getSelectedImage. cbn [selection layer set_selection set_layer
                                    set_nextNodeId].
      apply find_created_by_id. exact Fin.
    + intros Hn. exfalso. apply Hn. apply Hin.
      apply (created_imageIds sorted (nextNodeId s)).
      exists r. split; assumption.
  - split.
    + intros Hy. exfalso. apply Hin in Hy.
      apply (created_imageIds sorted (nextNodeId s)) in Hy.
      destruct Hy as (r & Hr & Er).
      pose proof (find_none _ _ F r Hr) as N. cbn beta in N.
      rewrite Er, String.eqb_refl in N. discriminate.
    + intros _. reflexivity.
Qed.

(** X25. Undo and redo keep the selection on the same image: when the
    selected image (by its id) is part of the restored snapshot, the
    recreated image with that id is selected afterwards; when it is not,
    nothing is selected. *)
Theorem undo_keeps_selection_by_id
        (s : State) (node : Node.t) (prev : Snapshot) (rest : list Snapshot) :
  getSelectedImage s = Some node ->
  Node.imageId node <> "" ->
  undoStack s = rest ++ [prev] ->
  (In (Node.imageId node) (map ImgState.id (images prev)) ->
   exists node',
     getSelectedImage (undo s) = Some node' /\
     Node.imageId node' = Node.imageId node) /\
  (~ In (Node.imageId node) (map ImgState.id (images prev)) ->
   getSelectedImage (undo s) = None).
Proof.
  intros Hs Hid Hu. unfold undo. rewrite Hu, pop_app. cbv zeta.
  apply restoreState_selection; [exact Hs | exact Hid].
Qed.

Lemma undo_keeps_selection_by_id_witness :
  exists node',
    getSelectedImage (undo (rotateRight Sample.state)) = Some node' /\
    Node.imageId node' = "img_a".
Proof.
  destruct (undo_keeps_selection_by_id (rotateRight Sample.state)
              (Node.set_rotation 90 Sample.node)
              (captureState Sample.state) []) as [A _].
  - vm_compute. reflexivity.
  - discriminate.
  - reflexivity.
  - apply A. cbn. left. reflexivity.
Defined.

(* ================================================================= *)
(** ** Resetting the crop *)

Section ResetCrop.

Variables cosDeg sinDeg : Q -> Q.
Hypothesis trig : exactAtQuarterTurns cosDeg sinDeg.

(** The client rectangle of a node at a quarter turn whose origin is the
    centre of its own rectangle is centred on the node's position. *)
Lemma rect_centre_atTurn (q : Turn) (n : Node.t) :
  atTurn q (Node.rotation n) ->
  Node.offsetX n == Node.width n / 2 ->
  Node.offsetY n == Node.height n / 2 ->
  let r := getClientRect cosDeg sinDeg n in
  Rect.x r + Rect.width r / 2 == Node.x n /\
  Rect.y r + Rect.height r / 2 == Node.y n.
Proof.
  intros Hq Gox Goy r.
  pose proof (quarter_edges cosDeg sinDeg trig q n Hq) as E.
  cbv zeta in E. fold r in E. clearbody r.
  destruct E as (L & R & T & B).
  unfold isMinOf, isMaxOf in *.
  destruct L as (? & ? & ?), R as (? & ? & ?), T as (? & ? & ?),
           B as (? & ? & ?).
  assert (PX : Node.scaleX n * Node.offsetX n
               == Node.scaleX n * Node.width n * (1 # 2))
    by (rewrite Gox; field).
  assert (PY : Node.scaleY n * Node.offsetY n
               == Node.scaleY n * Node.height n * (1 # 2))
    by (rewrite Goy; field).
  clear Hq Gox Goy.
  unfold Qdiv. change (/ 2) with (1 # 2).
  destruct q; cbn [spanX spanY fst snd Rect.edge] in *; split; lra.
Qed.

(** X26. [resetCrop] clears the four bounds as one undoable action and
    gives the image its full source size again, around the position the
    cropped image had: at a quarter turn the client rectangle keeps its
    centre, and its size becomes the source size times the absolute
    scales (width and height exchanged at 90 and 270 degrees). *)
Theorem resetCrop_restores_full_image_about_centre
        (q : Turn) (s : State) (node : Node.t) :
  getSelectedImage s = Some node ->
  atTurn q (Node.rotation node) ->
  geometryOk node ->
  0 <= Node.originalWidth node -> 0 <= Node.originalHeight node ->
  exists node',
    getSelectedImage (resetCrop s) = Some node' /\
    stacksPushed s (resetCrop s) /\
    Node.cropBounds node' = Crop.zero /\
    let r := getClientRect cosDeg sinDeg node in
    let r' := getClientRect cosDeg sinDeg node' in
    Rect.x r' + Rect.width r' / 2 == Rect.x r + Rect.width r / 2 /\
    Rect.y r' + Rect.height r' / 2 == Rect.y r + Rect.height r / 2 /\
    Rect.width r'
    == (if swapsAxes q
        then JS.abs (Node.scaleY node) * Node.originalHeight node
        else JS.abs (Node.scaleX node) * Node.originalWidth node) /\
    Rect.height r'
    == (if swapsAxes q
        then JS.abs (Node.scaleX node) * Node.originalWidth node
        else JS.abs (Node.scaleY node) * Node.originalHeight node).
Proof.
  intros Hs Hq (Gw & Gh & Gox & Goy) Hw Hh.
  exists (resetCropNode node). split.
  { unfold resetCrop. rewrite Hs.
    apply (getSelectedImage_updated s node); [reflexivity | exact Hs]. }
  split.
  { unfold resetCrop. rewrite Hs. split; reflexivity. }
  split; [reflexivity |].
  destruct (rect_centre_atTurn q node Hq Gox Goy) as [CX CY].
  assert (Hq' : atTurn q (Node.rotation (resetCropNode node))) by exact Hq.
  destruct (rect_centre_atTurn q (resetCropNode node) Hq')
    as [CX' CY']; [reflexivity | reflexivity |].
  destruct (extent_atTurn cosDeg sinDeg trig q (resetCropNode node) Hq')
    as [EW EH]; [exact Hw | exact Hh |].
  cbv zeta in *.
  split; [rewrite CX, CX'; reflexivity |].
  split; [rewrite CY, CY'; reflexivity |].
  split; [exact EW | exact EH].
Qed.

End ResetCrop.

Lemma resetCrop_restores_full_image_witness :
  exists node',
    getSelectedImage (resetCrop Sample.state) = Some node' /\
    Rect.width (getClientRect quarterCos quarterSin node') == 100.
Proof.
  destruct (resetCrop_restores_full_image_about_centre quarterCos quarterSin
              quarter_exactAtQuarterTurns Turn0 Sample.state Sample.node)
    as (node' & Sel & _ & _ & _ & _ & W & _).
  - reflexivity.
  - vm_compute. reflexivity.
  - unfold geometryOk. cbn. repeat split; reflexivity.
  - discriminate.
  - discriminate.
  - exists node'. split; [exact Sel |].
    cbv zeta in W. rewrite W. vm_compute. reflexivity.
Defined.

(* ================================================================= *)
(** ** Nudging with the arrow keys *)

Lemma round_within_half (x : Q) :
  inject_Z (JS.round x) - (1 # 2) <= x /\ x < inject_Z (JS.round x) + (1 # 2).
Proof.
  unfold JS.round.
  pose proof (Qfloor_le (x + (1 # 2))) as Lo.
  pose proof (Qlt_floor (x + (1 # 2))) as Hi.
  rewrite inject_Z_plus in Hi. change (inject_Z 1) with 1 in Hi.
  split; lra.
Qed.

Lemma round_whole (z : Z) : JS.round (inject_Z z) = z.
Proof.
  destruct (round_within_half (inject_Z z)) as [Lo Hi].
  remember (JS.round (inject_Z z)) as r eqn:Er. clear Er.
  assert (A : inject_Z (r - 1) < inject_Z z).
  { unfold Z.sub. rewrite inject_Z_plus, inject_Z_opp.
    change (inject_Z 1) with 1. lra. }
  assert (B : inject_Z z < inject_Z (r + 1)).
  { rewrite inject_Z_plus. change (inject_Z 1) with 1. lra. }
  rewrite <- Zlt_Qlt in A, B. lia.
Qed.

(** X27. An arrow-key nudge moves the selected image along one axis
    only.  With snapping the new coordinate is a whole number, the one
    nearest to the old coordinate plus the amount (halves going up); from
    a whole coordinate, a whole amount is added exactly.  Without
    snapping the amount is added as it is. *)
Theorem nudge_moves_one_axis
        (axis : Axis) (amount : Q) (shouldSnap : bool) (s : State)
        (node : Node.t) :
  getSelectedImage s = Some node ->
  exists node',
    getSelectedImage (handleNudge axis amount shouldSnap s) = Some node' /\
    let old := match axis with AxisX => Node.x node | AxisY => Node.y node end
    in
    let new :=
      match axis with AxisX => Node.x node' | AxisY => Node.y node' end in
    match axis with
    | AxisX => Node.y node' = Node.y node
    | AxisY => Node.x node' = Node.x node
    end /\
    (shouldSnap = false -> new = old + amount) /\
    (shouldSnap = true ->
     exists z : Z,
       new = inject_Z z /\
       inject_Z z - (1 # 2) <= old + amount /\
       old + amount < inject_Z z + (1 # 2) /\
       forall a b : Z,
         old == inject_Z a -> amount == inject_Z b -> z = (a + b)%Z).
Proof.
  intros Hs. unfold handleNudge. rewrite Hs.
  assert (Hs1 : getSelectedImage (set_nudgeUndoPushed true (pushUndo s))
                = Some node) by exact Hs.
  assert (R : forall v : Q,
             exists z : Z,
               inject_Z (JS.round v) = inject_Z z /\
               inject_Z z - (1 # 2) <= v /\ v < inject_Z z + (1 # 2) /\
               forall a b : Z,
                 (match axis with
                  | AxisX => Node.x node
                  | AxisY => Node.y node
                  end) == inject_Z a ->
                 amount == inject_Z b ->
                 v == (match axis with
                       | AxisX => Node.x node
                       | AxisY => Node.y node
                       end) + amount ->
                 z = (a + b)%Z).
  { intros v. exists (JS.round v).
    destruct (round_within_half v) as [Lo Hi].
    repeat split; try assumption.
    intros a b Ea Eb Ev.
    rewrite <- (round_whole (a + b)). apply round_compat.
    rewrite Ev, Ea, Eb, inject_Z_plus. reflexivity. }
  destruct (nudgeUndoPushed s), axis;
    (eexists; split;
     [ apply getSelectedImage_updateNode;
       [reflexivity | first [exact Hs | exact Hs1]]
     | cbn [Node.x Node.y Node.set_x Node.set_y];
       split; [reflexivity |];
       split;
       [ intros ->; reflexivity
       | intros ->;
         match goal with
         | |- context [JS.round ?v] =>
             destruct (R v) as (z & Ez & Lo & Hi & W)
         end;
         exists z; repeat split; try assumption;
         intros a b Ea Eb; apply (W a b Ea Eb); reflexivity ] ]).
Qed.

Lemma nudge_moves_one_axis_witness :
  exists node',
    getSelectedImage (handleNudge AxisX 10 true Sample.state) = Some node' /\
    Node.x node' == 210.
Proof.
  destruct (nudge_moves_one_axis AxisX 10 true Sample.state Sample.node)
    as (node' & Sel & _ & _ & Sn).
  - reflexivity.
  - exists node'. split; [exact Sel |].
    destruct (Sn eq_refl) as (z & E & _ & _ & W).
    cbv zeta in E. rewrite E.
    rewrite (W 200%Z 10%Z); [vm_compute; reflexivity | reflexivity
                             | reflexivity].
Defined.

(* ================================================================= *)
(** ** Image ids stay distinct *)

Lemma idsOk_mono (ids : nat -> string) (c c' : nat) (l : list string) :
  (c <= c')%nat -> idsOk ids c l -> idsOk ids c' l.
Proof.
  intros Hc [N F]. split; [exact N |].
  eapply Forall_impl; [| exact F].
  intros id (k & Hk & E). exists k. split; [lia | exact E].
Qed.

Lemma idsOk_fresh (ids : nat -> string) (c : nat) (l : list string) :
  (forall a b, ids a = ids b -> a = b) ->
  idsOk ids c l -> idsOk ids (S c) (l ++ [ids c]).
Proof.
  intros Inj [N F]. split.
  - apply NoDup_app; [exact N | repeat constructor; intros [] |].
    intros x Hx [<- | []].
    rewrite Forall_forall in F. destruct (F _ Hx) as (k & Hk & E).
    apply Inj in E. lia.
  - apply Forall_app. split.
    + eapply Forall_impl; [| exact F].
      intros id (k & Hk & E). exists k. split; [lia | exact E].
    + constructor; [| constructor]. exists c. split; [lia | reflexivity].
Qed.

Lemma idsOk_perm (ids : nat -> string) (c : nat) (l l' : list string) :
  Permutation.Permutation l l' -> idsOk ids c l -> idsOk ids c l'.
Proof.
  intros P [N F]. split.
  - exact (Permutation.Permutation_NoDup P N).
  - rewrite Forall_forall in *. intros x Hx. apply F.
    exact (Permutation.Permutation_in x (Permutation.Permutation_sym P) Hx).
Qed.

Lemma idsOk_filter {A : Type} (ids : nat -> string) (c : nat)
      (f : A -> string) (p : A -> bool) (l : list A) :
  idsOk ids c (map f l) -> idsOk ids c (map f (filter p l)).
Proof.
  intros [N F]. split.
  - clear F. induction l as [| a l IH]; simpl in *; [constructor |].
    inversion N; subst.
    destruct (p a); simpl; [| apply IH; assumption].
    constructor; [| apply IH; assumption].
    intros Hin. apply in_map_iff in Hin. destruct Hin as (x & E & Hx).
    apply filter_In in Hx. destruct Hx as [Hx _].
    match goal with H : ~ In _ _ |- _ => apply H end.
    rewrite <- E. apply in_map. exact Hx.
  - rewrite Forall_forall in *. intros x Hx. apply F.
    apply in_map_iff in Hx. destruct Hx as (y & E & Hy).
    apply filter_In in Hy. destruct Hy as [Hy _].
    rewrite <- E. apply in_map. exact Hy.
Qed.

Lemma filter_split_perm {A : Type} (p : A -> bool) (l : list A) :
  Permutation.Permutation l (filter p l ++ filter (fun x => negb (p x)) l).
Proof.
  induction l as [| a l IH]; simpl; [constructor |].
  destruct (p a); simpl.
  - constructor. exact IH.
  - apply Permutation.Permutation_cons_app. exact IH.
Qed.

Lemma insertBy_perm {A : Type} (key : A -> Z) (a : A) (l : list A) :
  Permutation.Permutation (insertBy key a l) (a :: l).
Proof.
  induction l as [| b l IH]; simpl; [apply Permutation.Permutation_refl |].
  destruct (key a <=? key b)%Z; [apply Permutation.Permutation_refl |].
  eapply Permutation.perm_trans;
    [apply Permutation.perm_skip; exact IH | apply Permutation.perm_swap].
Qed.

Lemma sortBy_perm {A : Type} (key : A -> Z) (l : list A) :
  Permutation.Permutation (sortBy key l) l.
Proof.
  induction l as [| a l IH]; simpl; [constructor |].
  eapply Permutation.perm_trans; [apply insertBy_perm |].
  constructor. exact IH.
Qed.

Lemma captured_ids (l : list Node.t) (k : nat) :
  map ImgState.id (mapiFrom captureImage k l) = map Node.imageId l.
Proof.
  revert k. induction l as [| a l IH]; intros k; simpl; [reflexivity |].
  rewrite IH. reflexivity.
Qed.

Lemma created_ids (l : list ImgState.t) (k : nat) :
  map Node.imageId (mapiFrom createKonvaImageFromState k l)
  = map ImgState.id l.
Proof.
  revert k. induction l as [| a l IH]; intros k; simpl; [reflexivity |].
  destruct (createKonvaImageFromState_id a k) as [_ E].
  rewrite E, IH. reflexivity.
Qed.

Lemma captureState_idsOk (s : State) :
  idsOk (idSource s) (idCalls s) (map Node.imageId (layer s)) ->
  idsOk (idSource s) (idCalls s) (map ImgState.id (images (captureState s))).
Proof.
  intros H. rewrite captureState_images. unfold mapi.
  rewrite captured_ids. exact H.
Qed.

Lemma restoreState_idsOk (snap : Snapshot) (s : State) :
  idsOk (idSource s) (idCalls s) (map ImgState.id (images snap)) ->
  idsOk (idSource s) (idCalls s)
    (map Node.imageId (layer (restoreState snap s))).
Proof.
  intros H. rewrite restoreState_layer. unfold mapi.
  rewrite mapiFrom_offset, created_ids.
  apply (idsOk_perm _ _ (map ImgState.id (images snap))); [| exact H].
  apply Permutation.Permutation_map, Permutation.Permutation_sym,
    sortBy_perm.
Qed.

Lemma restoreState_generator (snap : Snapshot) (s : State) :
  idSource (restoreState snap s) = idSource s /\
  idCalls (restoreState snap s) = idCalls s.
Proof.
  unfold restoreState. cbv zeta.
  destruct (String.eqb _ ""); [split; reflexivity |].
  destruct (findImageById _ _); split; reflexivity.
Qed.

Lemma pushUndo_idsOk (s : State) : sessionIdsOk s -> sessionIdsOk (pushUndo s).
Proof.
  intros (Inj & L & U & R). unfold sessionIdsOk, pushUndo.
  cbn [layer undoStack redoStack set_stacks idSource idCalls].
  repeat split; [exact Inj | apply L | apply L | | constructor].
  apply limitStack_Forall, Forall_app. split; [exact U |].
  constructor; [apply captureState_idsOk; exact L | constructor].
Qed.

Lemma updateNode_idsOk (i : nat) (f : Node.t -> Node.t) (s : State) :
  (forall n, Node.imageId (f n) = Node.imageId n) ->
  sessionIdsOk s -> sessionIdsOk (updateNode i f s).
Proof.
  intros Hf (Inj & L & U & R). unfold sessionIdsOk, updateNode.
  cbn [layer undoStack redoStack set_layer idSource idCalls].
  assert (E : map Node.imageId
                (map (fun n => if Nat.eqb (Node._id n) i then f n else n)
                     (layer s))
              = map Node.imageId (layer s)).
  { rewrite map_map. apply map_ext. intros n.
    destruct (Nat.eqb _ _); [apply Hf | reflexivity]. }
  rewrite E. repeat split; try assumption; apply L.
Qed.

Lemma updateCropFromHandle_imageId (cosDeg sinDeg : Q -> Q) (n : Node.t)
      (handle : Handle.t) (vp : Edge) :
  Node.imageId (updateCropFromHandle cosDeg sinDeg n handle vp)
  = Node.imageId n.
Proof.
  unfold updateCropFromHandle.
  destruct (Qeq_bool _ 0); [reflexivity |].
  destruct (getSourceEdge _ _ _ _); [| reflexivity].
  cbv zeta. unfold applyCropBounds.
  destruct (Qeq_bool _ 0 || Qeq_bool _ 0); [reflexivity |].
  destruct (Qle_bool _ 0 || Qle_bool _ 0); [reflexivity |].
  cbv zeta. destruct (getVisualEdge _ _ _ _); reflexivity.
Qed.

Lemma stacks_idsOk_mono (ids : nat -> string) (c : nat)
      (l : list Snapshot) :
  Forall (fun snap => idsOk ids c (map ImgState.id (images snap))) l ->
  Forall (fun snap => idsOk ids (S c) (map ImgState.id (images snap))) l.
Proof.
  intros H. eapply Forall_impl; [| exact H].
  intros snap Hs. apply (idsOk_mono ids c (S c)); [lia | exact Hs].
Qed.

Ltac ids_update :=
  apply updateNode_idsOk;
  [ first [ intros ?; reflexivity
          | intros ?; apply updateCropFromHandle_imageId ]
  | first [ assumption | apply pushUndo_idsOk; assumption ] ].

Lemma reorder_idsOk (p : Node.t -> bool) (s : State) :
  sessionIdsOk s ->
  sessionIdsOk
    (set_layer (filter (fun n => negb (p n)) (layer s) ++ filter p (layer s))
       s) /\
  sessionIdsOk
    (set_layer (filter p (layer s) ++ filter (fun n => negb (p n)) (layer s))
       s).
Proof.
  intros (Inj & L & U & R). unfold sessionIdsOk.
  cbn [layer undoStack redoStack set_layer idSource idCalls].
  split; (split; [exact Inj |]; split; [| split; assumption]);
    apply (idsOk_perm _ _ (map Node.imageId (layer s))); try exact L;
    apply Permutation.Permutation_map.
  - eapply Permutation.perm_trans;
      [apply (filter_split_perm p) | apply Permutation.Permutation_app_comm].
  - apply (filter_split_perm p).
Qed.

Lemma append_fresh_idsOk (s : State) (n : Node.t)
      (s' : State) :
  sessionIdsOk (pushUndo s) ->
  idSource s' = idSource s ->
  idCalls s' = S (idCalls s) ->
  layer s' = layer s ++ [n] ->
  Node.imageId n = idSource s (idCalls s) ->
  undoStack s' = undoStack (pushUndo s) ->
  redoStack s' = redoStack (pushUndo s) ->
  sessionIdsOk s'.
Proof.
  intros (Inj & L & U & R) Es Ec El En Eu Er.
  unfold sessionIdsOk. rewrite Es, Ec, El, Eu, Er.
  cbn [idSource idCalls pushUndo set_stacks layer] in Inj, L, U, R.
  split; [exact Inj |]. split; [| split].
  - rewrite map_app. cbn [map]. rewrite En. apply idsOk_fresh; assumption.
  - apply stacks_idsOk_mono. exact U.
  - apply stacks_idsOk_mono. exact R.
Qed.

Lemma applyOp_idsOk (cosDeg sinDeg : Q -> Q) (op : Op) (s : State) :
  sessionIdsOk s -> sessionIdsOk (applyOp cosDeg sinDeg op s).
Proof.
  intros Inv.
  pose proof (pushUndo_idsOk s Inv) as P.
  destruct op; cbn [applyOp];
    unfold dragImage, handleNudge, transformSelected,
      dragCropHandle, resetCrop, flipHorizontal, flipVertical, rotateLeft,
      rotateRight, bringToTop, sendToBottom, dblclickImage,
      deleteSelected, setBlendMode, setOpacity, moveToTop, moveToBottom;
    try (destruct (getSelectedImage s) as [node |] eqn:Sel; [| exact Inv]);
    try (destruct (find (isNode nodeId) (layer s)) as [node |] eqn:Fnd;
         [| exact Inv]);
    try ids_update.
  - (* add *)
    eapply (append_fresh_idsOk s); try exact P; reflexivity.
  - (* nudge *)
    destruct (nudgeUndoPushed s), axis; ids_update.
  - (* flip horizontal *)
    destruct (isRotatedSideways node); ids_update.
  - (* flip vertical *)
    destruct (isRotatedSideways node); ids_update.
  - (* duplicate *)
    unfold duplicateImage.
    destruct (getSelectedImage s) as [node |] eqn:Sel; [| exact Inv].
    eapply (append_fresh_idsOk s); try exact P; reflexivity.
  - (* bring to top *)
    apply (reorder_idsOk (isNode (Node._id node)) (pushUndo s) P).
  - (* send to bottom *)
    apply (reorder_idsOk (isNode (Node._id node)) (pushUndo s) P).
  - (* double click *)
    apply (reorder_idsOk (isNode (Node._id node)) (pushUndo s) P).
  - (* delete *)
    destruct P as (Inj & L & U & R).
    unfold sessionIdsOk, destroyNode.
    cbn [layer undoStack redoStack set_layer set_selection idSource idCalls]
      in *.
    split; [exact Inj |]. split; [| split; assumption].
    apply idsOk_filter. exact L.
Qed.

Lemma restore_session_idsOk (snap : Snapshot) (u r : list Snapshot)
      (s : State) :
  (forall a b, idSource s a = idSource s b -> a = b) ->
  idsOk (idSource s) (idCalls s) (map ImgState.id (images snap)) ->
  Forall (fun snap =>
            idsOk (idSource s) (idCalls s) (map ImgState.id (images snap)))
         u ->
  Forall (fun snap =>
            idsOk (idSource s) (idCalls s) (map ImgState.id (images snap)))
         r ->
  sessionIdsOk (restoreState snap (set_stacks u r s)).
Proof.
  intros Inj Hs Hu Hr.
  destruct (restoreState_stacks snap (set_stacks u r s)) as [U R].
  destruct (restoreState_generator snap (set_stacks u r s)) as [G C].
  pose proof (restoreState_idsOk snap (set_stacks u r s) Hs) as L.
  unfold sessionIdsOk. rewrite U, R, G, C.
  split; [exact Inj |]. split; [exact L |]. split; assumption.
Qed.

Lemma step_idsOk (cosDeg sinDeg : Q -> Q) (s : State) (a : Action) :
  sessionIdsOk s -> sessionIdsOk (step cosDeg sinDeg s a).
Proof.
  intros Inv. destruct a; cbn [step].
  - apply applyOp_idsOk; assumption.
  - unfold selectImage. destruct (find _ _); exact Inv.
  - exact Inv.
  - apply pushUndo_idsOk; exact Inv.
  - unfold undo.
    destruct (pop (undoStack s)) as [[z rest] |] eqn:E; [| exact Inv].
    destruct Inv as (Inj & L & U & R).
    destruct (pop_Forall _ _ _ _ E U) as [Hz Hrest].
    apply restore_session_idsOk; try assumption.
    apply Forall_app. split; [exact R |].
    constructor; [apply captureState_idsOk; exact L | constructor].
  - unfold redo.
    destruct (pop (redoStack s)) as [[z rest] |] eqn:E; [| exact Inv].
    destruct Inv as (Inj & L & U & R).
    destruct (pop_Forall _ _ _ _ E R) as [Hz Hrest].
    apply restore_session_idsOk; try assumption.
    apply Forall_app. split; [exact U |].
    constructor; [apply captureState_idsOk; exact L | constructor].
Qed.

(** X28. Image ids stay distinct: when the id generator never returns
    the same id twice, then in every state reached from the empty page by
    editing operations, selections, [pushUndo], [undo] and [redo], no two
    images of the layer have the same id, and [findImageById] of the id
    of an image of the layer finds that image. *)
Theorem image_ids_stay_distinct
        (cosDeg sinDeg : Q -> Q) (st : Stage.t) (ids : nat -> string)
        (actions : list Action) :
  (forall a b, ids a = ids b -> a = b) ->
  let s := run cosDeg sinDeg actions (initialState st ids) in
  NoDup (map Node.imageId (layer s)) /\
  forall n, In n (layer s) -> findImageById (Node.imageId n) s = Some n.
Proof.
  intros Inj s.
  assert (I : sessionIdsOk (initialState st ids)).
  { split; [exact Inj |]. repeat split; constructor. }
  assert (R : forall t, sessionIdsOk t ->
                        sessionIdsOk (run cosDeg sinDeg actions t)).
  { induction actions as [| a rest IH]; intros t Ht; [exact Ht |].
    unfold run. cbn [fold_left]. apply IH. apply step_idsOk. exact Ht. }
  destruct (R _ I) as (_ & [N _] & _ & _). fold s in N.
  split; [exact N |].
  unfold findImageById. clearbody s. clear R I Inj.
  induction (layer s) as [| a l IH]; intros n Hn; [contradiction |].
  cbn [map] in N. inversion N as [| ? ? Hnot Hrest]; subst.
  cbn [find]. destruct Hn as [<- | Hn].
  - rewrite String.eqb_refl. reflexivity.
  - destruct (String.eqb_spec (Node.imageId a) (Node.imageId n)) as [E | _].
    + exfalso. apply Hnot. rewrite E. apply in_map. exact Hn.
    + apply IH; assumption.
Qed.

Lemma image_ids_stay_distinct_witness :
  NoDup
    (map Node.imageId
       (layer
          (run quarterCos quarterSin
             [Edit (OpAdd Sample.raster "a.png"); Edit OpDuplicate; Undo;
              Redo; Edit OpDuplicate]
             (initialState Sample.stage natToString)))).
Proof.
  destruct (image_ids_stay_distinct quarterCos quarterSin Sample.stage
              natToString
              [Edit (OpAdd Sample.raster "a.png"); Edit OpDuplicate; Undo;
               Redo; Edit OpDuplicate]) as [A _].
  - intros a b H. rewrite <- (DecimalNat.Unsigned.of_to a),
      <- (DecimalNat.Unsigned.of_to b).
    unfold natToString in H.
    apply (f_equal NilEmpty.uint_of_string) in H.
    rewrite !NilEmpty.usu in H. injection H as H. rewrite H. reflexivity.
  - exact A.
Defined.
